(** * egihash: a shallow embedding of egihash.cpp / egihash.h

    The embedding follows the C++ source function by function.  Integers
    are [Z] with the wrap-around of the C++ type written out at every
    conversion; [std::string] and [uint8_t] buffers are [list byte];
    [std::vector<int32_t>] is [list Z] holding signed 32-bit values;
    exceptions are an explicit result type.  The Keccak primitives of
    keccak-tiny are parameters of the model.  The host is taken to be
    little-endian with a 64-bit [size_t]. *)

From Stdlib Require Import ZArith List Lia Znumtheory.
From Stdlib Require Import Strings.Byte Strings.String.
From stdpp Require Import base option list gmap.
From Equations Require Import Equations.

Local Open Scope Z_scope.

(** ** Fixed-width integers *)

Definition to_uint32 (z : Z) : Z := z mod 2 ^ 32.
Definition to_uint64 (z : Z) : Z := z mod 2 ^ 64.
Definition to_int32 (z : Z) : Z := (z + 2 ^ 31) mod 2 ^ 32 - 2 ^ 31.

(** [uint8_t] *)
Definition byte_to_Z (b : byte) : Z := Z.of_N (Byte.to_N b).
Definition byte_of_Z (z : Z) : byte :=
  match Byte.of_N (Z.to_N (z mod 256)) with
  | Some b => b
  | None => x00
  end.

(** ** namespace constants *)

Module constants.
(** "EGIHASH_DAG" *)
Definition DAG_MAGIC_BYTES : list byte :=
  [x45; x47; x49; x48; x41; x53; x48; x5f; x44; x41; x47].
(** sizeof(DAG_MAGIC_BYTES) counts the terminating NUL *)
Definition sizeof_DAG_MAGIC_BYTES : Z := 12.
Definition DAG_FILE_HEADER_SIZE : Z :=
  sizeof_DAG_MAGIC_BYTES + (5 * 8) + (3 * 4) + 2.
Definition CALLBACK_FREQUENCY : Z := 1.
Definition MAJOR_VERSION : Z := 1.
Definition REVISION : Z := 23.
Definition MINOR_VERSION : Z := 0.
Definition WORD_BYTES : Z := 4.
Definition DATASET_BYTES_INIT : Z := 2 ^ 30.
Definition DATASET_BYTES_GROWTH : Z := 2 ^ 23.
Definition CACHE_BYTES_INIT : Z := 2 ^ 24.
Definition CACHE_BYTES_GROWTH : Z := 2 ^ 17.
Definition CACHE_MULTIPLIER : Z := 1024.
Definition EPOCH_LENGTH : Z := 30000.
Definition MIX_BYTES : Z := 128.
Definition HASH_BYTES : Z := 64.
Definition DATASET_PARENTS : Z := 256.
Definition CACHE_ROUNDS : Z := 3.
Definition ACCESSES : Z := 64.
End constants.
Import constants.

(** ** Word codec *)

(** [decode_int(data, dataEnd)]: [data] is the array [arr] at offset
    [off], [dataEnd] the offset [end_off] in the same array. *)
Definition decode_int (arr : list byte) (off end_off : nat) : Z :=
  if (end_off <? off + 3)%nat then 0
  else
    to_int32
      (Z.lor (Z.lor (Z.lor
         (Z.shiftl (byte_to_Z (nth off arr x00)) 24)
         (Z.shiftl (byte_to_Z (nth (off + 1) arr x00)) 16))
         (Z.shiftl (byte_to_Z (nth (off + 2) arr x00)) 8))
         (byte_to_Z (nth (off + 3) arr x00))).

(** [zpad(str, length)] *)
Definition zpad (str : list byte) (len : nat) : list byte :=
  str ++ replicate (len - length str) x00.

(** [ss << hex << x] for a 32-bit [int]: the hexadecimal digits of the
    two's-complement pattern, most significant first, without leading
    zeros.  A digit is kept as its value 0..15. *)
Fixpoint hex_digits (fuel : nat) (u : Z) (acc : list Z) : list Z :=
  match fuel with
  | O => acc
  | S fuel' =>
      if u =? 0 then acc else hex_digits fuel' (u / 16) (u mod 16 :: acc)
  end.

Definition hex_str (x : Z) : list Z :=
  if to_uint32 x =? 0 then [0] else hex_digits 8 (to_uint32 x) [].

(** the loop [for (i = 0; i < encoded.size(); i += 2)
    ret += static_cast<char>(stoi(encoded.substr(i, 2), 0, 16))] *)
Fixpoint hex_pairs (encoded : list Z) : list byte :=
  match encoded with
  | d1 :: d2 :: rest => byte_of_Z (16 * d1 + d2) :: hex_pairs rest
  | [d1] => [byte_of_Z d1]
  | [] => []
  end.

(** [encode_int(x)] at [IntegralType = int32_t] *)
Definition encode_int (x : Z) : list byte :=
  if x =? 0 then []
  else
    let hs := hex_str x in
    let encoded := replicate (length hs mod 2) 0 ++ hs in
    hex_pairs encoded.

(** [sha3_base::serialize(h)] *)
Definition serialize (h : list Z) : list byte :=
  flat_map (fun i => zpad (encode_int i) 4) h.

(** [sha3_base::deserialize()] on the array [data] of [hash_size] bytes *)
Definition deserialize (hash_size : nat) (data : list byte) : list Z :=
  map (fun j => decode_int data (4 * j) (hash_size - 1))
      (seq 0 (hash_size / 4)).

(** [inline uint32_t fnv(uint32_t v1, uint32_t v2)] *)
Definition FNV_PRIME : Z := 0x01000193.
Definition FNV_MODULUS : Z := 2 ^ 32.
Definition fnv (v1 v2 : Z) : Z :=
  let v1 := to_uint32 v1 in
  let v2 := to_uint32 v2 in
  (Z.lxor (to_uint32 (v1 * FNV_PRIME)) v2) mod FNV_MODULUS.

(** [is_prime(x)]: [for (i = 2; i <= std::sqrt(x); i++)] with the
    square root taken as the integer square root, which admits the same
    trial divisors [i] with [i * i <= x].  The loop runs at most
    [sqrt x - 1] times, so the fuel [sqrt x] is never exhausted. *)
Fixpoint is_prime_loop (fuel : nat) (i x : Z) : bool :=
  match fuel with
  | O => true
  | S fuel' =>
      if i <=? Z.sqrt x then
        if x mod i =? 0 then false else is_prime_loop fuel' (i + 1) x
      else true
  end.

Definition is_prime (x : Z) : bool :=
  is_prime_loop (Z.to_nat (Z.sqrt x)) 2 x.

Lemma is_prime_false_ge x : is_prime x = false -> 4 <= x.
Proof.
  intros H. destruct (Z_lt_le_dec x 4) as [Hlt|]; [|assumption].
  exfalso. unfold is_prime in H.
  assert (Hs : Z.sqrt x < 2).
  { destruct (Z_lt_le_dec x 0).
    - rewrite Z.sqrt_neg by lia. lia.
    - apply Z.sqrt_lt_square; lia. }
  destruct (Z.to_nat (Z.sqrt x)); simpl in H; [discriminate|].
  destruct (Z.leb_spec 2 (Z.sqrt x)); [lia|discriminate].
Qed.

(** [while (!is_prime(cache_size / HASH_BYTES)) cache_size -= (2 * HASH_BYTES);]
    on [size_type] (64-bit unsigned). *)
Equations? get_cache_size_loop (cache_size : Z) : Z by wf (Z.to_nat cache_size) lt :=
  get_cache_size_loop cache_size with Equations.Prop.Logic.inspect (is_prime (cache_size / HASH_BYTES)) => {
    | exist _ true Hp := cache_size;
    | exist _ false Hp := get_cache_size_loop (to_uint64 (cache_size - 2 * HASH_BYTES)) }.
Proof.
  apply is_prime_false_ge in Hp. unfold HASH_BYTES in *.
  pose proof (Z.mul_div_le cache_size 64 ltac:(lia)).
  unfold to_uint64.
  pose proof (Z.mod_pos_bound (cache_size - 2 * 64) (2 ^ 64) ltac:(lia)).
  pose proof (Z.mod_le (cache_size - 2 * 64) (2 ^ 64) ltac:(lia) ltac:(lia)).
  lia.
Qed.

(** [while (!is_prime(full_size / MIX_BYTES)) full_size -= (2 * MIX_BYTES);]
    on [uint64_t]. *)
Equations? get_full_size_loop (full_size : Z) : Z by wf (Z.to_nat full_size) lt :=
  get_full_size_loop full_size with Equations.Prop.Logic.inspect (is_prime (full_size / MIX_BYTES)) => {
    | exist _ true Hp := full_size;
    | exist _ false Hp := get_full_size_loop (to_uint64 (full_size - 2 * MIX_BYTES)) }.
Proof.
  apply is_prime_false_ge in Hp. unfold MIX_BYTES in *.
  pose proof (Z.mul_div_le full_size 128 ltac:(lia)).
  unfold to_uint64.
  pose proof (Z.mod_pos_bound (full_size - 2 * 128) (2 ^ 64) ltac:(lia)).
  pose proof (Z.mod_le (full_size - 2 * 128) (2 ^ 64) ltac:(lia) ltac:(lia)).
  lia.
Qed.

(** [cache_t::impl_t::get_cache_size(block_number)]; the operands are
    promoted to the 64-bit type of [block_number]. *)
Definition get_cache_size (block_number : Z) : Z :=
  let cache_size :=
    to_uint64 (to_uint64 (CACHE_BYTES_INIT
                 + to_uint64 (CACHE_BYTES_GROWTH * (block_number / EPOCH_LENGTH)))
               - HASH_BYTES) in
  get_cache_size_loop cache_size.

(** [dag::impl_t::get_full_size(block_number)] *)
Definition get_full_size (block_number : Z) : Z :=
  let full_size :=
    to_uint64 (to_uint64 (DATASET_BYTES_INIT
                 + to_uint64 (DATASET_BYTES_GROWTH * (block_number / EPOCH_LENGTH)))
               - MIX_BYTES) in
  get_full_size_loop full_size.

(** One pass of a size loop in a proof: unfold the loop once and
    evaluate the primality test of the current size. *)
Ltac size_loop_step eqn :=
  rewrite eqn;
  match goal with
  | |- context [is_prime ?a] =>
      let b := eval vm_compute in (is_prime a) in
      change (is_prime a) with b
  end;
  cbv iota;
  try match goal with
  | |- context [to_uint64 ?a] =>
      let b := eval vm_compute in (to_uint64 a) in
      change (to_uint64 a) with b
  end.

(** ** Exceptions, progress callbacks, loops *)

(** [class hash_exception : public std::runtime_error], with its
    [what()] message. *)
Inductive hash_exception : Type :=
  | HashException (what_arg : string).

(** The outcome of a call that may throw. *)
Inductive outcome (A : Type) : Type :=
  | Return (a : A)
  | Throw (e : hash_exception).
Arguments Return {A} a.
Arguments Throw {A} e.

#[global] Instance outcome_bind : MBind outcome := fun A B k c =>
  match c with
  | Return a => k a
  | Throw e => Throw e
  end.

Inductive progress_callback_phase : Type :=
  | cache_seeding
  | cache_generation
  | cache_saving
  | cache_loading
  | dag_generation
  | dag_saving
  | dag_loading.

(** [progress_callback_type]: (step, max, phase) to "continue". *)
Definition progress_callback_type : Type :=
  Z -> Z -> progress_callback_phase -> bool.

(** [for (i = first; count iterations; i++) body], leaving the loop
    when the body throws. *)
Fixpoint for_loop {S : Type} (count : nat) (i : nat)
    (body : nat -> S -> outcome S) (s : S) : outcome S :=
  match count with
  | O => Return s
  | Datatypes.S count' =>
      s' ← body i s; for_loop count' (Datatypes.S i) body s'
  end.

(** ** The hash primitives *)

(** keccak-tiny's [::sha3_256] and [::sha3_512], which the wrappers
    [sha3_base<HashSize, HashFunction>] call: total functions from the
    input bytes to the digest bytes. *)
Class Keccak : Type := {
  H256 : list byte -> list byte;
  H512 : list byte -> list byte
}.

(** A toy pair of primitives, used to run the model on concrete
    inputs: output byte [k] is [k + length input + sum of the input
    bytes] modulo 256. *)
Definition toy_hash (out_len : nat) (input : list byte) : list byte :=
  let t := fold_left (fun acc b => acc + byte_to_Z b) input (Z.of_nat (length input)) in
  map (fun k => byte_of_Z (Z.of_nat k + t)) (seq 0 out_len).

Definition toy_keccak : Keccak :=
  {| H256 := toy_hash 32; H512 := toy_hash 64 |}.

(** ** Predicates used to state the properties *)

(** [size] is the largest value [start - k * (2 * unit)], [k >= 0],
    whose quotient by [unit] is prime. *)
Definition largest_prime_size (unit start size : Z) : Prop :=
  Z.prime (size / unit)
  /\ exists k, 0 <= k /\ size = start - k * (2 * unit)
       /\ forall k', 0 <= k' < k ->
            ~ Z.prime ((start - k' * (2 * unit)) / unit).

(** A log of [lookup] arguments made of pairs [p; p + 1] with [p] even
    and [p + 1 <= n - 1]. *)
Definition pages_ok (n : Z) (lookups : list Z) : Prop :=
  exists ps : list Z,
    lookups = flat_map (fun p => [p; p + 1]) ps
    /\ Forall (fun p => 0 <= p /\ p + 1 <= n - 1 /\ p mod 2 = 0) ps.

(** The callback answers "stop" at some step in [lo, hi) of a phase. *)
Definition stops (callback : Z -> Z -> progress_callback_phase -> bool)
    (phase : progress_callback_phase) (max lo hi : Z) : Prop :=
  exists step, lo <= step < hi /\ callback step max phase = false.


(** [count] items of 16 words each. *)
Definition items_ok (count : nat) (data : list (list Z)) : Prop :=
  length data = count /\ Forall (fun item => length item = 16%nat) data.
(** ** The hash wrappers and everything built on them *)

Section Egihash.

Context {K : Keccak}.

(** [sha3_base<HashSize, HashFunction>]: the member [data], an array
    of [hash_size] bytes initialised to zero, after [compute_hash]
    let the primitive write [hash_size] bytes into it. *)
Definition compute_hash (hash_size : nat)
    (HashFunction : list byte -> list byte) (input : list byte) : list byte :=
  take hash_size (HashFunction input ++ replicate hash_size x00).

Definition sha3_256_t (input : list byte) : list byte :=
  compute_hash 32 H256 input.
Definition sha3_512_t (input : list byte) : list byte :=
  compute_hash 64 H512 input.

(** [hash_words<HashType>(std::string const &)], reached through
    [sha3_256(data)] and [sha3_512(data)] on a string *)
Definition sha3_256_str (data : list byte) : list Z :=
  deserialize 32 (sha3_256_t data).
Definition sha3_512_str (data : list byte) : list Z :=
  deserialize 64 (sha3_512_t data).

(** [hash_words<HashType>(deserialized_hash_t const &)], reached
    through [sha3_256(data)] and [sha3_512(data)] on a word vector *)
Definition sha3_256 (deserialized : list Z) : list Z :=
  sha3_256_str (serialize deserialized).
Definition sha3_512 (deserialized : list Z) : list Z :=
  sha3_512_str (serialize deserialized).

(** *** Seed hash *)

(** [static constexpr char epoch0_seedhash[]]: 32 NUL characters and
    the terminating NUL, [sizeof(epoch0_seedhash) == 33]. *)
Definition epoch0_seedhash : list byte := replicate 33 x00.

(** [std::string] built from a [char] pointer: the characters before
  the first NUL *)
Fixpoint string_of_cstr (s : list byte) : list byte :=
  match s with
  | [] => []
  | c :: rest => if Byte.eqb c x00 then [] else c :: string_of_cstr rest
  end.

(** [get_seedhash(block_number)] *)
Definition get_seedhash (block_number : Z) : list byte :=
  Z.iter (block_number / EPOCH_LENGTH)
    (fun s => serialize (sha3_256_str s))
    (string_of_cstr epoch0_seedhash).

(** *** Cache *)

(** The seeding loop body of [mkcache], for [i] from 1. *)
Definition mkcache_seed (n : nat) (callback : progress_callback_type)
    (i : nat) (data : list (list Z)) : outcome (list (list Z)) :=
  let data := data ++ [sha3_512 (List.last data [])] in
  if (Z.of_nat i mod CALLBACK_FREQUENCY =? 0)
     && negb (callback (Z.of_nat i) (Z.of_nat n) cache_seeding)
  then Throw (HashException "Cache creation cancelled.")
  else Return data.

(** The statements of the inner loop of [mkcache] up to the callback:
    [u] is a reference to [data[(j-1+n)%n]], which the XOR loop
    updates in place before [data[i]] is assigned.  The round index
    [i] runs to [CACHE_ROUNDS - 1 = 2], so [data[i]] is an element of
    the vector when it has at least three items, as it has for every
    size that [get_cache_size] returns; for a smaller vector the
    source assigns past its end, which has no defined result, and the
    model is not meant for that case. *)
Definition mkcache_step (n i j : nat) (data : list (list Z)) : list (list Z) :=
  let v := Z.to_nat (to_uint64 ((data !!! j) !!! 0%nat) mod Z.of_nat n) in
  let ui := Z.to_nat (to_uint64 (to_uint64 (Z.of_nat j - 1) + Z.of_nat n)
                      mod Z.of_nat n) in
  let u := imap (fun count k => Z.lxor k ((data !!! v) !!! count)) (data !!! ui) in
  let data := <[ui := u]> data in
  <[i := sha3_512 u]> data.

Definition mkcache_round (n : nat) (callback : progress_callback_type)
    (i j : nat) (st : list (list Z) * Z) : outcome (list (list Z) * Z) :=
  let '(data, progress_counter) := st in
  let data := mkcache_step n i j data in
  if Z.of_nat i mod CALLBACK_FREQUENCY =? 0 then
    if negb (callback progress_counter (Z.of_nat n * CACHE_ROUNDS) cache_generation)
    then Throw (HashException "Cache creation cancelled.")
    else Return (data, progress_counter + 1)
  else Return (data, progress_counter).

(** [cache_t::impl_t::mkcache(seed, callback)] with the member [size] *)
Definition mkcache (size : Z) (seed : list byte)
    (callback : progress_callback_type) : outcome (list (list Z)) :=
  let n := Z.to_nat (size / HASH_BYTES) in
  let data := [sha3_512_str seed] in
  data ← for_loop (n - 1) 1 (mkcache_seed n callback) data;
  st ← for_loop (Z.to_nat CACHE_ROUNDS) 0
         (fun i st => for_loop n 0 (mkcache_round n callback i) st)
         (data, 0);
  Return (fst st).

(** [cache_t::impl_t] *)
Record cache_t : Type := {
  cache_epoch : Z;
  cache_size : Z;
  cache_data : list (list Z)
}.

(** [cache_t::impl_t::impl_t(block_number, seed, callback)] *)
Definition cache_new (block_number : Z) (seed : list byte)
    (callback : progress_callback_type) : outcome cache_t :=
  let epoch := block_number / EPOCH_LENGTH in
  let size := get_cache_size block_number in
  data ← mkcache size seed callback;
  Return {| cache_epoch := epoch; cache_size := size; cache_data := data |}.

(** *** DAG *)

(** The loops that walk two vectors with the iterators [k] and [l]
    while [(k != kEnd) && (l != lEnd)] and store [fnv] of the two
    elements through [k]: the first elements of [mix] are replaced, as
    many as [other] has, and the rest of [mix] stays. *)
Fixpoint fnv_into (mix other : list Z) : list Z :=
  match mix, other with
  | k :: mix', l :: other' => to_int32 (fnv k l) :: fnv_into mix' other'
  | _, _ => mix
  end.

(** [dag::impl_t::calc_dataset_item(cache, i)] *)
Definition calc_dataset_item (cache : list (list Z)) (i : Z) : list Z :=
  let n := Z.of_nat (length cache) in
  let r := HASH_BYTES / WORD_BYTES in
  let mix := cache !!! Z.to_nat (i mod n) in
  let mix := <[0%nat := to_int32 (Z.lxor (to_uint64 (mix !!! 0%nat)) i)]> mix in
  let mix := sha3_512 mix in
  let mix :=
    fold_left
      (fun mix j =>
         let cache_index := fnv (Z.lxor i j) (mix !!! Z.to_nat (j mod r)) in
         fnv_into mix (cache !!! Z.to_nat (cache_index mod n)))
      (seqZ 0 DATASET_PARENTS) mix in
  sha3_512 mix.

Definition generate_item (cache : list (list Z)) (n : nat)
    (callback : progress_callback_type)
    (i : nat) (data : list (list Z)) : outcome (list (list Z)) :=
  let data := data ++ [calc_dataset_item cache (Z.of_nat i)] in
  if (Z.of_nat i mod CALLBACK_FREQUENCY =? 0)
     && negb (callback (Z.of_nat i) (Z.of_nat n) dag_generation)
  then Throw (HashException "DAG creation cancelled.")
  else Return data.

(** [dag::impl_t::generate(callback)] with the members [size] and
    [cache] *)
Definition generate (size : Z) (cache : list (list Z))
    (callback : progress_callback_type) : outcome (list (list Z)) :=
  let n := Z.to_nat (size / HASH_BYTES) in
  for_loop n 0 (generate_item cache n callback) [].

(** [dag::impl_t] *)
Record dag_t : Type := {
  dag_epoch : Z;
  dag_size : Z;
  dag_cache_of : cache_t;
  dag_data : list (list Z)
}.

(** [dag::impl_t::impl_t(block_number, callback)] *)
Definition dag_new (block_number : Z)
    (callback : progress_callback_type) : outcome dag_t :=
  let epoch := block_number / EPOCH_LENGTH in
  let size := get_full_size block_number in
  cache ← cache_new block_number (get_seedhash block_number) callback;
  data ← generate size (cache_data cache) callback;
  Return {| dag_epoch := epoch; dag_size := size;
            dag_cache_of := cache; dag_data := data |}.

(** *** Hashimoto *)

(** [result_t]: two [h256_t], each an array [b] of 32 bytes *)
Record result_t : Type := {
  value : list byte;
  mixhash : list byte
}.

(** [reinterpret_cast<uint8_t const *>(&nonce)[k]] on a little-endian
    host: byte [k] of the object representation of the [uint64_t]. *)
Definition nonce_byte (nonce k : Z) : Z :=
  Z.land (Z.shiftr nonce (8 * k)) 255.

(** [header_seed] after the loop that pushes the bytes of the nonce,
    each one as a new [int32_t] element of the vector. *)
Definition header_seed (header : list Z) (nonce : Z) : list Z :=
  fold_left (fun header_seed i => header_seed ++ [nonce_byte nonce (7 - i)])
    (seqZ 0 8) header.

(** The object representation of a [std::vector<int32_t>] on a
    little-endian host, as [memcpy] and [fs.write] see it. *)
Definition le_bytes (count : nat) (x : Z) : list byte :=
  map (fun k => byte_of_Z (Z.shiftr x (8 * Z.of_nat k))) (seq 0 count).
Definition object_bytes (v : list Z) : list byte :=
  flat_map (le_bytes 4) v.

(** [memcpy(dst, src, count)] *)
Definition memcpy (dst src : list byte) (count : nat) : list byte :=
  take count src ++ drop count dst.

(** [fnv(i ^ s[0], mix[i % w]) % (n / mixhashes) * mixhashes], the
    value of [p] in pass [i] of the access loop. *)
Definition page_index (n : Z) (s mix : list Z) (i : Z) : Z :=
  let w := MIX_BYTES / WORD_BYTES in
  let mixhashes := MIX_BYTES / HASH_BYTES in
  fnv (Z.lxor i (to_uint64 (s !!! 0%nat))) (mix !!! Z.to_nat (i mod w))
  mod (n / mixhashes) * mixhashes.

(** One pass of the access loop.  The state is [mix] and the list of
    the arguments [lookup] has been called with so far. *)
Definition hashimoto_access (n : Z) (s : list Z) (lookup : Z -> list Z)
    (st : list Z * list Z) (i : Z) : list Z * list Z :=
  let '(mix, lookups) := st in
  let p := page_index n s mix i in
  let '(newdata, lookups) :=
    fold_left
      (fun '(newdata, lookups) j =>
         (newdata ++ lookup (p + j), lookups ++ [p + j]))
      (seqZ 0 (MIX_BYTES / HASH_BYTES)) ([], lookups) in
  (fnv_into mix newdata, lookups).

(** [hashimoto] up to the end of the access loop: [s], the final [mix]
    and the arguments of all calls of [lookup], in order. *)
Definition hashimoto_mix (header : list Z) (nonce full_size : Z)
    (lookup : Z -> list Z) : list Z * (list Z * list Z) :=
  let n := full_size / HASH_BYTES in
  let s := sha3_512 (header_seed header nonce) in
  let mix := fold_left (fun mix _ => mix ++ s)
               (seqZ 0 (MIX_BYTES / HASH_BYTES)) [] in
  (s, fold_left (hashimoto_access n s lookup) (seqZ 0 ACCESSES) (mix, [])).

Definition hashimoto_lookups (header : list Z) (nonce full_size : Z)
    (lookup : Z -> list Z) : list Z :=
  snd (snd (hashimoto_mix header nonce full_size lookup)).

(** The loop [for (size_t i = 0; i < mix.size(); i += 4)] *)
Definition compress_mix (mix : list Z) : list Z :=
  map (fun q =>
         let i := (4 * q)%nat in
         to_int32 (fnv (fnv (fnv (mix !!! i) (mix !!! (i + 1)%nat))
                            (mix !!! (i + 2)%nat))
                       (mix !!! (i + 3)%nat)))
      (seq 0 ((length mix + 3) / 4)).

(** [hashimoto(header, nonce, full_size, lookup)] *)
Definition hashimoto (header : list Z) (nonce full_size : Z)
    (lookup : Z -> list Z) : result_t :=
  let '(s, (mix, _)) := hashimoto_mix header nonce full_size lookup in
  let cmix := compress_mix mix in
  let v := sha3_256 s in
  {| value := memcpy (replicate 32 x00) (object_bytes v)
                (Nat.min 32 (length v));
     mixhash := memcpy (replicate 32 x00) (object_bytes cmix)
                  (Nat.min 32 (length cmix)) |}.

(** [hashimoto_light(full_size, c, header, nonce)] *)
Definition hashimoto_light (full_size : Z) (c : cache_t)
    (header : list Z) (nonce : Z) : result_t :=
  hashimoto header nonce full_size
    (fun x => calc_dataset_item (cache_data c) x).

(** [hashimoto_full(full_size, dataset, header, nonce)] *)
Definition hashimoto_full (full_size : Z) (dataset : dag_t)
    (header : list Z) (nonce : Z) : result_t :=
  hashimoto header nonce full_size
    (fun x => dag_data dataset !!! Z.to_nat x).

(** *** The DAG registry *)

(** The process: every [dag::impl_t] constructed so far, a
    [std::shared_ptr<impl_t>] being the index of its object, and the
    static map [dag_cache] that [dag_cache_mutex] guards. *)
Record process : Type := {
  objects : list dag_t;
  dag_cache : gmap Z nat
}.

(** [std::map::insert]: the map, the element the returned iterator
    points to, and whether the insertion took place. *)
Definition map_insert (k : Z) (v : nat) (m : gmap Z nat) : gmap Z nat * nat * bool :=
  match m !! k with
  | Some v' => (m, v', false)
  | None => (<[k := v]> m, v, true)
  end.

(** A call of [get_dag(block_number, callback)] in progress.  The two
    sections under [lock_guard] are atomic; the construction between
    them is not under the lock. *)
Inductive thread : Type :=
  | Requested (block_number : Z) (callback : progress_callback_type)
  | Constructing (block_number : Z) (callback : progress_callback_type)
  | Constructed (block_number : Z) (impl : nat)
  | Returned (block_number : Z) (p : nat)
  | Thrown (block_number : Z) (e : hash_exception).

Definition thread_step (t : thread) (st : process) : thread * process :=
  match t with
  | Requested block_number callback =>
      let epoch_number := block_number / EPOCH_LENGTH in
      match dag_cache st !! epoch_number with
      | Some p => (Returned block_number p, st)
      | None => (Constructing block_number callback, st)
      end
  | Constructing block_number callback =>
      match dag_new block_number callback with
      | Throw e => (Thrown block_number e, st)
      | Return d =>
          (Constructed block_number (length (objects st)),
           {| objects := objects st ++ [d]; dag_cache := dag_cache st |})
      end
  | Constructed block_number impl =>
      let epoch_number := block_number / EPOCH_LENGTH in
      let '(m, it, inserted) := map_insert epoch_number impl (dag_cache st) in
      let st := {| objects := objects st; dag_cache := m |} in
      if inserted then (Returned block_number it, st)
      else
        match m !! epoch_number with
        | Some p => (Returned block_number p, st)
        | None => (Thrown block_number (HashException "Could not get DAG"), st)
        end
  | Returned _ _ | Thrown _ _ => (t, st)
  end.

(** The threads of the process and its shared state; [schedule_step k]
    lets thread [k] take its next step. *)
Definition system : Type := list thread * process.

Definition schedule_step (sys : system) (k : nat) : system :=
  match fst sys !! k with
  | Some t =>
      let '(t', st') := thread_step t (snd sys) in
      (<[k := t']> (fst sys), st')
  | None => sys
  end.

Definition run (schedule : list nat) (sys : system) : system :=
  fold_left schedule_step schedule sys.

(** [get_dag(block_number, callback)] called by a single thread *)
Definition get_dag (block_number : Z) (callback : progress_callback_type)
    (st : process) : outcome nat * process :=
  match run [0; 0; 0]%nat ([Requested block_number callback], st) with
  | ([Returned _ p], st') => (Return p, st')
  | ([Thrown _ e], st') => (Throw e, st')
  | (_, st') => (Throw (HashException "Could not get DAG"), st')
  end.

(** [get_dag(file_path, callback)]: the body ignores both arguments and
    returns the default-constructed (empty) [shared_ptr]. *)
Definition get_dag_file (file : list byte) (callback : progress_callback_type)
    (st : process) : option nat * process :=
  (None, st).

(** The threads at the start: every call has been made and none has
    taken its first lock. *)
Definition requested (requests : list (Z * progress_callback_type)) : list thread :=
  map (fun r => Requested (fst r) (snd r)) requests.

(** Every pointer in the registry points to a constructed object. *)
Definition registry_ok (st : process) : Prop :=
  forall e p, dag_cache st !! e = Some p -> (p < length (objects st))%nat.

(** The invariant of the registry protocol. *)
Record registry_inv (sys : system) : Prop := {
  inv_registry : registry_ok (snd sys);
  inv_returned : forall k block_number p,
    fst sys !! k = Some (Returned block_number p) ->
    dag_cache (snd sys) !! (block_number / EPOCH_LENGTH) = Some p;
  inv_constructed : forall k block_number impl,
    fst sys !! k = Some (Constructed block_number impl) ->
    (impl < length (objects (snd sys)))%nat
    /\ forall e, dag_cache (snd sys) !! e <> Some impl;
  inv_distinct : forall k1 k2 bn1 bn2 impl,
    fst sys !! k1 = Some (Constructed bn1 impl) ->
    fst sys !! k2 = Some (Constructed bn2 impl) ->
    k1 = k2
}.

(** How far a call of [get_dag] has come: before the first lock,
    constructing, before the second lock, finished. *)
Definition stage (t : thread) : nat :=
  match t with
  | Requested _ _ => 0
  | Constructing _ _ => 1
  | Constructed _ _ => 2
  | Returned _ _ | Thrown _ _ => 3
  end.

(** The thread is the call [get_dag(block_number, callback)] at some
    stage; when it has thrown, it has thrown what the construction
    threw. *)
Definition call_of (block_number : Z) (callback : progress_callback_type)
    (t : thread) : Prop :=
  match t with
  | Requested bn cb | Constructing bn cb => bn = block_number /\ cb = callback
  | Constructed bn _ | Returned bn _ => bn = block_number
  | Thrown bn e =>
      bn = block_number /\ dag_new block_number callback = Throw e
  end.

(** *** The DAG file *)

(** The loops of [dag::impl_t::save] over the items of the cache and of
    the DAG: every word is written with [write(&j, sizeof(j))], then the
    callback is asked.  The bytes written so far stay in the file when
    the loop throws. *)
Fixpoint save_items (callback : progress_callback_type) (max_count : Z)
    (items : list (list Z)) (count : Z) (fs : list byte)
    : outcome Z * list byte :=
  match items with
  | [] => (Return count, fs)
  | i :: rest =>
      let fs := fs ++ flat_map (le_bytes 4) i in
      let count := count + 1 in
      if (count mod CALLBACK_FREQUENCY =? 0)
         && negb (callback count max_count dag_saving)
      then (Throw (HashException "DAG save cancelled."), fs)
      else save_items callback max_count rest count fs
  end.

(** The header that [dag::impl_t::save] writes before the items: the
    magic string without its NUL, one zero byte, the three version
    numbers, the epoch, the four offsets and one more zero byte. *)
Definition save_header (this : dag_t) : list byte :=
  let cache_begin := DAG_FILE_HEADER_SIZE in
  let cache_end := to_uint64 (cache_begin + cache_size (dag_cache_of this)) in
  let dag_begin := cache_end in
  let dag_end := to_uint64 (dag_begin + dag_size this) in
  DAG_MAGIC_BYTES ++ le_bytes 1 0
  ++ le_bytes 4 MAJOR_VERSION ++ le_bytes 4 REVISION ++ le_bytes 4 MINOR_VERSION
  ++ le_bytes 8 (dag_epoch this)
  ++ le_bytes 8 cache_begin ++ le_bytes 8 cache_end
  ++ le_bytes 8 dag_begin ++ le_bytes 8 dag_end
  ++ le_bytes 1 0.

(** [dag::impl_t::save(file_path, callback)]: the outcome and the
    content of the file. *)
Definition save (this : dag_t) (callback : progress_callback_type)
    : outcome unit * list byte :=
  let fs := save_header this in
  let max_count :=
    to_uint64 (cache_size (dag_cache_of this)
               + Z.of_nat (length (dag_data this))) in
  match save_items callback max_count (cache_data (dag_cache_of this)) 0 fs with
  | (Throw e, fs) => (Throw e, fs)
  | (Return count, fs) =>
      match save_items callback max_count (dag_data this) count fs with
      | (Throw e, fs) => (Throw e, fs)
      | (Return _, fs) => (Return tt, fs)
      end
  end.

(** The lambda [read] of [dag::impl_t::load] on the rest of the
    stream: the bytes read and the stream after them. *)
Definition read (count : nat) (fs : list byte) : list byte * list byte :=
  (take count fs, drop count fs).

(** An unsigned integer read into its object representation on a
    little-endian host. *)
Definition from_le (bytes : list byte) : Z :=
  fold_right (fun b acc => byte_to_Z b + 256 * acc) 0 bytes.

(** [std::vector::resize(count)] *)
Definition resize {A : Type} (count : nat) (d : A) (l : list A) : list A :=
  take count l ++ replicate (count - length l) d.

(** The loops [for (auto i : data)] of [cache_t::impl_t::load] and
    [dag::impl_t::load]: [i] is a copy of the element, so the 64 bytes
    read into it leave [data] as it is; the state is the counter and the
    stream. *)
Fixpoint load_items (callback : progress_callback_type)
    (phase : progress_callback_phase) (what_arg : string) (max_count : Z)
    (data : list (list Z)) (count : Z) (fs : list byte)
    : outcome (Z * list byte) :=
  match data with
  | [] => Return (count, fs)
  | i :: rest =>
      let fs := snd (read (Z.to_nat HASH_BYTES) fs) in
      let count := count + 1 in
      if (count mod CALLBACK_FREQUENCY =? 0)
         && negb (callback count max_count phase)
      then Throw (HashException what_arg)
      else load_items callback phase what_arg max_count rest count fs
  end.

(** [cache_t::impl_t::load(read, callback)] *)
Definition cache_load (this : cache_t) (fs : list byte)
    (callback : progress_callback_type) : outcome (cache_t * list byte) :=
  let cache_hash_count := cache_size this / HASH_BYTES in
  let data := resize (Z.to_nat cache_hash_count) [] (cache_data this) in
  st ← load_items callback cache_loading "Cache loading cancelled."
         cache_hash_count data 0 fs;
  Return ({| cache_epoch := cache_epoch this; cache_size := cache_size this;
             cache_data := data |}, snd st).

#[local] Instance byte_eq_dec : EqDecision byte := Byte.byte_eq_dec.

(** The first part of [dag::impl_t::load(file_path, callback)]: the
    size check, the header and its validation.  It returns the epoch,
    the two sizes and the stream behind the header. *)
Definition load_validate (file : list byte) : outcome (Z * Z * Z * list byte) :=
  let fs := file in
  let filesize := Z.of_nat (length file) in
  if filesize <? 1090516865 then Throw (HashException "DAG is corrupt")
  else
    let '(magic, fs) := read 11 fs in
    let '(_, fs) := read 1 fs in
    if negb (bool_decide (string_of_cstr (magic ++ [x00]) = DAG_MAGIC_BYTES))
    then Throw (HashException "Not a DAG file")
    else
      let '(major, fs) := read 4 fs in
      let '(revision, fs) := read 4 fs in
      let '(minor, fs) := read 4 fs in
      if negb (from_le major =? MAJOR_VERSION) || negb (from_le revision =? REVISION)
      then Throw (HashException "DAG version is invalid")
      else
        let '(epoch, fs) := read 8 fs in
        let '(cache_begin, fs) := read 8 fs in
        let '(cache_end, fs) := read 8 fs in
        let '(dag_begin, fs) := read 8 fs in
        let '(dag_end, fs) := read 8 fs in
        let '(_, fs) := read 1 fs in
        let epoch := from_le epoch in
        let cache_begin := from_le cache_begin in
        let cache_end := from_le cache_end in
        let dag_begin := from_le dag_begin in
        let dag_end := from_le dag_end in
        let cache_size :=
          get_cache_size (to_uint64 (to_uint64 (epoch * EPOCH_LENGTH) + 1)) in
        if (cache_end <=? cache_begin)
           || negb (cache_size =? to_uint64 (cache_end - cache_begin))
           || (filesize <=? cache_end)
        then Throw (HashException "DAG cache is corrupt")
        else
          let size :=
            get_full_size (to_uint64 (to_uint64 (epoch * EPOCH_LENGTH) + 1)) in
          if (dag_end <=? dag_begin)
             || negb (size =? to_uint64 (dag_end - dag_begin))
             || (filesize <? dag_end)
          then Throw (HashException "DAG is corrupt")
          else Return (epoch, cache_size, size, fs).

(** [dag::impl_t::load(file_path, callback)] on the object [this] *)
Definition load (this : dag_t) (file : list byte)
    (callback : progress_callback_type) : outcome dag_t :=
  hdr ← load_validate file;
  let '(epoch, cache_size, size, fs) := hdr in
  let cache := {| cache_epoch := epoch; cache_size := cache_size;
                  cache_data := cache_data (dag_cache_of this) |} in
  cfs ← cache_load cache fs callback;
  let dag_hash_count := size / HASH_BYTES in
  let data := resize (Z.to_nat dag_hash_count) [] (dag_data this) in
  _ ← load_items callback dag_loading "DAG loading cancelled."
        (Z.of_nat (length data)) data 0 (snd cfs);
  Return {| dag_epoch := epoch; dag_size := size;
            dag_cache_of := fst cfs; dag_data := data |}.

(** [dag::impl_t::impl_t(file_path, callback)]: the members are
    initialised with [max_epoch], 0, a cache built for block
    [max_epoch] from the empty seed under the default callback, and no
    data; then [load] runs. *)
Definition max_epoch : Z := 2 ^ 64 - 1.
Definition dag_new_from_file (file : list byte)
    (callback : progress_callback_type) : outcome dag_t :=
  cache ← cache_new max_epoch [] (fun _ _ _ => true);
  load {| dag_epoch := max_epoch; dag_size := 0;
          dag_cache_of := cache; dag_data := [] |} file callback.

(** A handle as the constructor leaves it: 16 words per item, and as
    many items as the sizes say, all within the 64-bit range. *)
Record well_formed (d : dag_t) : Prop := {
  wf_epoch : 0 <= dag_epoch d < 2 ^ 64;
  wf_cache_items : Forall (fun i => length i = 16%nat) (cache_data (dag_cache_of d));
  wf_dag_items : Forall (fun i => length i = 16%nat) (dag_data d);
  wf_cache_size :
    cache_size (dag_cache_of d)
    = HASH_BYTES * Z.of_nat (length (cache_data (dag_cache_of d)));
  wf_dag_size : dag_size d = HASH_BYTES * Z.of_nat (length (dag_data d));
  wf_range : cache_size (dag_cache_of d) + dag_size d < 2 ^ 63
}.

End Egihash.

(** Every registered pointer points to an object of the epoch it is
    registered for. *)
Definition registry_epochs (st : process) : Prop :=
  forall e p, dag_cache st !! e = Some p ->
    exists d, objects st !! p = Some d /\ dag_epoch d = e.

(** ** The model on concrete inputs *)

Definition always_continue : progress_callback_type := fun _ _ _ => true.
Definition always_stop : progress_callback_type := fun _ _ _ => false.

(** A cache of two items and the DAG of four items generated from it
    under the toy primitives. *)
Definition small_cache : cache_t :=
  {| cache_epoch := 0; cache_size := 128;
     cache_data := [map Z.of_nat (seq 1 16); map Z.of_nat (seq 17 16)] |}.

Definition small_dag_data : list (list Z) :=
  Eval vm_compute in
    match generate (K := toy_keccak) 256 (cache_data small_cache) always_continue with
    | Return data => data
    | Throw _ => []
    end.

Definition small_dag : dag_t :=
  {| dag_epoch := 0; dag_size := 256;
     dag_cache_of := small_cache; dag_data := small_dag_data |}.

Definition small_header : list Z := [1; 2; 3; 4; 5; 6; 7; 8].

Definition three_items : list (list Z) :=
  [map Z.of_nat (seq 1 16); map Z.of_nat (seq 17 16); map Z.of_nat (seq 33 16)].

Definition registered : process :=
  {| objects := [small_dag]; dag_cache := {[ 0 := 0%nat ]} |}.

(** The process at its start: no object, nothing registered. *)
Definition empty_process : process :=
  {| objects := []; dag_cache := ∅ |}.

(** * Properties *)

Section Properties.

Context {K : Keccak}.

Lemma get_cache_size_loop_eq x :
  get_cache_size_loop x =
  if is_prime (x / HASH_BYTES) then x
  else get_cache_size_loop (to_uint64 (x - 2 * HASH_BYTES)).
Proof.
  rewrite get_cache_size_loop_equation_1 at 1.
  destruct (Logic.inspect (is_prime (x / HASH_BYTES))) as [[] H].
  - rewrite get_cache_size_loop_clause_1_equation_1, H. reflexivity.
  - rewrite get_cache_size_loop_clause_1_equation_2, H. reflexivity.
Qed.

Lemma get_full_size_loop_eq x :
  get_full_size_loop x =
  if is_prime (x / MIX_BYTES) then x
  else get_full_size_loop (to_uint64 (x - 2 * MIX_BYTES)).
Proof.
  rewrite get_full_size_loop_equation_1 at 1.
  destruct (Logic.inspect (is_prime (x / MIX_BYTES))) as [[] H].
  - rewrite get_full_size_loop_clause_1_equation_1, H. reflexivity.
  - rewrite get_full_size_loop_clause_1_equation_2, H. reflexivity.
Qed.

(** ** Loops *)

Lemma fold_left_invariant {A B : Type} (P : A -> Prop) (f : A -> B -> A)
    (l : list B) (a : A) :
  P a -> (forall a b, P a -> b ∈ l -> P (f a b)) -> P (fold_left f l a).
Proof.
  revert a. induction l as [|b l IH]; intros a Ha Hf; simpl; [assumption|].
  apply IH.
  - apply Hf; [assumption|left].
  - intros a' b' Ha' Hb'. apply Hf; [assumption|right; assumption].
Qed.

Lemma fold_left_agree {A B : Type} (P : A -> Prop) (f g : A -> B -> A)
    (l : list B) (a : A) :
  P a ->
  (forall a b, P a -> b ∈ l -> f a b = g a b /\ P (f a b)) ->
  fold_left f l a = fold_left g l a.
Proof.
  revert a. induction l as [|b l IH]; intros a Ha Hfg; simpl; [reflexivity|].
  destruct (Hfg a b Ha) as [Heq HP]; [left|].
  rewrite <- Heq. apply IH; [assumption|].
  intros a' b' Ha' Hb'. apply Hfg; [assumption|right; assumption].
Qed.

(** ** Hashimoto: the arguments of [lookup] *)

Lemma hashimoto_access_unfold n s lookup mix lookups i :
  hashimoto_access n s lookup (mix, lookups) i =
  let p := page_index n s mix i in
  (fnv_into mix (lookup p ++ lookup (p + 1)), lookups ++ [p; p + 1]).
Proof.
  unfold hashimoto_access.
  change (seqZ 0 (MIX_BYTES / HASH_BYTES)) with [0; 1]. simpl.
  rewrite Z.add_0_r, <- app_assoc. reflexivity.
Qed.

Lemma page_index_bounds n s mix i :
  2 <= n ->
  let p := page_index n s mix i in
  0 <= p /\ p + 1 <= n - 1 /\ p mod 2 = 0.
Proof.
  intros Hn. unfold page_index.
  change (MIX_BYTES / HASH_BYTES) with 2.
  set (f := fnv _ _).
  assert (0 < n / 2) by (apply Z.div_str_pos; lia).
  pose proof (Z.mod_pos_bound f (n / 2) ltac:(lia)).
  pose proof (Z.mul_div_le n 2 ltac:(lia)).
  cbv zeta. repeat split; try lia.
  apply Z.mod_mul; lia.
Qed.

Lemma pages_ok_Forall n lookups :
  pages_ok n lookups -> Forall (fun x => 0 <= x < n) lookups.
Proof.
  intros (ps & -> & Hps). induction Hps as [|p ps Hp _ IH]; simpl.
  - constructor.
  - repeat constructor; try lia. exact IH.
Qed.

Lemma hashimoto_lookups_pages header nonce full_size lookup :
  2 <= full_size / HASH_BYTES ->
  pages_ok (full_size / HASH_BYTES)
    (hashimoto_lookups header nonce full_size lookup).
Proof.
  intros Hn. unfold hashimoto_lookups, hashimoto_mix. cbn [snd].
  apply (fold_left_invariant
           (fun st => pages_ok (full_size / HASH_BYTES) (snd st))).
  - exists []. split; [reflexivity|constructor].
  - intros [mix lookups] i (ps & Hl & Hps) _. cbn [snd] in Hl. subst lookups.
    rewrite hashimoto_access_unfold. cbv zeta. cbn [snd].
    exists (ps ++ [page_index (full_size / HASH_BYTES)
                     (sha3_512 (header_seed header nonce)) mix i]).
    split.
    + rewrite flat_map_app. reflexivity.
    + apply Forall_app. split; [assumption|].
      constructor; [|constructor].
      apply page_index_bounds. assumption.
Qed.

(** C10: with [n = full_size / HASH_BYTES >= 2], the arguments
    [hashimoto] passes to [lookup] are 64 pairs [p; p + 1] where
    [p = fnv(i ^ s[0], mix[i % w]) % (n / 2) * 2] is even and
    [p + 1 <= n - 1]; every argument is below [n], and
    [hashimoto_full] on a DAG of [n] items finds an item at every index
    it reads. *)
Theorem hashimoto_lookups_in_bounds
    (header : list Z) (nonce full_size : Z) (lookup : Z -> list Z) :
  2 <= full_size / HASH_BYTES ->
  let n := full_size / HASH_BYTES in
  let lookups := hashimoto_lookups header nonce full_size lookup in
  (exists ps : list Z,
      lookups = flat_map (fun p => [p; p + 1]) ps
      /\ Forall (fun p => 0 <= p /\ p + 1 <= n - 1 /\ p mod 2 = 0) ps)
  /\ Forall (fun x => 0 <= x < n) lookups
  /\ forall dataset : dag_t,
       Z.of_nat (length (dag_data dataset)) = n ->
       Forall (fun x => is_Some (dag_data dataset !! Z.to_nat x))
         (hashimoto_lookups header nonce full_size
            (fun x => dag_data dataset !!! Z.to_nat x)).
Proof.
  intros Hn n lookups.
  split; [|split].
  - apply hashimoto_lookups_pages. assumption.
  - apply pages_ok_Forall, hashimoto_lookups_pages. assumption.
  - intros dataset Hlen.
    eapply Forall_impl.
    + apply pages_ok_Forall, hashimoto_lookups_pages. exact Hn.
    + intros x Hx. cbv beta in Hx. apply lookup_lt_is_Some. lia.
Qed.

(** ** Light and full evaluation *)

Lemma hashimoto_mix_agree header nonce full_size lookup1 lookup2 :
  2 <= full_size / HASH_BYTES ->
  (forall x, 0 <= x < full_size / HASH_BYTES -> lookup1 x = lookup2 x) ->
  hashimoto_mix header nonce full_size lookup1
  = hashimoto_mix header nonce full_size lookup2.
Proof.
  intros Hn Hagree. unfold hashimoto_mix.
  set (s := sha3_512 (header_seed header nonce)).
  rewrite (fold_left_agree (fun _ => True)
             (hashimoto_access (full_size / HASH_BYTES) s lookup1)
             (hashimoto_access (full_size / HASH_BYTES) s lookup2));
    [reflexivity|exact I|].
  intros [mix lookups] i _ _. split; [|exact I].
  rewrite !hashimoto_access_unfold. cbv zeta.
  pose proof (page_index_bounds (full_size / HASH_BYTES) s mix i Hn) as Hp.
  cbv zeta in Hp.
  rewrite !Hagree by lia. reflexivity.
Qed.

Lemma hashimoto_agree header nonce full_size lookup1 lookup2 :
  2 <= full_size / HASH_BYTES ->
  (forall x, 0 <= x < full_size / HASH_BYTES -> lookup1 x = lookup2 x) ->
  hashimoto header nonce full_size lookup1
  = hashimoto header nonce full_size lookup2.
Proof.
  intros Hn Hagree. unfold hashimoto.
  rewrite (hashimoto_mix_agree _ _ _ lookup1 lookup2 Hn Hagree).
  reflexivity.
Qed.

(** [generate] appends the items [calc_dataset_item cache i] in order. *)
Lemma generate_loop cache n callback count i data data' :
  for_loop count i (generate_item cache n callback) data = Return data' ->
  data' = data ++ map (fun k => calc_dataset_item cache (Z.of_nat k)) (seq i count).
Proof.
  revert i data. induction count as [|count IH]; intros i data H;
    cbn [for_loop] in H.
  - injection H as <-. simpl. rewrite app_nil_r. reflexivity.
  - destruct (generate_item cache n callback i data) as [d|e] eqn:E;
      [|discriminate].
    change (for_loop count (S i) (generate_item cache n callback) d
            = Return data') in H.
    unfold generate_item in E.
    match type of E with
    | context [if ?b then _ else _] => destruct b
    end; [discriminate|].
    injection E as <-.
    apply IH in H. rewrite H, <- app_assoc. reflexivity.
Qed.

Lemma generate_data size cache callback data :
  generate size cache callback = Return data ->
  data = map (fun k => calc_dataset_item cache (Z.of_nat k))
           (seq 0 (Z.to_nat (size / HASH_BYTES))).
Proof. intros H. apply generate_loop in H. exact H. Qed.

Lemma generate_lookup size cache callback data x :
  generate size cache callback = Return data ->
  0 <= x < size / HASH_BYTES ->
  data !!! Z.to_nat x = calc_dataset_item cache x.
Proof.
  intros H Hx. apply generate_data in H. subst data.
  apply list_lookup_total_correct.
  rewrite list_lookup_fmap, lookup_seq_lt by lia.
  simpl. rewrite Z2Nat.id by lia. reflexivity.
Qed.

(** C3: when the DAG of a handle is what [generate] built from the
    cache [c] for [full_size] bytes (at least one page of two items),
    [hashimoto_full] and [hashimoto_light] return the same
    (value, mixhash) pair for every header and every nonce. *)
Theorem hashimoto_light_full_agree
    (full_size : Z) (c : cache_t) (dataset : dag_t)
    (callback : progress_callback_type) (header : list Z) (nonce : Z) :
  2 <= full_size / HASH_BYTES ->
  generate full_size (cache_data c) callback = Return (dag_data dataset) ->
  hashimoto_full full_size dataset header nonce
  = hashimoto_light full_size c header nonce.
Proof.
  intros Hn Hgen. unfold hashimoto_full, hashimoto_light.
  apply hashimoto_agree; [assumption|].
  intros x Hx. eapply generate_lookup; eassumption.
Qed.

(** ** Lengths of the word and byte views *)

Lemma deserialize_length hash_size data :
  length (deserialize hash_size data) = (hash_size / 4)%nat.
Proof. unfold deserialize. rewrite length_map, length_seq. reflexivity. Qed.

Lemma sha3_512_length deserialized : length (sha3_512 deserialized) = 16%nat.
Proof. apply deserialize_length. Qed.

Lemma sha3_256_length deserialized : length (sha3_256 deserialized) = 8%nat.
Proof. apply deserialize_length. Qed.

Lemma hex_digits_length fuel u acc :
  (length (hex_digits fuel u acc) <= fuel + length acc)%nat.
Proof.
  revert u acc. induction fuel as [|fuel IH]; intros u acc; simpl; [lia|].
  destruct (u =? 0); [lia|].
  specialize (IH (u / 16) (u mod 16 :: acc)). simpl in IH. lia.
Qed.

Lemma hex_pairs_length encoded :
  (2 * length (hex_pairs encoded) <= length encoded + 1)%nat.
Proof.
  induction encoded as [encoded IH] using (induction_ltof1 _ (@length Z)).
  unfold ltof in IH.
  destruct encoded as [|d1 [|d2 rest]]; cbn [hex_pairs length]; try lia.
  specialize (IH rest ltac:(simpl; lia)). lia.
Qed.

Lemma encode_int_length x : (length (encode_int x) <= 4)%nat.
Proof.
  unfold encode_int. destruct (x =? 0); [simpl; lia|].
  cbv zeta.
  match goal with |- (length (hex_pairs ?e) <= 4)%nat =>
    pose proof (hex_pairs_length e) as Hp;
    assert (He : (length e <= 8)%nat); [|lia]
  end.
  rewrite length_app, length_replicate.
  assert (Hh : (length (hex_str x) <= 8)%nat).
  { unfold hex_str. destruct (to_uint32 x =? 0); [simpl; lia|].
    etransitivity; [apply hex_digits_length|]. simpl. lia. }
  pose proof (Nat.mod_upper_bound (length (hex_str x)) 2 ltac:(lia)).
  pose proof (Nat.div_mod_eq (length (hex_str x)) 2).
  generalize dependent (length (hex_str x) mod 2)%nat.
  generalize dependent (length (hex_str x) / 2)%nat.
  intros. lia.
Qed.

Lemma serialize_length h : length (serialize h) = (4 * length h)%nat.
Proof.
  unfold serialize. induction h as [|w h IH]; [reflexivity|].
  cbn [flat_map]. rewrite length_app, IH. unfold zpad.
  rewrite length_app, length_replicate.
  pose proof (encode_int_length w). simpl. lia.
Qed.

Lemma object_bytes_length v : length (object_bytes v) = (4 * length v)%nat.
Proof.
  unfold object_bytes. induction v as [|w v IH]; [reflexivity|].
  cbn [flat_map]. rewrite length_app, IH. simpl. lia.
Qed.

Lemma fnv_into_length mix other : length (fnv_into mix other) = length mix.
Proof.
  revert other. induction mix as [|k mix IH]; intros [|l other]; simpl;
    try reflexivity.
  rewrite IH. reflexivity.
Qed.

Lemma hashimoto_mix_length header nonce full_size lookup :
  length (fst (snd (hashimoto_mix header nonce full_size lookup))) = 32%nat.
Proof.
  unfold hashimoto_mix. cbn [snd].
  apply (fold_left_invariant (fun st => length (fst st) = 32%nat)).
  - change (seqZ 0 (MIX_BYTES / HASH_BYTES)) with [0; 1].
    cbn [fold_left fst app].
    rewrite length_app, sha3_512_length. reflexivity.
  - intros [mix lookups] i Hlen _. rewrite hashimoto_access_unfold.
    cbv zeta. cbn [fst] in *. rewrite fnv_into_length. assumption.
Qed.

Lemma hashimoto_mix_seed header nonce full_size lookup :
  fst (hashimoto_mix header nonce full_size lookup)
  = sha3_512 (header_seed header nonce).
Proof. unfold hashimoto_mix. cbn [fst]. reflexivity. Qed.

Lemma memcpy_h256 (src : list byte) :
  memcpy (replicate 32 x00) src 8 = take 8 src ++ replicate 24 x00.
Proof. reflexivity. Qed.

(** C1: the [value] that [hashimoto] returns is computed from
    [sha3_256(s)] alone, the digest of the 64-byte serialization of
    [s]; [cmix] is not part of the hashed input.  Of the eight words
    of that digest and of [cmix], [memcpy] copies eight bytes each
    (the first two words), and the other 24 bytes of [value] and of
    [mixhash] stay zero. *)
Theorem hashimoto_value_hashes_seed_only
    (header : list Z) (nonce full_size : Z) (lookup : Z -> list Z) :
  let s := sha3_512 (header_seed header nonce) in
  let mix := fst (snd (hashimoto_mix header nonce full_size lookup)) in
  let r := hashimoto header nonce full_size lookup in
  length (serialize s) = 64%nat
  /\ value r
     = take 8 (object_bytes (deserialize 32 (sha3_256_t (serialize s))))
       ++ replicate 24 x00
  /\ length (compress_mix mix) = 8%nat
  /\ mixhash r = take 8 (object_bytes (compress_mix mix)) ++ replicate 24 x00.
Proof.
  intros s mix r.
  assert (Hc : length (compress_mix mix) = 8%nat).
  { unfold compress_mix. rewrite length_map, length_seq.
    unfold mix. rewrite hashimoto_mix_length. reflexivity. }
  split; [|split; [|split]].
  - rewrite serialize_length. unfold s. rewrite sha3_512_length. reflexivity.
  - unfold r, hashimoto.
    destruct (hashimoto_mix header nonce full_size lookup) as [s' [mix' l]] eqn:E.
    assert (s' = s) as ->.
    { pose proof (hashimoto_mix_seed header nonce full_size lookup) as Hs.
      rewrite E in Hs. exact Hs. }
    cbn [value]. rewrite sha3_256_length.
    change (Nat.min 32 8) with 8%nat.
    apply memcpy_h256.
  - exact Hc.
  - unfold r, hashimoto. unfold mix in *.
    destruct (hashimoto_mix header nonce full_size lookup) as [s' [mix' l]].
    cbn [fst snd mixhash] in *. rewrite Hc.
    change (Nat.min 32 8) with 8%nat.
    apply memcpy_h256.
Qed.

(** ** Seed hash *)

(** C4: [get_seedhash] starts from [std::string(epoch0_seedhash)],
    which ends at the first NUL of the array and is the empty string,
    and applies [block_number / EPOCH_LENGTH] times the digest followed
    by the word codec: for block 0 the result has no bytes, and for the
    first block of epoch 1 it is the re-serialized word view of the
    digest of the empty string. *)
Theorem get_seedhash_starts_from_empty_string :
  string_of_cstr epoch0_seedhash = []
  /\ (forall block_number,
        get_seedhash block_number
        = Z.iter (block_number / EPOCH_LENGTH)
            (fun s => serialize (deserialize 32 (sha3_256_t s))) [])
  /\ get_seedhash 0 = []
  /\ get_seedhash EPOCH_LENGTH = serialize (deserialize 32 (sha3_256_t [])).
Proof.
  split; [reflexivity|]. split; [|split; reflexivity].
  intros block_number. unfold get_seedhash. reflexivity.
Qed.

(** ** Word codec and nonce *)

Lemma header_seed_unfold header nonce :
  header_seed header nonce
  = header ++ map (nonce_byte nonce) [7; 6; 5; 4; 3; 2; 1; 0].
Proof.
  unfold header_seed. change (seqZ 0 8) with [0; 1; 2; 3; 4; 5; 6; 7].
  cbn [fold_left map]. rewrite <- !app_assoc. reflexivity.
Qed.

(** C6: [deserialize] reads the four bytes of a word most significant
    first ([b0 << 24 | b1 << 16 | b2 << 8 | b3]), and [hashimoto]
    appends the nonce to the header words as eight more words, one per
    byte of the nonce from byte 7 down to byte 0, so that the hashed
    seed input has 64 bytes for an 8-word header.  [serialize] pads a
    word on the right, so the two directions of the codec are not
    inverse. *)
Theorem word_codec_most_significant_first (header : list Z) (nonce : Z) :
  deserialize 32 (x01 :: replicate 31 x00) = 16777216 :: replicate 7 0
  /\ deserialize 32 ([x12; x34; x56; x78] ++ replicate 28 x00)
     = 0x12345678 :: replicate 7 0
  /\ header_seed header nonce
     = header ++ map (nonce_byte nonce) [7; 6; 5; 4; 3; 2; 1; 0]
  /\ length (serialize (header_seed header nonce))
     = (4 * length header + 32)%nat
  /\ serialize (header_seed (replicate 8 0) 1)
     = replicate 60 x00 ++ [x01; x00; x00; x00]
  /\ deserialize 32 (serialize (0x41 :: replicate 7 0))
     = 0x41000000 :: replicate 7 0.
Proof.
  split; [reflexivity|]. split; [reflexivity|].
  split; [apply header_seed_unfold|].
  split.
  - rewrite serialize_length, header_seed_unfold, length_app. simpl. lia.
  - split; reflexivity.
Qed.

(** ** Cache strengthening *)

Lemma mkcache_step_unfold n i j data :
  mkcache_step n i j data =
  let v := Z.to_nat (to_uint64 ((data !!! j) !!! 0%nat) mod Z.of_nat n) in
  let ui := Z.to_nat (to_uint64 (to_uint64 (Z.of_nat j - 1) + Z.of_nat n)
                      mod Z.of_nat n) in
  let u := imap (fun count k => Z.lxor k ((data !!! v) !!! count)) (data !!! ui) in
  <[i := sha3_512 u]> (<[ui := u]> data).
Proof. reflexivity. Qed.

Lemma previous_index (n j : nat) :
  (0 < j < n)%nat -> Z.of_nat n < 2 ^ 63 ->
  Z.to_nat (to_uint64 (to_uint64 (Z.of_nat j - 1) + Z.of_nat n) mod Z.of_nat n)
  = (j - 1)%nat.
Proof.
  intros Hj Hn. unfold to_uint64.
  rewrite (Z.mod_small (Z.of_nat j - 1)) by lia.
  rewrite (Z.mod_small (Z.of_nat j - 1 + Z.of_nat n)) by lia.
  replace (Z.of_nat j - 1 + Z.of_nat n)
    with (Z.of_nat j - 1 + 1 * Z.of_nat n) by lia.
  rewrite Z.mod_add by lia. rewrite Z.mod_small by lia. lia.
Qed.

(** C2: in round [i], the step for item [j > i] XORs item [v] into
    item [j - 1] in place, stores the hash of the XORed words into
    item [i] (the round index), and leaves item [j] as it was. *)
Theorem mkcache_step_stores_at_round_index
    (i j : nat) (data : list (list Z)) :
  let n := length data in
  (i < j < n)%nat -> Z.of_nat n < 2 ^ 63 ->
  let v := Z.to_nat (to_uint64 ((data !!! j) !!! 0%nat) mod Z.of_nat n) in
  let u := imap (fun count k => Z.lxor k ((data !!! v) !!! count))
             (data !!! (j - 1)%nat) in
  let data' := mkcache_step n i j data in
  data' !! j = data !! j
  /\ data' !! i = Some (sha3_512 u)
  /\ ((i < j - 1)%nat -> data' !! (j - 1)%nat = Some u).
Proof.
  intros n Hij Hn v u data'. unfold data'.
  rewrite mkcache_step_unfold. cbv zeta.
  rewrite previous_index by (fold n; lia). fold v. fold u.
  split; [|split].
  - rewrite !list_lookup_insert_ne by lia. reflexivity.
  - apply list_lookup_insert_eq. rewrite length_insert. fold n. lia.
  - intros Hlt. rewrite list_lookup_insert_ne by lia.
    apply list_lookup_insert_eq. fold n. lia.
Qed.

(** ** Sizes *)

Lemma is_prime_loop_true fuel i x :
  is_prime_loop fuel i x = true ->
  Z.sqrt x - i + 1 <= Z.of_nat fuel ->
  forall d, i <= d <= Z.sqrt x -> x mod d <> 0.
Proof.
  revert i. induction fuel as [|fuel IH]; intros i H Hfuel d Hd.
  - lia.
  - cbn [is_prime_loop] in H.
    destruct (Z.leb_spec i (Z.sqrt x)); [|lia].
    destruct (Z.eqb_spec (x mod i) 0); [discriminate|].
    destruct (Z.eq_dec d i) as [->|]; [assumption|].
    apply (IH (i + 1)); [assumption|lia|lia].
Qed.

Lemma is_prime_loop_false fuel i x :
  is_prime_loop fuel i x = false ->
  exists d, i <= d <= Z.sqrt x /\ x mod d = 0.
Proof.
  revert i. induction fuel as [|fuel IH]; intros i H.
  - discriminate.
  - cbn [is_prime_loop] in H.
    destruct (Z.leb_spec i (Z.sqrt x)); [|discriminate].
    destruct (Z.eqb_spec (x mod i) 0).
    + exists i. split; [lia|assumption].
    + destruct (IH (i + 1) H) as (d & Hd & Hmod).
      exists d. split; [lia|assumption].
Qed.

Lemma is_prime_true_prime x : 2 <= x -> is_prime x = true -> Z.prime x.
Proof.
  intros Hx H. unfold is_prime in H.
  pose proof (Z.sqrt_nonneg x) as Hs.
  pose proof (is_prime_loop_true _ _ _ H ltac:(lia)) as Hnd.
  split; [lia|].
  intros n Hn [m Hm].
  assert (Hmpos : 1 < m) by nia.
  assert (Hcase : n <= Z.sqrt x \/ m <= Z.sqrt x).
  { destruct (Z_le_gt_dec n m).
    - left. apply Z.sqrt_le_square; [lia|lia|]. nia.
    - right. apply Z.sqrt_le_square; [lia|lia|]. nia. }
  destruct Hcase as [Hc|Hc].
  - apply (Hnd n); [lia|]. subst x. apply Z.mod_mul. lia.
  - apply (Hnd m); [lia|]. subst x. rewrite Z.mul_comm. apply Z.mod_mul. lia.
Qed.

Lemma is_prime_false_not_prime x : is_prime x = false -> ~ Z.prime x.
Proof.
  intros H [Hx Hp]. unfold is_prime in H.
  destruct (is_prime_loop_false _ _ _ H) as (d & Hd & Hmod).
  assert (Z.sqrt x < x) by (apply Z.sqrt_lt_lin; lia).
  apply (Hp d); [lia|].
  apply Z.mod_divide; [lia|assumption].
Qed.

(** What both size loops compute from their start value [start]: they
    stop at the first [start - k * (2 * unit)] whose quotient by [unit]
    passes [is_prime]. *)
Lemma size_loop_spec (unit : Z) (f : Z -> Z) :
  0 < unit ->
  (forall x, f x = if is_prime (x / unit) then x
                   else f (to_uint64 (x - 2 * unit))) ->
  forall start, 0 <= start -> start < 2 ^ 64 ->
    is_prime (f start / unit) = true
    /\ exists k, 0 <= k /\ f start = start - k * (2 * unit)
         /\ forall k', 0 <= k' < k ->
              is_prime ((start - k' * (2 * unit)) / unit) = false.
Proof.
  intros Hunit Hf start Hstart. pattern start.
  apply Z_lt_induction; [|assumption].
  clear start Hstart. intros start IH Hlt.
  rewrite Hf. destruct (is_prime (start / unit)) eqn:Hp.
  - split; [assumption|]. exists 0. split; [lia|]. split; [lia|]. intros; lia.
  - pose proof (is_prime_false_ge _ Hp) as Hge.
    pose proof (Z.mul_div_le start unit Hunit) as Hle.
    assert (Hbig : 4 * unit <= start) by nia.
    assert (Hw : to_uint64 (start - 2 * unit) = start - 2 * unit).
    { unfold to_uint64. apply Z.mod_small. lia. }
    rewrite Hw.
    destruct (IH (start - 2 * unit) ltac:(lia) ltac:(lia))
      as (Hprime & k & Hk & Heq & Hsmaller).
    split; [assumption|].
    exists (k + 1). split; [lia|]. split; [lia|].
    intros k' Hk'. destruct (Z.eq_dec k' 0) as [->|Hne].
    + rewrite Z.mul_0_l, Z.sub_0_r. assumption.
    + specialize (Hsmaller (k' - 1) ltac:(lia)).
      replace (start - k' * (2 * unit))
        with (start - 2 * unit - (k' - 1) * (2 * unit)) by lia.
      assumption.
Qed.

(** The result has an odd quotient of at least 3 when the start has. *)
Lemma size_loop_quotient (unit start r k : Z) :
  0 < unit ->
  start mod (2 * unit) = unit -> 3 * unit <= start ->
  r = start - k * (2 * unit) -> 0 <= k ->
  (forall k', 0 <= k' < k ->
     is_prime ((start - k' * (2 * unit)) / unit) = false) ->
  3 <= r / unit.
Proof.
  intros Hunit Hmod Hstart -> Hk Hsmaller.
  pose proof (Z.div_mod start (2 * unit) ltac:(lia)) as Hdm.
  rewrite Hmod in Hdm. set (q := start / (2 * unit)) in *.
  assert (Hq : 1 <= q) by nia.
  assert (Hquot : forall j, (start - j * (2 * unit)) / unit = 2 * (q - j) + 1).
  { intros j. replace (start - j * (2 * unit))
      with (unit * (2 * (q - j) + 1)) by lia.
    rewrite Z.mul_comm. apply Z.div_mul. lia. }
  rewrite Hquot.
  destruct (Z_lt_le_dec (q - 1) k) as [Hlt|]; [|lia].
  specialize (Hsmaller (q - 1) ltac:(lia)).
  rewrite Hquot in Hsmaller.
  replace (2 * (q - (q - 1)) + 1) with 3 in Hsmaller by lia.
  discriminate.
Qed.

Lemma cache_start_shape e :
  let start := to_uint64 (to_uint64 (CACHE_BYTES_INIT
                 + to_uint64 (CACHE_BYTES_GROWTH * e)) - HASH_BYTES) in
  0 <= start < 2 ^ 64
  /\ start mod (2 * HASH_BYTES) = HASH_BYTES /\ 3 * HASH_BYTES <= start.
Proof.
  unfold to_uint64, CACHE_BYTES_INIT, CACHE_BYTES_GROWTH, HASH_BYTES.
  set (S := (2 ^ 24 + (2 ^ 17 * e) mod 2 ^ 64) mod 2 ^ 64).
  assert (HS : S mod 2 ^ 17 = 0).
  { assert (Hdiv : (2 ^ 17 | 2 ^ 64)) by (exists (2 ^ 47); reflexivity).
    unfold S. rewrite (Z.mod_mod_divide _ _ _ Hdiv).
    rewrite Z.add_mod by lia. rewrite (Z.mod_mod_divide _ _ _ Hdiv).
    rewrite Z.mul_comm, Z.mod_mul by lia. reflexivity. }
  pose proof (Z.mod_pos_bound (2 ^ 24 + (2 ^ 17 * e) mod 2 ^ 64) (2 ^ 64)
                ltac:(lia)) as HSb. fold S in HSb.
  pose proof (Z.div_mod S (2 ^ 17) ltac:(lia)) as Hdm. rewrite HS in Hdm.
  set (m := S / 2 ^ 17) in *.
  pose proof (Z.mod_pos_bound (S - 64) (2 ^ 64) ltac:(lia)).
  cbv zeta. split; [assumption|].
  destruct (Z.eq_dec m 0) as [Hm|Hm].
  - replace S with 0 by lia.
    change ((0 - 64) mod 2 ^ 64) with (2 ^ 64 - 64).
    split; [reflexivity|lia].
  - rewrite (Z.mod_small (S - 64)) by lia.
    split; [|lia].
    replace (S - 64) with (64 + (1024 * m - 1) * (2 * 64)) by lia.
    rewrite Z.mod_add by lia. reflexivity.
Qed.

Lemma full_start_shape e :
  let start := to_uint64 (to_uint64 (DATASET_BYTES_INIT
                 + to_uint64 (DATASET_BYTES_GROWTH * e)) - MIX_BYTES) in
  0 <= start < 2 ^ 64
  /\ start mod (2 * MIX_BYTES) = MIX_BYTES /\ 3 * MIX_BYTES <= start.
Proof.
  unfold to_uint64, DATASET_BYTES_INIT, DATASET_BYTES_GROWTH, MIX_BYTES.
  set (S := (2 ^ 30 + (2 ^ 23 * e) mod 2 ^ 64) mod 2 ^ 64).
  assert (HS : S mod 2 ^ 23 = 0).
  { assert (Hdiv : (2 ^ 23 | 2 ^ 64)) by (exists (2 ^ 41); reflexivity).
    unfold S. rewrite (Z.mod_mod_divide _ _ _ Hdiv).
    rewrite Z.add_mod by lia. rewrite (Z.mod_mod_divide _ _ _ Hdiv).
    rewrite Z.mul_comm, Z.mod_mul by lia. reflexivity. }
  pose proof (Z.mod_pos_bound (2 ^ 30 + (2 ^ 23 * e) mod 2 ^ 64) (2 ^ 64)
                ltac:(lia)) as HSb. fold S in HSb.
  pose proof (Z.div_mod S (2 ^ 23) ltac:(lia)) as Hdm. rewrite HS in Hdm.
  set (m := S / 2 ^ 23) in *.
  pose proof (Z.mod_pos_bound (S - 128) (2 ^ 64) ltac:(lia)).
  cbv zeta. split; [assumption|].
  destruct (Z.eq_dec m 0) as [Hm|Hm].
  - replace S with 0 by lia.
    change ((0 - 128) mod 2 ^ 64) with (2 ^ 64 - 128).
    split; [reflexivity|lia].
  - rewrite (Z.mod_small (S - 128)) by lia.
    split; [|lia].
    replace (S - 128) with (128 + (32768 * m - 1) * (2 * 128)) by lia.
    rewrite Z.mod_add by lia. reflexivity.
Qed.

Lemma get_cache_size_prime block_number :
  let start := to_uint64 (to_uint64 (CACHE_BYTES_INIT
                 + to_uint64 (CACHE_BYTES_GROWTH * (block_number / EPOCH_LENGTH)))
               - HASH_BYTES) in
  largest_prime_size HASH_BYTES start (get_cache_size block_number).
Proof.
  intros start. unfold get_cache_size. fold start.
  destruct (cache_start_shape (block_number / EPOCH_LENGTH))
    as (Hrange & Hmod & Hge). fold start in Hrange, Hmod, Hge.
  destruct (size_loop_spec HASH_BYTES get_cache_size_loop ltac:(reflexivity)
              get_cache_size_loop_eq start ltac:(lia) ltac:(lia))
    as (Hp & k & Hk & Heq & Hsmaller).
  split.
  - apply is_prime_true_prime; [|assumption].
    pose proof (size_loop_quotient HASH_BYTES start _ k ltac:(reflexivity)
                  Hmod Hge Heq Hk Hsmaller). lia.
  - exists k. split; [assumption|]. split; [assumption|].
    intros k' Hk'. apply is_prime_false_not_prime, Hsmaller, Hk'.
Qed.

Lemma get_full_size_prime block_number :
  let start := to_uint64 (to_uint64 (DATASET_BYTES_INIT
                 + to_uint64 (DATASET_BYTES_GROWTH * (block_number / EPOCH_LENGTH)))
               - MIX_BYTES) in
  largest_prime_size MIX_BYTES start (get_full_size block_number).
Proof.
  intros start. unfold get_full_size. fold start.
  destruct (full_start_shape (block_number / EPOCH_LENGTH))
    as (Hrange & Hmod & Hge). fold start in Hrange, Hmod, Hge.
  destruct (size_loop_spec MIX_BYTES get_full_size_loop ltac:(reflexivity)
              get_full_size_loop_eq start ltac:(lia) ltac:(lia))
    as (Hp & k & Hk & Heq & Hsmaller).
  split.
  - apply is_prime_true_prime; [|assumption].
    pose proof (size_loop_quotient MIX_BYTES start _ k ltac:(reflexivity)
                  Hmod Hge Heq Hk Hsmaller). lia.
  - exists k. split; [assumption|]. split; [assumption|].
    intros k' Hk'. apply is_prime_false_not_prime, Hsmaller, Hk'.
Qed.

Lemma no_wrap_start (init growth unit e : Z) :
  0 <= e -> 0 <= growth -> 0 < unit <= init ->
  init + growth * e <= 2 ^ 64 ->
  to_uint64 (to_uint64 (init + to_uint64 (growth * e)) - unit)
  = init + growth * e - unit.
Proof.
  intros He Hg Hu Hle. unfold to_uint64.
  assert (0 <= growth * e) by nia.
  rewrite (Z.mod_small (growth * e)) by lia.
  destruct (Z.eq_dec (init + growth * e) (2 ^ 64)) as [->|Hne].
  - rewrite Z.mod_same by lia.
    replace (0 - unit) with (2 ^ 64 - unit + (-1) * 2 ^ 64) by lia.
    rewrite Z.mod_add by lia. apply Z.mod_small. lia.
  - rewrite (Z.mod_small (init + growth * e)) by lia.
    apply Z.mod_small. lia.
Qed.

Lemma get_cache_size_epoch0 : get_cache_size 0 = 16776896.
Proof.
  unfold get_cache_size.
  change (to_uint64 _) with 16777152.
  repeat size_loop_step get_cache_size_loop_eq.
  reflexivity.
Qed.

Lemma get_full_size_epoch0 : get_full_size 0 = 1073739904.
Proof.
  unfold get_full_size.
  change (to_uint64 _) with 1073741696.
  repeat size_loop_step get_full_size_loop_eq.
  reflexivity.
Qed.

(** C5: for every block number, [get_cache_size / HASH_BYTES] and
    [get_full_size / MIX_BYTES] are prime; when the 64-bit sum
    [CACHE_BYTES_INIT + CACHE_BYTES_GROWTH * e] (for the DAG
    [DATASET_BYTES_INIT + DATASET_BYTES_GROWTH * e]) does not wrap
    around, the size is the largest value of the form
    [init + growth * e - unit - k * 2 * unit] with a prime quotient;
    at epoch 0 the sizes are 16776896 and 1073739904 bytes. *)
Theorem sizes_are_largest_prime_sizes (block_number : Z) :
  0 <= block_number < 2 ^ 64 ->
  let e := block_number / EPOCH_LENGTH in
  Z.prime (get_cache_size block_number / HASH_BYTES)
  /\ Z.prime (get_full_size block_number / MIX_BYTES)
  /\ (CACHE_BYTES_INIT + CACHE_BYTES_GROWTH * e <= 2 ^ 64 ->
      largest_prime_size HASH_BYTES
        (CACHE_BYTES_INIT + CACHE_BYTES_GROWTH * e - HASH_BYTES)
        (get_cache_size block_number))
  /\ (DATASET_BYTES_INIT + DATASET_BYTES_GROWTH * e <= 2 ^ 64 ->
      largest_prime_size MIX_BYTES
        (DATASET_BYTES_INIT + DATASET_BYTES_GROWTH * e - MIX_BYTES)
        (get_full_size block_number))
  /\ get_cache_size 0 = 16776896
  /\ get_full_size 0 = 1073739904.
Proof.
  intros Hbn e.
  assert (He : 0 <= e) by (apply Z.div_pos; [lia|reflexivity]).
  pose proof (get_cache_size_prime block_number) as Hc.
  pose proof (get_full_size_prime block_number) as Hf.
  cbv zeta in Hc, Hf. fold e in Hc, Hf.
  split; [apply Hc|]. split; [apply Hf|].
  split; [|split; [|split]].
  - intros Hle. rewrite no_wrap_start in Hc;
      [exact Hc|assumption|discriminate|split; [reflexivity|discriminate]
      |assumption].
  - intros Hle. rewrite no_wrap_start in Hf;
      [exact Hf|assumption|discriminate|split; [reflexivity|discriminate]
      |assumption].
  - apply get_cache_size_epoch0.
  - apply get_full_size_epoch0.
Qed.

(** ** The DAG registry *)

Lemma thread_step_monotone t st e p :
  dag_cache st !! e = Some p ->
  dag_cache (snd (thread_step t st)) !! e = Some p.
Proof.
  intros H. destruct t as [bn cb|bn cb|bn impl|bn q|bn ex]; cbn [thread_step].
  - destruct (dag_cache st !! (bn / EPOCH_LENGTH)); assumption.
  - destruct (dag_new bn cb); assumption.
  - unfold map_insert.
    destruct (dag_cache st !! (bn / EPOCH_LENGTH)) as [q|] eqn:E.
    + rewrite E. assumption.
    + cbn. rewrite lookup_insert_ne; [assumption|congruence].
  - assumption.
  - assumption.
Qed.

Lemma schedule_step_monotone sys k e p :
  dag_cache (snd sys) !! e = Some p ->
  dag_cache (snd (schedule_step sys k)) !! e = Some p.
Proof.
  intros H. unfold schedule_step.
  destruct (fst sys !! k) as [t|]; [|assumption].
  pose proof (thread_step_monotone t (snd sys) e p H) as Hm.
  destruct (thread_step t (snd sys)). exact Hm.
Qed.

Lemma run_monotone schedule sys e p :
  dag_cache (snd sys) !! e = Some p ->
  dag_cache (snd (run schedule sys)) !! e = Some p.
Proof.
  unfold run. revert sys.
  induction schedule as [|k schedule IH]; intros sys H; [assumption|].
  cbn [fold_left]. apply IH, schedule_step_monotone, H.
Qed.

Lemma schedule_step_returned sys k k' bn p :
  fst sys !! k' = Some (Returned bn p) ->
  fst (schedule_step sys k) !! k' = Some (Returned bn p).
Proof.
  intros H. unfold schedule_step.
  destruct (fst sys !! k) as [t|] eqn:Ek; [|assumption].
  destruct (thread_step t (snd sys)) as [t' st'] eqn:Es. cbn [fst].
  destruct (decide (k = k')) as [->|Hne].
  - rewrite H in Ek. injection Ek as <-. cbn in Es. injection Es as <- <-.
    rewrite list_insert_id; assumption.
  - rewrite list_lookup_insert_ne by assumption. assumption.
Qed.

Lemma run_returned schedule sys k bn p :
  fst sys !! k = Some (Returned bn p) ->
  fst (run schedule sys) !! k = Some (Returned bn p).
Proof.
  unfold run. revert sys.
  induction schedule as [|k0 schedule IH]; intros sys H; [assumption|].
  cbn [fold_left]. apply IH, schedule_step_returned, H.
Qed.

Lemma registry_inv_initial requests st :
  registry_ok st -> registry_inv (requested requests, st).
Proof.
  intros Hok.
  assert (Hreq : forall k t, requested requests !! k = Some t ->
                   exists bn cb, t = Requested bn cb).
  { intros k t H. unfold requested in H. rewrite list_lookup_fmap in H.
    destruct (requests !! k) as [[bn cb]|]; [|discriminate].
    injection H as <-. eauto. }
  split; cbn [fst snd].
  - assumption.
  - intros k bn p H. apply Hreq in H as (? & ? & ?). discriminate.
  - intros k bn impl H. apply Hreq in H as (? & ? & ?). discriminate.
  - intros k1 k2 bn1 bn2 impl H. apply Hreq in H as (? & ? & ?). discriminate.
Qed.

(** Case analysis of a lookup in the thread list after thread [k] took
    a step. *)
Ltac stepped_thread H :=
  apply list_lookup_insert_Some in H as [(<- & H & _)|(? & H)];
  [try discriminate H; try (injection H as <- <-)|].

Lemma registry_inv_step sys k :
  registry_inv sys -> registry_inv (schedule_step sys k).
Proof.
  intros [Hok Hret Hcon Hdis]. unfold schedule_step, registry_ok in *.
  destruct sys as [ths st]. cbn [fst snd] in *.
  destruct (ths !! k) as [t|] eqn:Ek; [|split; assumption].
  destruct t as [bn cb|bn cb|bn impl|bn q|bn ex]; cbn [thread_step].
  - (* first section under the lock *)
    destruct (dag_cache st !! (bn / EPOCH_LENGTH)) as [p|] eqn:E;
      split; unfold registry_ok; cbn [fst snd]; try assumption.
    + intros k' bn' p' H. stepped_thread H; [assumption|eauto].
    + intros k' bn' impl' H. stepped_thread H. eauto.
    + intros k1 k2 bn1 bn2 impl' H1 H2.
      stepped_thread H1. stepped_thread H2. eauto.
    + intros k' bn' p' H. stepped_thread H. eauto.
    + intros k' bn' impl' H. stepped_thread H. eauto.
    + intros k1 k2 bn1 bn2 impl' H1 H2.
      stepped_thread H1. stepped_thread H2. eauto.
  - (* construction, outside the lock *)
    destruct (dag_new bn cb) as [d|ex]; split;
      unfold registry_ok; cbn [fst snd objects dag_cache]; try assumption.
    + intros e p H. apply Hok in H. rewrite length_app. lia.
    + intros k' bn' p' H. stepped_thread H. eauto.
    + intros k' bn' impl' H. rewrite length_app. cbn [length].
      stepped_thread H.
      * split; [lia|]. intros e He. apply Hok in He. lia.
      * destruct (Hcon _ _ _ H) as [Hlt Hnot]. split; [lia|assumption].
    + intros k1 k2 bn1 bn2 impl' H1 H2.
      stepped_thread H1; stepped_thread H2.
      * reflexivity.
      * destruct (Hcon _ _ _ H2). lia.
      * destruct (Hcon _ _ _ H1). lia.
      * eauto.
    + intros k' bn' p' H. stepped_thread H. eauto.
    + intros k' bn' impl' H. stepped_thread H. eauto.
    + intros k1 k2 bn1 bn2 impl' H1 H2.
      stepped_thread H1. stepped_thread H2. eauto.
  - (* second section under the lock *)
    destruct (Hcon _ _ _ Ek) as [Hlt Hfresh].
    unfold map_insert.
    destruct (dag_cache st !! (bn / EPOCH_LENGTH)) as [q|] eqn:E.
    + rewrite E. split; unfold registry_ok; cbn [fst snd objects dag_cache];
        try assumption.
      * intros k' bn' p' H. stepped_thread H; [assumption|eauto].
      * intros k' bn' impl' H. stepped_thread H. eauto.
      * intros k1 k2 bn1 bn2 impl' H1 H2.
        stepped_thread H1. stepped_thread H2. eauto.
    + split; unfold registry_ok; cbn [fst snd objects dag_cache].
      * intros e p H.
        apply lookup_insert_Some in H as [[_ <-]|[_ H]]; [assumption|eauto].
      * intros k' bn' p' H. stepped_thread H.
        -- apply lookup_insert_eq.
        -- destruct (decide (bn / EPOCH_LENGTH = bn' / EPOCH_LENGTH)) as [Heq|Hne].
           ++ apply Hret in H. rewrite <- Heq, E in H. discriminate.
           ++ rewrite lookup_insert_ne by assumption. eauto.
      * intros k' bn' impl' H. stepped_thread H.
        destruct (Hcon _ _ _ H) as [Hlt' Hfresh']. split; [assumption|].
        intros e He.
        apply lookup_insert_Some in He as [[_ ->]|[_ He]].
        -- pose proof (Hdis _ _ _ _ _ Ek H). congruence.
        -- exact (Hfresh' e He).
      * intros k1 k2 bn1 bn2 impl' H1 H2.
        stepped_thread H1. stepped_thread H2. eauto.
  - rewrite list_insert_id by assumption. split; assumption.
  - rewrite list_insert_id by assumption. split; assumption.
Qed.

Lemma registry_inv_run schedule sys :
  registry_inv sys -> registry_inv (run schedule sys).
Proof.
  unfold run. revert sys.
  induction schedule as [|k schedule IH]; intros sys H; [assumption|].
  cbn [fold_left]. apply IH, registry_inv_step, H.
Qed.

Lemma run_nil sys : run [] sys = sys.
Proof. reflexivity. Qed.

Lemma run_cons k schedule sys :
  run (k :: schedule) sys = run schedule (schedule_step sys k).
Proof. reflexivity. Qed.

(** One step of a thread, by its state. *)
Lemma schedule_step_eq ths st k t :
  ths !! k = Some t ->
  schedule_step (ths, st) k
  = (<[k := fst (thread_step t st)]> ths, snd (thread_step t st)).
Proof.
  intros H. unfold schedule_step. cbn [fst snd]. rewrite H.
  destruct (thread_step t st). reflexivity.
Qed.

Lemma schedule_step_requested_hit ths st k bn cb p :
  ths !! k = Some (Requested bn cb) ->
  dag_cache st !! (bn / EPOCH_LENGTH) = Some p ->
  schedule_step (ths, st) k = (<[k := Returned bn p]> ths, st).
Proof.
  intros Hk Hp. rewrite (schedule_step_eq _ _ _ _ Hk). cbn [thread_step].
  rewrite Hp. reflexivity.
Qed.

Lemma schedule_step_requested_miss ths st k bn cb :
  ths !! k = Some (Requested bn cb) ->
  dag_cache st !! (bn / EPOCH_LENGTH) = None ->
  schedule_step (ths, st) k = (<[k := Constructing bn cb]> ths, st).
Proof.
  intros Hk Hp. rewrite (schedule_step_eq _ _ _ _ Hk). cbn [thread_step].
  rewrite Hp. reflexivity.
Qed.

Lemma schedule_step_constructing ths st k bn cb d :
  ths !! k = Some (Constructing bn cb) ->
  dag_new bn cb = Return d ->
  schedule_step (ths, st) k
  = (<[k := Constructed bn (length (objects st))]> ths,
     {| objects := objects st ++ [d]; dag_cache := dag_cache st |}).
Proof.
  intros Hk Hd. rewrite (schedule_step_eq _ _ _ _ Hk). cbn [thread_step].
  rewrite Hd. reflexivity.
Qed.

Lemma schedule_step_constructed_hit ths st k bn impl p :
  ths !! k = Some (Constructed bn impl) ->
  dag_cache st !! (bn / EPOCH_LENGTH) = Some p ->
  schedule_step (ths, st) k = (<[k := Returned bn p]> ths, st).
Proof.
  intros Hk Hp. rewrite (schedule_step_eq _ _ _ _ Hk). cbn [thread_step].
  unfold map_insert. rewrite Hp, Hp. destruct st. reflexivity.
Qed.

Lemma schedule_step_constructed_miss ths st k bn impl :
  ths !! k = Some (Constructed bn impl) ->
  dag_cache st !! (bn / EPOCH_LENGTH) = None ->
  schedule_step (ths, st) k
  = (<[k := Returned bn impl]> ths,
     {| objects := objects st;
        dag_cache := <[bn / EPOCH_LENGTH := impl]> (dag_cache st) |}).
Proof.
  intros Hk Hp. rewrite (schedule_step_eq _ _ _ _ Hk). cbn [thread_step].
  unfold map_insert. rewrite Hp. reflexivity.
Qed.

(** Every step of its own takes a call one stage further until it
    has finished, and a call never throws but what its construction
    threw. *)
Lemma thread_step_call bn cb t st :
  call_of bn cb t ->
  call_of bn cb (fst (thread_step t st))
  /\ (Nat.min 3 (S (stage t)) <= stage (fst (thread_step t st)))%nat.
Proof.
  destruct t as [bn' cb'|bn' cb'|bn' impl|bn' q|bn' ex];
    cbn [call_of thread_step stage].
  - intros [-> ->].
    destruct (dag_cache st !! (bn / EPOCH_LENGTH));
      cbn [fst call_of stage]; split; try lia; auto.
  - intros [-> ->].
    destruct (dag_new bn cb) as [d|ex] eqn:E;
      cbn [fst call_of stage]; split; try lia; auto.
  - intros ->. unfold map_insert.
    destruct (dag_cache st !! (bn / EPOCH_LENGTH)) as [q|] eqn:E.
    + rewrite E. cbn [fst call_of stage]. split; [reflexivity|lia].
    + cbn [fst call_of stage]. split; [reflexivity|lia].
  - intros ->. cbn [fst call_of stage]. split; [reflexivity|lia].
  - intros H. cbn [fst call_of stage]. split; [exact H|lia].
Qed.

Lemma run_call schedule : forall sys k bn cb t,
  fst sys !! k = Some t ->
  call_of bn cb t ->
  exists t',
    fst (run schedule sys) !! k = Some t'
    /\ call_of bn cb t'
    /\ (Nat.min 3 (stage t + count_occ Nat.eq_dec schedule k) <= stage t')%nat.
Proof.
  unfold run.
  induction schedule as [|k0 schedule IH]; intros [ths st] k bn cb t Hk Hcall.
  - exists t. cbn [fold_left count_occ]. split; [exact Hk|].
    split; [exact Hcall|lia].
  - cbn [fold_left count_occ fst] in *.
    destruct (Nat.eq_dec k0 k) as [->|Hne].
    + rewrite (schedule_step_eq _ _ _ _ Hk).
      destruct (thread_step_call bn cb t st Hcall) as [Hcall' Hstage].
      destruct (IH (<[k := fst (thread_step t st)]> ths, snd (thread_step t st))
                  k bn cb (fst (thread_step t st))) as (t' & Ht' & Hc' & Hs').
      * cbn [fst]. apply list_lookup_insert_eq. eapply lookup_lt_Some, Hk.
      * exact Hcall'.
      * exists t'. split; [exact Ht'|]. split; [exact Hc'|]. lia.
    + destruct (ths !! k0) as [t0|] eqn:Ek0.
      * rewrite (schedule_step_eq _ _ _ _ Ek0).
        destruct (IH (<[k0 := fst (thread_step t0 st)]> ths,
                      snd (thread_step t0 st)) k bn cb t)
          as (t' & Ht' & Hc' & Hs').
        -- cbn [fst]. rewrite list_lookup_insert_ne by assumption. exact Hk.
        -- exact Hcall.
        -- exists t'. split; [exact Ht'|]. split; [exact Hc'|exact Hs'].
      * assert (Hsame : schedule_step (ths, st) k0 = (ths, st))
          by (unfold schedule_step; cbn [fst snd]; rewrite Ek0; reflexivity).
        rewrite Hsame. exact (IH (ths, st) k bn cb t Hk Hcall).
Qed.

(** C8: whatever the interleaving of the calls of [get_dag]: the
    registry keeps the handle it has for an epoch; every call that has
    returned holds the handle the registry has for the epoch of its
    block number and keeps it; two calls for block numbers of the same
    epoch have returned the same handle; once a call has returned a
    handle, every request made later for a block number of the same
    epoch returns that handle at its first step and changes nothing; a
    call that constructed a DAG for an epoch that the registry already
    has returns the registered handle, not its own, and leaves the
    registry as it is; a call that constructed a DAG for an epoch that
    the registry does not have registers its own handle and returns
    it; and every call that has taken three steps has returned a
    handle, unless its own construction threw. *)
Theorem registry_one_handle_per_epoch
    (requests : list (Z * progress_callback_type)) (st : process)
    (schedule : list nat) :
  registry_ok st ->
  let sys := run schedule (requested requests, st) in
  (forall e p, dag_cache st !! e = Some p -> dag_cache (snd sys) !! e = Some p)
  /\ (forall k block_number p,
        fst sys !! k = Some (Returned block_number p) ->
        dag_cache (snd sys) !! (block_number / EPOCH_LENGTH) = Some p
        /\ forall later : list nat,
             fst (run later sys) !! k = Some (Returned block_number p)
             /\ dag_cache (snd (run later sys)) !! (block_number / EPOCH_LENGTH)
                = Some p)
  /\ (forall k1 k2 bn1 bn2 p1 p2,
        fst sys !! k1 = Some (Returned bn1 p1) ->
        fst sys !! k2 = Some (Returned bn2 p2) ->
        bn1 / EPOCH_LENGTH = bn2 / EPOCH_LENGTH ->
        p1 = p2)
  /\ (forall k block_number impl p,
        fst sys !! k = Some (Constructed block_number impl) ->
        dag_cache (snd sys) !! (block_number / EPOCH_LENGTH) = Some p ->
        p <> impl
        /\ schedule_step sys k
           = (<[k := Returned block_number p]> (fst sys), snd sys))
  /\ (forall k1 k2 bn1 bn2 callback p (later : list nat),
        fst sys !! k1 = Some (Returned bn1 p) ->
        bn2 / EPOCH_LENGTH = bn1 / EPOCH_LENGTH ->
        fst (run later sys) !! k2 = Some (Requested bn2 callback) ->
        schedule_step (run later sys) k2
        = (<[k2 := Returned bn2 p]> (fst (run later sys)), snd (run later sys)))
  /\ (forall k block_number callback p,
        fst sys !! k = Some (Requested block_number callback) ->
        dag_cache (snd sys) !! (block_number / EPOCH_LENGTH) = Some p ->
        schedule_step sys k
        = (<[k := Returned block_number p]> (fst sys), snd sys))
  /\ (forall k block_number impl,
        fst sys !! k = Some (Constructed block_number impl) ->
        dag_cache (snd sys) !! (block_number / EPOCH_LENGTH) = None ->
        schedule_step sys k
        = (<[k := Returned block_number impl]> (fst sys),
           {| objects := objects (snd sys);
              dag_cache := <[block_number / EPOCH_LENGTH := impl]>
                             (dag_cache (snd sys)) |}))
  /\ (forall k block_number callback,
        requests !! k = Some (block_number, callback) ->
        (3 <= count_occ Nat.eq_dec schedule k)%nat ->
        (exists p, fst sys !! k = Some (Returned block_number p))
        \/ (exists e, fst sys !! k = Some (Thrown block_number e)
                      /\ dag_new block_number callback = Throw e)).
Proof.
  intros Hok sys.
  assert (Hinv : registry_inv sys)
    by (apply registry_inv_run, registry_inv_initial, Hok).
  destruct Hinv as [Hok' Hret Hcon Hdis].
  split; [|split; [|split; [|split; [|split; [|split; [|split]]]]]].
  - intros e p H. apply (run_monotone schedule (requested requests, st)), H.
  - intros k bn p H. split; [eauto|].
    intros later. split.
    + apply run_returned, H.
    + apply run_monotone. eauto.
  - intros k1 k2 bn1 bn2 p1 p2 H1 H2 Heq.
    apply Hret in H1. apply Hret in H2. rewrite Heq in H1. congruence.
  - intros k bn impl p Hk Hp. split.
    + destruct (Hcon _ _ _ Hk) as [_ Hfresh]. intros ->. exact (Hfresh _ Hp).
    + destruct sys as [ths st']. cbn [fst snd] in *.
      exact (schedule_step_constructed_hit _ _ _ _ _ _ Hk Hp).
  - intros k1 k2 bn1 bn2 cb p later H1 Heq H2.
    assert (Hp : dag_cache (snd (run later sys)) !! (bn2 / EPOCH_LENGTH) = Some p)
      by (rewrite Heq; apply run_monotone; eauto).
    destruct (run later sys) as [ths st']. cbn [fst snd] in *.
    exact (schedule_step_requested_hit _ _ _ _ _ _ H2 Hp).
  - intros k bn cb p Hk Hp.
    destruct sys as [ths st']. cbn [fst snd] in *.
    exact (schedule_step_requested_hit _ _ _ _ _ _ Hk Hp).
  - intros k bn impl Hk Hp.
    destruct sys as [ths st']. cbn [fst snd] in *.
    exact (schedule_step_constructed_miss _ _ _ _ _ Hk Hp).
  - intros k bn cb Hk Hcount.
    destruct (run_call schedule (requested requests, st) k bn cb
                (Requested bn cb)) as (t' & Ht' & Hcall & Hstage).
    + cbn [fst]. unfold requested. rewrite list_lookup_fmap, Hk. reflexivity.
    + split; reflexivity.
    + fold sys in Ht'. cbn [stage] in Hstage.
      destruct t' as [bn' cb'|bn' cb'|bn' impl|bn' q|bn' ex];
        cbn [stage call_of] in Hstage, Hcall; try lia.
      * left. exists q. rewrite Ht', Hcall. reflexivity.
      * right. exists ex. destruct Hcall as [-> Hthrow].
        split; [exact Ht'|exact Hthrow].
Qed.

(** ** Cancellation *)

Lemma bind_Return {A B : Type} (a : A) (k : A -> outcome B) :
  (Return a ≫= k) = k a.
Proof. reflexivity. Qed.

Lemma bind_Throw {A B : Type} (e : hash_exception) (k : A -> outcome B) :
  (Throw e ≫= k) = Throw e.
Proof. reflexivity. Qed.

Lemma for_loop_S {S : Type} count i (body : nat -> S -> outcome S) s :
  for_loop (Datatypes.S count) i body s
  = (body i s ≫= for_loop count (Datatypes.S i) body).
Proof. reflexivity. Qed.

Lemma callback_frequency_check z : (z mod CALLBACK_FREQUENCY =? 0) = true.
Proof. unfold CALLBACK_FREQUENCY. rewrite Z.mod_1_r. reflexivity. Qed.

Lemma stops_dec callback phase max lo (count : nat) :
  stops callback phase max lo (lo + Z.of_nat count)
  \/ (forall step, lo <= step < lo + Z.of_nat count ->
        callback step max phase = true).
Proof.
  induction count as [|count IH].
  - right. intros step Hstep. lia.
  - destruct IH as [(step & Hstep & Hcb)|IH].
    + left. exists step. split; [lia|assumption].
    + destruct (callback (lo + Z.of_nat count) max phase) eqn:E.
      * right. intros step Hstep.
        destruct (Z.eq_dec step (lo + Z.of_nat count)) as [->|];
          [assumption|apply IH; lia].
      * left. exists (lo + Z.of_nat count). split; [lia|assumption].
Qed.

Lemma stops_first callback phase max lo hi :
  stops callback phase max lo hi ->
  callback lo max phase = false \/ stops callback phase max (lo + 1) hi.
Proof.
  intros (step & Hstep & Hcb).
  destruct (Z.eq_dec step lo) as [->|]; [left; assumption|].
  right. exists step. split; [lia|assumption].
Qed.

(** A loop that asks the callback with its index after every pass. *)
Lemma for_loop_callback {S : Type} callback phase max e
    (g : nat -> S -> S) (body : nat -> S -> outcome S) :
  (forall i s, body i s =
     if (Z.of_nat i mod CALLBACK_FREQUENCY =? 0)
        && negb (callback (Z.of_nat i) max phase)
     then Throw e else Return (g i s)) ->
  forall count first s,
    (stops callback phase max (Z.of_nat first) (Z.of_nat first + Z.of_nat count) ->
     for_loop count first body s = Throw e)
    /\ ((forall step, Z.of_nat first <= step < Z.of_nat first + Z.of_nat count ->
           callback step max phase = true) ->
        exists s', for_loop count first body s = Return s').
Proof.
  intros Hbody. induction count as [|count IH]; intros first s.
  - split.
    + intros (step & Hstep & _). lia.
    + intros _. exists s. reflexivity.
  - rewrite for_loop_S, Hbody, callback_frequency_check. cbn [andb].
    destruct (IH (Datatypes.S first) (g first s)) as [IHstop IHgo].
    split.
    + intros Hstop. apply stops_first in Hstop as [Hcb|Hstop].
      * rewrite Hcb. reflexivity.
      * destruct (callback (Z.of_nat first) max phase); [|reflexivity].
        cbn [negb]. rewrite bind_Return. apply IHstop.
        destruct Hstop as (step & Hstep & Hcb).
        exists step. split; [lia|assumption].
    + intros Hall. rewrite (Hall (Z.of_nat first)) by lia.
      cbn [negb]. rewrite bind_Return. apply IHgo.
      intros step Hstep. apply Hall. lia.
Qed.

Lemma mkcache_round_unfold n callback i j data c :
  mkcache_round n callback i j (data, c) =
  if negb (callback c (Z.of_nat n * CACHE_ROUNDS) cache_generation)
  then Throw (HashException "Cache creation cancelled.")
  else Return (mkcache_step n i j data, c + 1).
Proof.
  unfold mkcache_round. rewrite callback_frequency_check. reflexivity.
Qed.

(** The inner loop of the strengthening phase counts its calls of the
    callback in [progress_counter]. *)
Lemma mkcache_round_loop n callback i count j data c :
  let max := Z.of_nat n * CACHE_ROUNDS in
  (stops callback cache_generation max c (c + Z.of_nat count) ->
   for_loop count j (mkcache_round n callback i) (data, c)
   = Throw (HashException "Cache creation cancelled."))
  /\ ((forall step, c <= step < c + Z.of_nat count ->
         callback step max cache_generation = true) ->
      exists data',
        for_loop count j (mkcache_round n callback i) (data, c)
        = Return (data', c + Z.of_nat count)).
Proof.
  intros max. revert j data c.
  induction count as [|count IH]; intros j data c.
  - split.
    + intros (step & Hstep & _). lia.
    + intros _. exists data. rewrite Z.add_0_r. reflexivity.
  - rewrite for_loop_S, mkcache_round_unfold. fold max.
    destruct (IH (Datatypes.S j) (mkcache_step n i j data) (c + 1))
      as [IHstop IHgo].
    split.
    + intros Hstop. apply stops_first in Hstop as [Hcb|Hstop].
      * rewrite Hcb. reflexivity.
      * destruct (callback c max cache_generation); [|reflexivity].
        cbn [negb]. rewrite bind_Return. apply IHstop.
        destruct Hstop as (step & Hstep & Hcb).
        exists step. split; [lia|assumption].
    + intros Hall. rewrite (Hall c) by lia.
      cbn [negb]. rewrite bind_Return.
      destruct IHgo as [data' Hd]; [intros step Hstep; apply Hall; lia|].
      exists data'. rewrite Hd. f_equal. f_equal. lia.
Qed.

Lemma mkcache_rounds_loop n callback rounds i data c :
  let max := Z.of_nat n * CACHE_ROUNDS in
  let body := fun i st => for_loop n 0 (mkcache_round n callback i) st in
  (stops callback cache_generation max c (c + Z.of_nat rounds * Z.of_nat n) ->
   for_loop rounds i body (data, c)
   = Throw (HashException "Cache creation cancelled."))
  /\ ((forall step, c <= step < c + Z.of_nat rounds * Z.of_nat n ->
         callback step max cache_generation = true) ->
      exists data',
        for_loop rounds i body (data, c)
        = Return (data', c + Z.of_nat rounds * Z.of_nat n)).
Proof.
  intros max body. revert i data c.
  induction rounds as [|rounds IH]; intros i data c.
  - split.
    + intros (step & Hstep & _). lia.
    + intros _. exists data. cbn [for_loop]. f_equal. f_equal. lia.
  - rewrite for_loop_S.
    change (body i (data, c))
      with (for_loop n 0 (mkcache_round n callback i) (data, c)).
    destruct (mkcache_round_loop n callback i n 0%nat data c) as [Hstop1 Hgo1].
    fold max in Hstop1, Hgo1.
    split.
    + intros Hstop.
      destruct (stops_dec callback cache_generation max c n) as [Hs|Hall].
      * rewrite (Hstop1 Hs). reflexivity.
      * destruct (Hgo1 Hall) as [data' Hd]. rewrite Hd, bind_Return.
        apply IH. destruct Hstop as (step & Hstep & Hcb).
        exists step. split; [|assumption].
        destruct (Z_lt_le_dec step (c + Z.of_nat n)) as [Hlt|]; [|lia].
        rewrite Hall in Hcb by lia. discriminate.
    + intros Hall.
      destruct Hgo1 as [data' Hd]; [intros step Hstep; apply Hall; lia|].
      rewrite Hd, bind_Return.
      destruct (IH (Datatypes.S i) data' (c + Z.of_nat n)) as [_ IHgo].
      destruct IHgo as [data'' Hd']; [intros step Hstep; apply Hall; lia|].
      exists data''. rewrite Hd'. f_equal. f_equal. lia.
Qed.

Lemma save_items_spec callback max items count fs :
  (stops callback dag_saving max (count + 1)
     (count + 1 + Z.of_nat (length items)) ->
   fst (save_items callback max items count fs)
   = Throw (HashException "DAG save cancelled."))
  /\ ((forall step, count + 1 <= step < count + 1 + Z.of_nat (length items) ->
         callback step max dag_saving = true) ->
      fst (save_items callback max items count fs)
      = Return (count + Z.of_nat (length items))).
Proof.
  revert count fs. induction items as [|i items IH]; intros count fs.
  - split.
    + intros (step & Hstep & _). cbn [length] in Hstep. lia.
    + intros _. cbn. f_equal. lia.
  - cbn [save_items length]. rewrite callback_frequency_check. cbn [andb].
    destruct (IH (count + 1) (fs ++ flat_map (le_bytes 4) i)) as [IHstop IHgo].
    split.
    + intros Hstop. apply stops_first in Hstop as [Hcb|Hstop].
      * rewrite Hcb. reflexivity.
      * destruct (callback (count + 1) max dag_saving); [|reflexivity].
        cbn [negb]. apply IHstop.
        destruct Hstop as (step & Hstep & Hcb).
        exists step. split; [lia|assumption].
    + intros Hall. rewrite (Hall (count + 1)) by lia. cbn [negb].
      rewrite IHgo; [f_equal; lia|].
      intros step Hstep. apply Hall. lia.
Qed.

Lemma load_items_spec callback phase what_arg max data count fs :
  (stops callback phase max (count + 1)
     (count + 1 + Z.of_nat (length data)) ->
   load_items callback phase what_arg max data count fs
   = Throw (HashException what_arg))
  /\ ((forall step, count + 1 <= step < count + 1 + Z.of_nat (length data) ->
         callback step max phase = true) ->
      exists fs',
        load_items callback phase what_arg max data count fs
        = Return (count + Z.of_nat (length data), fs')).
Proof.
  revert count fs. induction data as [|i data IH]; intros count fs.
  - split.
    + intros (step & Hstep & _). cbn [length] in Hstep. lia.
    + intros _. exists fs. cbn. f_equal. f_equal. lia.
  - cbn [load_items length]. rewrite callback_frequency_check. cbn [andb].
    destruct (IH (count + 1) (snd (read (Z.to_nat HASH_BYTES) fs)))
      as [IHstop IHgo].
    split.
    + intros Hstop. apply stops_first in Hstop as [Hcb|Hstop].
      * rewrite Hcb. reflexivity.
      * destruct (callback (count + 1) max phase); [|reflexivity].
        cbn [negb]. apply IHstop.
        destruct Hstop as (step & Hstep & Hcb).
        exists step. split; [lia|assumption].
    + intros Hall. rewrite (Hall (count + 1)) by lia. cbn [negb].
      destruct IHgo as [fs' Hfs]; [intros step Hstep; apply Hall; lia|].
      exists fs'. rewrite Hfs. f_equal. f_equal. lia.
Qed.

Lemma resize_length {A : Type} count (d : A) l :
  length (resize count d l) = count.
Proof.
  unfold resize. rewrite length_app, length_take, length_replicate. lia.
Qed.

Section Cancel.

Variable callback : progress_callback_type.

Lemma mkcache_seeding size seed :
  let n := Z.to_nat (size / HASH_BYTES) in
  (stops callback cache_seeding (Z.of_nat n) 1 (Z.of_nat n) ->
   mkcache size seed callback
   = Throw (HashException "Cache creation cancelled."))
  /\ ((forall step, 1 <= step < Z.of_nat n ->
         callback step (Z.of_nat n) cache_seeding = true) ->
      exists data,
        for_loop (n - 1) 1 (mkcache_seed n callback) [sha3_512_str seed]
        = Return data).
Proof.
  intros n.
  destruct (for_loop_callback callback cache_seeding (Z.of_nat n)
              (HashException "Cache creation cancelled.")
              (fun _ data => data ++ [sha3_512 (List.last data [])])
              (mkcache_seed n callback)
              ltac:(intros i data; unfold mkcache_seed; reflexivity)
              (n - 1)%nat 1%nat [sha3_512_str seed]) as [Hstop Hgo].
  split.
  - intros (step & Hstep & Hcb). unfold mkcache. fold n.
    rewrite Hstop; [reflexivity|].
    exists step. split; [lia|assumption].
  - intros Hall. apply Hgo. intros step Hstep. apply Hall. lia.
Qed.

Lemma mkcache_outcome size seed :
  let n := Z.to_nat (size / HASH_BYTES) in
  ((stops callback cache_seeding (Z.of_nat n) 1 (Z.of_nat n)
    \/ stops callback cache_generation (Z.of_nat n * CACHE_ROUNDS)
         0 (Z.of_nat n * CACHE_ROUNDS)) ->
   mkcache size seed callback
   = Throw (HashException "Cache creation cancelled."))
  /\ ((forall step, 1 <= step < Z.of_nat n ->
         callback step (Z.of_nat n) cache_seeding = true) ->
      (forall step, 0 <= step < Z.of_nat n * CACHE_ROUNDS ->
         callback step (Z.of_nat n * CACHE_ROUNDS) cache_generation = true) ->
      exists data, mkcache size seed callback = Return data).
Proof.
  intros n.
  destruct (mkcache_seeding size seed) as [Hseedstop Hseedgo]. fold n in Hseedstop, Hseedgo.
  assert (Hgen : forall data,
    (stops callback cache_generation (Z.of_nat n * CACHE_ROUNDS)
       0 (Z.of_nat n * CACHE_ROUNDS) ->
     for_loop (Z.to_nat CACHE_ROUNDS) 0
       (fun i st => for_loop n 0 (mkcache_round n callback i) st) (data, 0)
     = Throw (HashException "Cache creation cancelled."))
    /\ ((forall step, 0 <= step < Z.of_nat n * CACHE_ROUNDS ->
           callback step (Z.of_nat n * CACHE_ROUNDS) cache_generation = true) ->
        exists data',
          for_loop (Z.to_nat CACHE_ROUNDS) 0
            (fun i st => for_loop n 0 (mkcache_round n callback i) st) (data, 0)
          = Return (data', 0 + Z.of_nat (Z.to_nat CACHE_ROUNDS) * Z.of_nat n))).
  { intros data.
    destruct (mkcache_rounds_loop n callback (Z.to_nat CACHE_ROUNDS) 0 data 0)
      as [Hs Hg].
    replace (0 + Z.of_nat (Z.to_nat CACHE_ROUNDS) * Z.of_nat n)
      with (Z.of_nat n * CACHE_ROUNDS) in Hs, Hg |- * by (unfold CACHE_ROUNDS; lia).
    split; assumption. }
  split.
  - intros [Hs|Hs]; [apply Hseedstop, Hs|].
    destruct (stops_dec callback cache_seeding (Z.of_nat n) 1 (n - 1))
      as [(step & Hstep & Hcb)|Hall].
    + apply Hseedstop. exists step. split; [lia|assumption].
    + destruct Hseedgo as [data Hd]; [intros step Hstep; apply Hall; lia|].
      unfold mkcache. fold n. rewrite Hd, bind_Return.
      destruct (Hgen data) as [Hstop _]. rewrite (Hstop Hs). reflexivity.
  - intros Hall1 Hall2.
    destruct (Hseedgo Hall1) as [data Hd].
    destruct (Hgen data) as [_ Hgo]. destruct (Hgo Hall2) as [data' Hd'].
    exists data'. unfold mkcache. fold n.
    rewrite Hd, bind_Return, Hd', bind_Return. reflexivity.
Qed.

Lemma generate_outcome size cache :
  let n := Z.to_nat (size / HASH_BYTES) in
  (stops callback dag_generation (Z.of_nat n) 0 (Z.of_nat n) ->
   generate size cache callback
   = Throw (HashException "DAG creation cancelled."))
  /\ ((forall step, 0 <= step < Z.of_nat n ->
         callback step (Z.of_nat n) dag_generation = true) ->
      exists data, generate size cache callback = Return data).
Proof.
  intros n. unfold generate. fold n.
  assert (Hbody : forall i data,
            generate_item cache n callback i data =
            if (Z.of_nat i mod CALLBACK_FREQUENCY =? 0)
               && negb (callback (Z.of_nat i) (Z.of_nat n) dag_generation)
            then Throw (HashException "DAG creation cancelled.")
            else Return (data ++ [calc_dataset_item cache (Z.of_nat i)]))
    by (intros i data; unfold generate_item; reflexivity).
  exact (for_loop_callback callback dag_generation (Z.of_nat n)
           (HashException "DAG creation cancelled.")
           (fun i data => data ++ [calc_dataset_item cache (Z.of_nat i)])
           (generate_item cache n callback) Hbody n 0%nat []).
Qed.

Lemma save_cancel this :
  let max_count :=
    to_uint64 (cache_size (dag_cache_of this)
               + Z.of_nat (length (dag_data this))) in
  let items := (length (cache_data (dag_cache_of this))
                + length (dag_data this))%nat in
  stops callback dag_saving max_count 1 (1 + Z.of_nat items) ->
  fst (save this callback) = Throw (HashException "DAG save cancelled.").
Proof.
  intros max_count items Hstop. unfold save. fold max_count.
  match goal with
  | |- context [save_items callback max_count
                  (cache_data (dag_cache_of this)) 0 ?fs] =>
      set (fs0 := fs)
  end.
  destruct (save_items_spec callback max_count
              (cache_data (dag_cache_of this)) 0 fs0) as [Hs1 Hg1].
  destruct (save_items callback max_count (cache_data (dag_cache_of this)) 0 fs0)
    as [[count|e] fs1] eqn:E1; cbn [fst] in *.
  - destruct (stops_dec callback dag_saving max_count (0 + 1)
                (length (cache_data (dag_cache_of this)))) as [Hs|Hall].
    + specialize (Hs1 Hs). discriminate.
    + specialize (Hg1 Hall). injection Hg1 as ->.
      destruct (save_items_spec callback max_count (dag_data this)
                  (0 + Z.of_nat (length (cache_data (dag_cache_of this)))) fs1)
        as [Hs2 _].
      assert (Hs : stops callback dag_saving max_count
                (0 + Z.of_nat (length (cache_data (dag_cache_of this))) + 1)
                (0 + Z.of_nat (length (cache_data (dag_cache_of this))) + 1
                 + Z.of_nat (length (dag_data this)))).
      { destruct Hstop as (step & Hstep & Hcb).
        exists step. split; [|assumption].
        destruct (Z_lt_le_dec step
                    (0 + 1 + Z.of_nat (length (cache_data (dag_cache_of this)))))
          as [Hlt|Hge]; [|unfold items in Hstep; lia].
        rewrite Hall in Hcb by lia. discriminate. }
      specialize (Hs2 Hs).
      destruct (save_items callback max_count (dag_data this) _ fs1)
        as [[count|e] fs2]; cbn [fst] in *; [discriminate|].
      injection Hs2 as ->. reflexivity.
  - destruct (stops_dec callback dag_saving max_count (0 + 1)
                (length (cache_data (dag_cache_of this)))) as [Hs|Hall].
    + specialize (Hs1 Hs). injection Hs1 as ->. reflexivity.
    + specialize (Hg1 Hall). discriminate.
Qed.

End Cancel.

Lemma cache_load_outcome callback this fs :
  let count := Z.to_nat (cache_size this / HASH_BYTES) in
  (stops callback cache_loading (cache_size this / HASH_BYTES)
     1 (1 + Z.of_nat count) ->
   cache_load this fs callback
   = Throw (HashException "Cache loading cancelled."))
  /\ ((forall step, 1 <= step < 1 + Z.of_nat count ->
         callback step (cache_size this / HASH_BYTES) cache_loading = true) ->
      exists fs',
        cache_load this fs callback
        = Return ({| cache_epoch := cache_epoch this;
                     cache_size := cache_size this;
                     cache_data := resize count [] (cache_data this) |}, fs')).
Proof.
  intros count. unfold cache_load. fold count.
  destruct (load_items_spec callback cache_loading "Cache loading cancelled."
              (cache_size this / HASH_BYTES)
              (resize count [] (cache_data this)) 0 fs) as [Hstop Hgo].
  rewrite resize_length in Hstop, Hgo.
  split.
  - intros Hs. rewrite (Hstop Hs). reflexivity.
  - intros Hall. destruct (Hgo Hall) as [fs' Hfs].
    exists fs'. rewrite Hfs. reflexivity.
Qed.

Lemma load_cancel callback this file epoch csize size fs :
  load_validate file = Return (epoch, csize, size, fs) ->
  let ccount := Z.to_nat (csize / HASH_BYTES) in
  let dcount := Z.to_nat (size / HASH_BYTES) in
  (stops callback cache_loading (csize / HASH_BYTES) 1 (1 + Z.of_nat ccount) ->
   load this file callback = Throw (HashException "Cache loading cancelled."))
  /\ ((forall step, 1 <= step < 1 + Z.of_nat ccount ->
         callback step (csize / HASH_BYTES) cache_loading = true) ->
      stops callback dag_loading (Z.of_nat dcount) 1 (1 + Z.of_nat dcount) ->
      load this file callback = Throw (HashException "DAG loading cancelled.")).
Proof.
  intros Hval ccount dcount. unfold load. rewrite Hval, bind_Return.
  cbv beta iota.
  set (cache := {| cache_epoch := epoch; cache_size := csize;
                   cache_data := cache_data (dag_cache_of this) |}).
  destruct (cache_load_outcome callback cache fs) as [Hstop Hgo].
  cbn [cache_size] in Hstop, Hgo. fold ccount in Hstop, Hgo.
  split.
  - intros Hs. rewrite (Hstop Hs). reflexivity.
  - intros Hall Hs. destruct (Hgo Hall) as [fs' Hfs].
    rewrite Hfs, bind_Return. cbn [fst snd]. fold dcount.
    destruct (load_items_spec callback dag_loading "DAG loading cancelled."
                (Z.of_nat (length (resize dcount [] (dag_data this))))
                (resize dcount [] (dag_data this)) 0 fs') as [Hstop2 _].
    rewrite resize_length in Hstop2. rewrite resize_length.
    rewrite (Hstop2 Hs). reflexivity.
Qed.

Lemma dag_new_cancel callback block_number :
  let nc := Z.of_nat (Z.to_nat (get_cache_size block_number / HASH_BYTES)) in
  let nd := Z.of_nat (Z.to_nat (get_full_size block_number / HASH_BYTES)) in
  ((stops callback cache_seeding nc 1 nc
    \/ stops callback cache_generation (nc * CACHE_ROUNDS) 0 (nc * CACHE_ROUNDS)) ->
   dag_new block_number callback
   = Throw (HashException "Cache creation cancelled."))
  /\ ((forall step, 1 <= step < nc -> callback step nc cache_seeding = true) ->
      (forall step, 0 <= step < nc * CACHE_ROUNDS ->
         callback step (nc * CACHE_ROUNDS) cache_generation = true) ->
      stops callback dag_generation nd 0 nd ->
      dag_new block_number callback
      = Throw (HashException "DAG creation cancelled.")).
Proof.
  intros nc nd. unfold dag_new, cache_new.
  destruct (mkcache_outcome callback (get_cache_size block_number)
              (get_seedhash block_number)) as [Hstop Hgo].
  fold nc in Hstop, Hgo.
  split.
  - intros Hs. rewrite (Hstop Hs). reflexivity.
  - intros Hall1 Hall2 Hs. destruct (Hgo Hall1 Hall2) as [data Hd].
    rewrite Hd, !bind_Return. cbn [cache_data].
    destruct (generate_outcome callback (get_full_size block_number) data)
      as [Hstop2 _].
    rewrite (Hstop2 Hs). reflexivity.
Qed.

Lemma dag_new_throws callback block_number e :
  dag_new block_number callback = Throw e ->
  e = HashException "Cache creation cancelled."
  \/ e = HashException "DAG creation cancelled.".
Proof.
  intros H.
  set (nc := Z.to_nat (get_cache_size block_number / HASH_BYTES)).
  set (nd := Z.to_nat (get_full_size block_number / HASH_BYTES)).
  destruct (dag_new_cancel callback block_number) as [Hc Hd].
  fold nc nd in Hc, Hd.
  destruct (stops_dec callback cache_seeding (Z.of_nat nc) 1 (nc - 1))
    as [(step & Hstep & Hcb)|Hall1].
  { left. rewrite Hc in H; [congruence|].
    left. exists step. split; [lia|assumption]. }
  destruct (stops_dec callback cache_generation (Z.of_nat nc * CACHE_ROUNDS) 0
              (nc * 3)) as [(step & Hstep & Hcb)|Hall2].
  { left. rewrite Hc in H; [congruence|].
    right. exists step. split; [unfold CACHE_ROUNDS; lia|assumption]. }
  destruct (stops_dec callback dag_generation (Z.of_nat nd) 0 nd)
    as [Hs|Hall3].
  { right. rewrite Hd in H; [congruence| | |assumption].
    - intros step Hstep. apply Hall1. lia.
    - intros step Hstep. apply Hall2. unfold CACHE_ROUNDS in Hstep. lia. }
  exfalso. unfold dag_new, cache_new in H.
  destruct (mkcache_outcome callback (get_cache_size block_number)
              (get_seedhash block_number)) as [_ Hgo].
  destruct Hgo as [data Hdata].
  { intros step Hstep. apply Hall1. fold nc in Hstep. lia. }
  { intros step Hstep. apply Hall2. fold nc in Hstep.
    unfold CACHE_ROUNDS in Hstep. lia. }
  rewrite Hdata, !bind_Return in H. cbn [cache_data] in H.
  destruct (generate_outcome callback (get_full_size block_number) data)
    as [_ Hgo2].
  destruct Hgo2 as [data' Hdata'].
  { intros step Hstep. apply Hall3. fold nd in Hstep. lia. }
  rewrite Hdata', bind_Return in H. discriminate.
Qed.

Lemma get_dag_throws callback block_number st e :
  dag_cache st !! (block_number / EPOCH_LENGTH) = None ->
  dag_new block_number callback = Throw e ->
  get_dag block_number callback st = (Throw e, st).
Proof.
  intros Hnone Hthrow. unfold get_dag, run. cbn [fold_left].
  assert (H1 : schedule_step ([Requested block_number callback], st) 0
               = ([Constructing block_number callback], st)).
  { unfold schedule_step. cbn [fst snd lookup list_lookup thread_step].
    rewrite Hnone. reflexivity. }
  rewrite H1.
  assert (H2 : schedule_step ([Constructing block_number callback], st) 0
               = ([Thrown block_number e], st)).
  { unfold schedule_step. cbn [fst snd lookup list_lookup thread_step].
    rewrite Hthrow. reflexivity. }
  rewrite H2. reflexivity.
Qed.

(** ** The DAG file *)

Lemma byte_to_of_Z z : byte_to_Z (byte_of_Z z) = z mod 256.
Proof.
  unfold byte_to_Z, byte_of_Z.
  pose proof (Z.mod_pos_bound z 256 ltac:(lia)) as Hb.
  destruct (Byte.of_N (Z.to_N (z mod 256))) as [b|] eqn:E.
  - apply Byte.to_of_N in E. rewrite E. lia.
  - apply Byte.of_N_None_iff in E. lia.
Qed.

Lemma le_bytes_S count x :
  le_bytes (S count) x = byte_of_Z x :: le_bytes count (Z.shiftr x 8).
Proof.
  unfold le_bytes. cbn [seq map]. rewrite Z.shiftr_0_r. f_equal.
  rewrite <- seq_shift, map_map. apply map_ext. intros k.
  rewrite Z.shiftr_shiftr by lia. f_equal. f_equal. lia.
Qed.

Lemma le_bytes_length count x : length (le_bytes count x) = count.
Proof. unfold le_bytes. rewrite length_map, length_seq. reflexivity. Qed.

Lemma from_le_le_bytes count x :
  from_le (le_bytes count x) = x mod 2 ^ (8 * Z.of_nat count).
Proof.
  revert x. induction count as [|count IH]; intros x.
  - cbn. rewrite Z.mod_1_r. reflexivity.
  - rewrite le_bytes_S. cbn [from_le fold_right]. fold (from_le (le_bytes count (Z.shiftr x 8))).
    rewrite IH, byte_to_of_Z, Z.shiftr_div_pow2 by lia.
    replace (8 * Z.of_nat (S count)) with (8 + 8 * Z.of_nat count) by lia.
    rewrite Z.pow_add_r by lia.
    change (2 ^ 8) with 256.
    rewrite Z.rem_mul_r by lia. reflexivity.
Qed.

Lemma read_app count (a b : list byte) :
  length a = count -> read count (a ++ b) = (a, b).
Proof.
  intros <-. unfold read. rewrite take_app_length, drop_app_length. reflexivity.
Qed.

Lemma save_items_file callback max items count fs count' fs' :
  save_items callback max items count fs = (Return count', fs') ->
  fs' = fs ++ flat_map (flat_map (le_bytes 4)) items.
Proof.
  revert count fs. induction items as [|i items IH]; intros count fs H.
  - cbn in H. injection H as _ <-. cbn. rewrite app_nil_r. reflexivity.
  - cbn [save_items] in H.
    destruct (_ && _) in H; [discriminate|].
    apply IH in H. rewrite H. cbn [flat_map]. rewrite app_assoc. reflexivity.
Qed.

Lemma items_bytes_length (items : list (list Z)) :
  Forall (fun i => length i = 16%nat) items ->
  Z.of_nat (length (flat_map (flat_map (le_bytes 4)) items))
  = HASH_BYTES * Z.of_nat (length items).
Proof.
  induction 1 as [|i items Hi _ IH]; [reflexivity|].
  cbn [flat_map length]. rewrite length_app, Nat2Z.inj_add, IH.
  fold (object_bytes i). rewrite object_bytes_length, Hi.
  unfold HASH_BYTES. lia.
Qed.

Lemma save_file d callback :
  fst (save d callback) = Return tt ->
  snd (save d callback)
  = save_header d
    ++ flat_map (flat_map (le_bytes 4)) (cache_data (dag_cache_of d))
    ++ flat_map (flat_map (le_bytes 4)) (dag_data d).
Proof.
  unfold save.
  destruct (save_items callback _ (cache_data (dag_cache_of d)) 0 (save_header d))
    as [[count|e] fs1] eqn:E1; [|discriminate].
  destruct (save_items callback _ (dag_data d) count fs1)
    as [[count'|e] fs2] eqn:E2; [|discriminate].
  intros _. cbn [snd].
  apply save_items_file in E1. apply save_items_file in E2.
  rewrite E2, E1, <- app_assoc. reflexivity.
Qed.

Ltac read_step :=
  rewrite read_app by (first [reflexivity | apply le_bytes_length]);
  cbv beta iota.

Lemma load_validate_saved d callback :
  well_formed d ->
  fst (save d callback) = Return tt ->
  load_validate (snd (save d callback)) = Throw (HashException "DAG is corrupt")
  \/ load_validate (snd (save d callback))
     = Throw (HashException "DAG cache is corrupt").
Proof.
  intros [Hepoch Hci Hdi Hcs Hds Hrange] Hsave.
  rewrite (save_file d callback Hsave).
  assert (Hc0 : 0 <= cache_size (dag_cache_of d)) by (unfold HASH_BYTES in Hcs; lia).
  assert (Hd0 : 0 <= dag_size d) by (unfold HASH_BYTES in Hds; lia).
  unfold load_validate.
  match goal with
  | |- context [Z.of_nat (length ?f) <? 1090516865] =>
      set (filesize := Z.of_nat (length f)) in *;
      assert (Hsize : filesize = 65 + cache_size (dag_cache_of d) + dag_size d)
  end.
  { unfold filesize. rewrite !length_app, !Nat2Z.inj_add.
    rewrite (items_bytes_length _ Hci), (items_bytes_length _ Hdi), <- Hcs, <- Hds.
    unfold save_header. rewrite !length_app, !le_bytes_length. cbn [length DAG_MAGIC_BYTES].
    lia. }
  destruct (filesize <? 1090516865); [left; reflexivity|].
  unfold save_header. rewrite <- !app_assoc.
  do 2 read_step.
  rewrite bool_decide_eq_true_2 by reflexivity. cbn [negb].
  do 3 read_step.
  rewrite !from_le_le_bytes.
  change (negb (MAJOR_VERSION mod 2 ^ (8 * Z.of_nat 4) =? MAJOR_VERSION)
          || negb (REVISION mod 2 ^ (8 * Z.of_nat 4) =? REVISION)) with false.
  cbv iota.
  do 6 read_step.
  rewrite !from_le_le_bytes.
  change (2 ^ (8 * Z.of_nat 8)) with (2 ^ 64).
  match goal with
  | |- context [if ?c then Throw (HashException "DAG cache is corrupt") else _] =>
      destruct c; [right; reflexivity|]
  end.
  left.
  match goal with
  | |- context [filesize <? ?e] =>
      assert (Hlt : (filesize <? e) = true)
  end.
  { apply Z.ltb_lt. unfold to_uint64, DAG_FILE_HEADER_SIZE, sizeof_DAG_MAGIC_BYTES.
    rewrite !Z.mod_mod by lia.
    rewrite (Z.mod_small (12 + 5 * 8 + 3 * 4 + 2 + cache_size (dag_cache_of d)))
      by lia.
    rewrite Z.mod_small by lia. lia. }
  rewrite Hlt, !orb_true_r. reflexivity.
Qed.

Lemma load_data callback this file d' :
  load this file callback = Return d' ->
  dag_data d' = resize (Z.to_nat (dag_size d' / HASH_BYTES)) [] (dag_data this)
  /\ cache_data (dag_cache_of d')
     = resize (Z.to_nat (cache_size (dag_cache_of d') / HASH_BYTES)) []
         (cache_data (dag_cache_of this)).
Proof.
  unfold load. intros H.
  destruct (load_validate file) as [[[[epoch csize] size] fs]|e]; [|discriminate].
  rewrite bind_Return in H. cbv beta iota in H.
  unfold cache_load in H.
  destruct (load_items callback cache_loading _ _ _ 0 fs) as [st|e];
    [|discriminate].
  rewrite !bind_Return in H. cbn [fst snd cache_size cache_data] in H.
  destruct (load_items callback dag_loading _ _ _ 0 (snd st)) as [st'|e];
    [|discriminate].
  rewrite bind_Return in H. injection H as <-.
  cbn [dag_data dag_size dag_cache_of cache_data cache_size].
  split; reflexivity.
Qed.

(** C7: loading never gives the saved handle back.  The public
    [get_dag(file_path, callback)] returns the empty pointer for every
    file and leaves the process as it is; [load] rejects every file
    that a completed [save] of a well-formed handle wrote, because
    [save] records offsets for a 66-byte header and writes 65 bytes;
    and whatever file [load] accepts, the items it returns are the
    resized old vectors, none of the bytes read: after the constructor
    from a file every DAG item is empty. *)
Theorem load_does_not_restore_saved_dag :
  (forall file callback st, get_dag_file file callback st = (None, st))
  /\ (forall d callback this callback',
        well_formed d ->
        fst (save d callback) = Return tt ->
        exists e, load this (snd (save d callback)) callback' = Throw e)
  /\ (forall file callback d',
        dag_new_from_file file callback = Return d' ->
        dag_data d' = replicate (Z.to_nat (dag_size d' / HASH_BYTES)) []).
Proof.
  split; [reflexivity|]. split.
  - intros d callback this callback' Hwf Hsave. unfold load.
    destruct (load_validate_saved d callback Hwf Hsave) as [-> | ->];
      eexists; reflexivity.
  - intros file callback d' H. unfold dag_new_from_file in H.
    destruct (cache_new max_epoch [] (fun _ _ _ => true)) as [cache|e];
      [|discriminate].
    rewrite bind_Return in H. apply load_data in H as [H _].
    cbn [dag_data] in H. rewrite H. unfold resize.
    rewrite take_nil, Nat.sub_0_r. reflexivity.
Qed.

(** ** Light and full evaluation on the handle of an epoch *)

Lemma dag_new_generate block_number callback d :
  dag_new block_number callback = Return d ->
  dag_size d = get_full_size block_number
  /\ generate (get_full_size block_number) (cache_data (dag_cache_of d)) callback
     = Return (dag_data d).
Proof.
  unfold dag_new. intros H.
  destruct (cache_new block_number (get_seedhash block_number) callback)
    as [cache|e]; [|discriminate].
  rewrite bind_Return in H.
  destruct (generate (get_full_size block_number) (cache_data cache) callback)
    as [data|e] eqn:E; [|discriminate].
  rewrite bind_Return in H. injection H as <-.
  cbn [dag_size dag_cache_of dag_data]. split; [reflexivity|assumption].
Qed.

Lemma get_full_size_items block_number :
  2 <= get_full_size block_number / HASH_BYTES.
Proof.
  destruct (get_full_size_prime block_number) as [[Hp _] _].
  unfold MIX_BYTES, HASH_BYTES in *.
  pose proof (Z.mul_div_le (get_full_size block_number) 128 ltac:(lia)).
  apply Z.div_le_lower_bound; lia.
Qed.

(** For the handle that [dag_new] constructs for any block number, the
    two evaluations agree. *)
Corollary hashimoto_light_full_agree_on_handle
    (block_number : Z) (callback : progress_callback_type) (d : dag_t)
    (header : list Z) (nonce : Z) :
  dag_new block_number callback = Return d ->
  hashimoto_full (dag_size d) d header nonce
  = hashimoto_light (dag_size d) (dag_cache_of d) header nonce.
Proof.
  intros H. apply dag_new_generate in H as [Hsize Hgen].
  unfold hashimoto_full, hashimoto_light. rewrite Hsize.
  apply hashimoto_agree; [apply get_full_size_items|].
  intros x Hx. eapply generate_lookup; eassumption.
Qed.

(** ** The word codec and the integer helpers, property by property *)

Lemma byte_to_Z_range b : 0 <= byte_to_Z b < 256.
Proof.
  unfold byte_to_Z. pose proof (Byte.to_N_bounded b). lia.
Qed.

Lemma byte_of_Z_mod a b : a mod 256 = b mod 256 -> byte_of_Z a = byte_of_Z b.
Proof. unfold byte_of_Z. intros ->. reflexivity. Qed.

Lemma byte_of_to_Z b : byte_of_Z (byte_to_Z b) = b.
Proof.
  pose proof (byte_to_Z_range b) as Hr.
  unfold byte_of_Z, byte_to_Z in *.
  rewrite Z.mod_small, N2Z.id, Byte.of_to_N by lia. reflexivity.
Qed.

Lemma byte_of_Z_inj a b :
  0 <= a < 256 -> 0 <= b < 256 -> byte_of_Z a = byte_of_Z b -> a = b.
Proof.
  intros Ha Hb H. apply (f_equal byte_to_Z) in H.
  rewrite !byte_to_of_Z, !Z.mod_small in H by lia. exact H.
Qed.

Lemma to_int32_range z : - 2 ^ 31 <= to_int32 z < 2 ^ 31.
Proof.
  unfold to_int32. pose proof (Z.mod_pos_bound (z + 2 ^ 31) (2 ^ 32) ltac:(lia)).
  lia.
Qed.

Lemma to_int32_small z : - 2 ^ 31 <= z < 2 ^ 31 -> to_int32 z = z.
Proof.
  intros H. unfold to_int32. rewrite Z.mod_small; lia.
Qed.

Lemma to_int32_to_uint32 z : to_int32 (to_uint32 z) = to_int32 z.
Proof.
  unfold to_int32, to_uint32.
  rewrite Zplus_mod_idemp_l. reflexivity.
Qed.

Lemma to_uint32_range z : 0 <= to_uint32 z < 2 ^ 32.
Proof. unfold to_uint32. apply Z.mod_pos_bound. lia. Qed.

Lemma lor_add_disjoint a y k :
  0 <= k -> a mod 2 ^ k = 0 -> 0 <= y < 2 ^ k -> Z.lor a y = a + y.
Proof.
  intros Hk Ha Hy. symmetry. apply Z.add_nocarry_lor.
  apply Z.bits_inj'. intros n Hn. rewrite Z.land_spec, Z.bits_0.
  destruct (Z.lt_ge_cases n k) as [Hlt|Hge].
  - enough (Hbit : Z.testbit a n = false) by (rewrite Hbit; reflexivity).
    apply Z.testbit_false; [assumption|].
    assert (Hpow : 2 ^ k = 2 ^ n * 2 ^ (k - n))
      by (rewrite <- Z.pow_add_r by lia; f_equal; lia).
    apply Z.mod_divide in Ha; [|lia]. destruct Ha as [q ->].
    rewrite Hpow.
    replace (q * (2 ^ n * 2 ^ (k - n))) with (q * 2 ^ (k - n) * 2 ^ n) by ring.
    rewrite Z.div_mul by (apply Z.pow_nonzero; lia).
    replace (k - n) with (Z.succ (k - n - 1)) by lia.
    rewrite Z.pow_succ_r by lia.
    replace (q * (2 * 2 ^ (k - n - 1))) with (q * 2 ^ (k - n - 1) * 2) by ring.
    apply Z.mod_mul. lia.
  - destruct (Z.eq_dec y 0) as [->|Hy0].
    + rewrite Z.bits_0. apply andb_false_r.
    + rewrite (Z.bits_above_log2 y n); [apply andb_false_r|lia|].
      assert (Z.log2 y < k) by (apply Z.log2_lt_pow2; lia). lia.
Qed.

(** The four bytes that [decode_int] combines are disjoint bit
    fields, so the bitwise "or" is a sum. *)
Lemma decode_int_sum arr off end_off :
  (off + 3 <= end_off)%nat ->
  decode_int arr off end_off
  = to_int32 (byte_to_Z (nth off arr x00) * 2 ^ 24
              + byte_to_Z (nth (off + 1) arr x00) * 2 ^ 16
              + byte_to_Z (nth (off + 2) arr x00) * 2 ^ 8
              + byte_to_Z (nth (off + 3) arr x00)).
Proof.
  intros Hend. unfold decode_int.
  destruct (Nat.ltb_spec end_off (off + 3)) as [|_]; [lia|].
  generalize (byte_to_Z_range (nth off arr x00)),
             (byte_to_Z_range (nth (off + 1) arr x00)),
             (byte_to_Z_range (nth (off + 2) arr x00)),
             (byte_to_Z_range (nth (off + 3) arr x00)).
  generalize (byte_to_Z (nth off arr x00)), (byte_to_Z (nth (off + 1) arr x00)),
             (byte_to_Z (nth (off + 2) arr x00)), (byte_to_Z (nth (off + 3) arr x00)).
  intros b0 b1 b2 b3 H0 H1 H2 H3.
  rewrite !Z.shiftl_mul_pow2 by lia.
  change (2 ^ 24) with 16777216. change (2 ^ 16) with 65536.
  change (2 ^ 8) with 256.
  f_equal.
  rewrite (lor_add_disjoint (b0 * 16777216) (b1 * 65536) 24);
    [|lia|apply (Z.mod_mul b0 (2 ^ 24)); lia|change (2 ^ 24) with 16777216; lia].
  rewrite (lor_add_disjoint (b0 * 16777216 + b1 * 65536) (b2 * 256) 16);
    [|lia|change (2 ^ 16) with 65536; Z.div_mod_to_equations; lia
      |change (2 ^ 16) with 65536; lia].
  rewrite (lor_add_disjoint (b0 * 16777216 + b1 * 65536 + b2 * 256) b3 8);
    [|lia|change (2 ^ 8) with 256; Z.div_mod_to_equations; lia
      |change (2 ^ 8) with 256; lia].
  reflexivity.
Qed.

(** X1: [deserialize] reads every word of the array most significant
    byte first, as a signed 32-bit value: word [j] is the 32-bit
    two's-complement value of [b0 * 2^24 + b1 * 2^16 + b2 * 2^8 + b3]
    for the bytes at [4 j .. 4 j + 3].  The guard of [decode_int] never
    fires for a word inside the array. *)
Theorem deserialize_reads_big_endian_words
    (hash_size : nat) (data : list byte) (j : nat) :
  (j < hash_size / 4)%nat ->
  exists w,
    deserialize hash_size data !! j = Some w
    /\ w = to_int32 (byte_to_Z (nth (4 * j) data x00) * 2 ^ 24
                     + byte_to_Z (nth (4 * j + 1) data x00) * 2 ^ 16
                     + byte_to_Z (nth (4 * j + 2) data x00) * 2 ^ 8
                     + byte_to_Z (nth (4 * j + 3) data x00))
    /\ - 2 ^ 31 <= w < 2 ^ 31.
Proof.
  intros Hj. eexists. split; [|split; [reflexivity|apply to_int32_range]].
  unfold deserialize. rewrite list_lookup_fmap, lookup_seq_lt by assumption.
  cbn [fmap option_fmap option_map Nat.add]. f_equal.
  apply decode_int_sum.
  pose proof (Nat.div_mod_eq hash_size 4). lia.
Qed.

(** The hexadecimal digits of a non-zero 32-bit pattern, by the number
    of digits. *)
Lemma hex_digits_step fuel u acc :
  u <> 0 ->
  hex_digits (S fuel) u acc = hex_digits fuel (u / 16) (u mod 16 :: acc).
Proof.
  intros H. cbn [hex_digits].
  destruct (Z.eqb_spec u 0); [contradiction|reflexivity].
Qed.

Lemma hex_digits_zero fuel acc : hex_digits fuel 0 acc = acc.
Proof. destruct fuel; reflexivity. Qed.

Ltac bytes_eq :=
  repeat match goal with
  | |- _ :: _ = _ :: _ => apply f_equal2; [apply byte_of_Z_mod|]
  | |- [] = [] => reflexivity
  | |- @eq (list _) _ _ => exfalso
  end.

Lemma encode_int_bytes x :
  - 2 ^ 31 <= x < 2 ^ 31 -> x <> 0 ->
  let u := to_uint32 x in
  encode_int x =
    if 2 ^ 24 <=? u then
      [byte_of_Z (u / 2 ^ 24); byte_of_Z (u / 2 ^ 16); byte_of_Z (u / 2 ^ 8);
       byte_of_Z u]
    else if 2 ^ 16 <=? u then
      [byte_of_Z (u / 2 ^ 16); byte_of_Z (u / 2 ^ 8); byte_of_Z u]
    else if 2 ^ 8 <=? u then [byte_of_Z (u / 2 ^ 8); byte_of_Z u]
    else [byte_of_Z u].
Proof.
  intros Hx Hx0 u.
  assert (Hu : 0 < u < 2 ^ 32).
  { subst u. unfold to_uint32. change (2 ^ 31) with 2147483648 in Hx.
    change (2 ^ 32) with 4294967296. Z.div_mod_to_equations. lia. }
  unfold encode_int, hex_str. fold u.
  destruct (Z.eqb_spec x 0) as [|_]; [contradiction|].
  destruct (Z.eqb_spec u 0) as [|_]; [lia|].
  cbv zeta. clearbody u.
  change (2 ^ 32) with 4294967296 in Hu.
  change (2 ^ 24) with 16777216. change (2 ^ 16) with 65536.
  change (2 ^ 8) with 256.
  assert (Hdigits : 268435456 <= u \/ 16777216 <= u < 268435456
                    \/ 1048576 <= u < 16777216 \/ 65536 <= u < 1048576
                    \/ 4096 <= u < 65536 \/ 256 <= u < 4096
                    \/ 16 <= u < 256 \/ u < 16) by lia.
  destruct Hdigits as [H|[H|[H|[H|[H|[H|[H|H]]]]]]];
    repeat (rewrite hex_digits_step by (Z.div_mod_to_equations; lia));
    try match goal with
        | |- context [hex_digits (S ?f) ?z ?acc] =>
            replace z with 0 by (Z.div_mod_to_equations; lia);
            rewrite hex_digits_zero
        end;
    cbn [hex_digits length Nat.modulo Nat.divmod Nat.sub snd fst replicate app
         hex_pairs];
    repeat match goal with
    | |- context [if ?a <=? ?b then _ else _] =>
        destruct (Z.leb_spec a b); [try lia|try lia]
    end;
    bytes_eq; Z.div_mod_to_equations; lia.
Qed.

Lemma zpad_encode_int_length x : length (zpad (encode_int x) 4) = 4%nat.
Proof.
  unfold zpad. pose proof (encode_int_length x).
  rewrite length_app, length_replicate. lia.
Qed.

(** X2: [serialize] writes a word as the bytes of its 32-bit
    pattern, most significant first and without the leading zero
    bytes, and fills up to four bytes with zeros on the right; the zero
    word becomes four zero bytes. *)
Theorem serialize_word_format (x : Z) :
  - 2 ^ 31 <= x < 2 ^ 31 ->
  let u := to_uint32 x in
  serialize [x] =
    if 2 ^ 24 <=? u then
      [byte_of_Z (u / 2 ^ 24); byte_of_Z (u / 2 ^ 16); byte_of_Z (u / 2 ^ 8);
       byte_of_Z u]
    else if 2 ^ 16 <=? u then
      [byte_of_Z (u / 2 ^ 16); byte_of_Z (u / 2 ^ 8); byte_of_Z u; x00]
    else if 2 ^ 8 <=? u then [byte_of_Z (u / 2 ^ 8); byte_of_Z u; x00; x00]
    else [byte_of_Z u; x00; x00; x00].
Proof.
  intros Hx u. unfold serialize. cbn [flat_map]. rewrite app_nil_r.
  destruct (Z.eq_dec x 0) as [->|Hx0].
  - reflexivity.
  - rewrite (encode_int_bytes x Hx Hx0). fold u.
    destruct (2 ^ 24 <=? u); [reflexivity|].
    destruct (2 ^ 16 <=? u); [reflexivity|].
    destruct (2 ^ 8 <=? u); reflexivity.
Qed.

(** The word that comes back when the four bytes of one serialized
    word are decoded. *)
Lemma decode_encoded_word x :
  - 2 ^ 31 <= x < 2 ^ 31 ->
  let u := to_uint32 x in
  decode_int (zpad (encode_int x) 4) 0 3 =
    to_int32 (if 2 ^ 24 <=? u then u
              else if 2 ^ 16 <=? u then u * 2 ^ 8
              else if 2 ^ 8 <=? u then u * 2 ^ 16
              else u * 2 ^ 24).
Proof.
  intros Hx u.
  rewrite decode_int_sum by lia.
  assert (Hu : 0 <= u < 2 ^ 32) by apply to_uint32_range.
  destruct (Z.eq_dec x 0) as [->|Hx0]; [reflexivity|].
  rewrite (encode_int_bytes x Hx Hx0). fold u.
  change (2 ^ 32) with 4294967296 in Hu.
  change (2 ^ 24) with 16777216. change (2 ^ 16) with 65536.
  change (2 ^ 8) with 256.
  destruct (Z.leb_spec 16777216 u);
    [|destruct (Z.leb_spec 65536 u); [|destruct (Z.leb_spec 256 u)]];
    cbn [zpad length Nat.sub replicate app nth Nat.add];
    rewrite ?byte_to_of_Z; change (byte_to_Z x00) with 0;
    f_equal; Z.div_mod_to_equations; lia.
Qed.

Lemma serialize_nth h j r :
  (j < length h)%nat -> (r < 4)%nat ->
  nth (4 * j + r) (serialize h) x00
  = nth r (zpad (encode_int (nth j h 0)) 4) x00.
Proof.
  revert j. induction h as [|x h IH]; intros j Hj Hr; [simpl in Hj; lia|].
  unfold serialize. cbn [flat_map]. fold (serialize h).
  pose proof (zpad_encode_int_length x) as Hlen.
  destruct j as [|j].
  - cbn [Nat.mul Nat.add nth]. rewrite app_nth1 by lia. reflexivity.
  - rewrite app_nth2 by lia. rewrite Hlen.
    replace (4 * S j + r - 4)%nat with (4 * j + r)%nat by lia.
    cbn [nth]. apply IH; [simpl in Hj; lia|assumption].
Qed.

Lemma map_nth_seq_id (h : list Z) :
  map (fun j => nth j h 0) (seq 0 (length h)) = h.
Proof.
  induction h as [|x h IH]; [reflexivity|].
  cbn [length seq map nth]. f_equal.
  rewrite <- seq_shift, map_map. exact IH.
Qed.

Lemma deserialize_serialize_words h :
  deserialize (4 * length h) (serialize h)
  = map (fun x => decode_int (zpad (encode_int x) 4) 0 3) h.
Proof.
  unfold deserialize.
  replace (4 * length h / 4)%nat with (length h)
    by (rewrite Nat.mul_comm, Nat.div_mul; lia).
  transitivity (map (fun x => decode_int (zpad (encode_int x) 4) 0 3)
                  (map (fun j => nth j h 0) (seq 0 (length h))));
    [|rewrite map_nth_seq_id; reflexivity].
  rewrite map_map. apply map_ext_in. intros j Hj. apply in_seq in Hj.
  rewrite !decode_int_sum by lia.
  rewrite <- (Nat.add_0_r (4 * j)) at 1.
  rewrite !serialize_nth by lia. reflexivity.
Qed.

(** X3: a word vector survives [serialize] followed by [deserialize]
    when every word is zero or has a non-zero most significant byte
    (every negative word has one); any other word comes back
    changed. *)
Theorem words_survive_serialize_deserialize :
  (forall h,
     Forall (fun x => - 2 ^ 31 <= x < 2 ^ 31
                      /\ (x = 0 \/ 2 ^ 24 <= to_uint32 x)) h ->
     deserialize (4 * length h) (serialize h) = h)
  /\ (forall x,
        - 2 ^ 31 <= x < 2 ^ 31 -> 0 < to_uint32 x < 2 ^ 24 ->
        deserialize 4 (serialize [x]) <> [x]).
Proof.
  split.
  - intros h Hh. rewrite deserialize_serialize_words.
    rewrite <- (map_id h) at 2. apply map_ext_Forall.
    eapply Forall_impl; [exact Hh|]. cbn beta.
    intros x [Hx Hcase]. rewrite (decode_encoded_word x Hx).
    destruct Hcase as [->|Hu]; [reflexivity|].
    destruct (Z.leb_spec (2 ^ 24) (to_uint32 x)); [|lia].
    rewrite to_int32_to_uint32. apply to_int32_small. exact Hx.
  - intros x Hx Hu Heq.
    change 4%nat with (4 * length [x])%nat in Heq.
    rewrite deserialize_serialize_words in Heq. cbn [map] in Heq.
    injection Heq as Heq. rewrite (decode_encoded_word x Hx) in Heq.
    revert Heq. unfold to_int32, to_uint32 in *.
    change (2 ^ 32) with 4294967296 in *. change (2 ^ 31) with 2147483648 in *.
    change (2 ^ 24) with 16777216 in *. change (2 ^ 16) with 65536.
    change (2 ^ 8) with 256.
    destruct (Z.leb_spec 16777216 (x mod 4294967296)); [lia|].
    destruct (Z.leb_spec 65536 (x mod 4294967296));
      [|destruct (Z.leb_spec 256 (x mod 4294967296))];
      Z.div_mod_to_equations; lia.
Qed.

(** *** From bytes to words and back *)

Lemma to_uint32_to_int32 z : to_uint32 (to_int32 z) = to_uint32 z.
Proof.
  unfold to_uint32, to_int32.
  change (2 ^ 32) with 4294967296. change (2 ^ 31) with 2147483648.
  Z.div_mod_to_equations. lia.
Qed.

Lemma byte_to_Z_zero b : byte_to_Z b = 0 -> b = x00.
Proof.
  intros H. rewrite <- (byte_of_to_Z b), H. reflexivity.
Qed.

Lemma deserialize_cons4 m b0 b1 b2 b3 (d : list byte) :
  deserialize (4 * S m) (b0 :: b1 :: b2 :: b3 :: d)
  = decode_int [b0; b1; b2; b3] 0 3 :: deserialize (4 * m) d.
Proof.
  unfold deserialize.
  replace (4 * S m / 4)%nat with (S m)
    by (rewrite Nat.mul_comm, Nat.div_mul; lia).
  replace (4 * m / 4)%nat with m by (rewrite Nat.mul_comm, Nat.div_mul; lia).
  cbn [seq map]. f_equal.
  - rewrite !decode_int_sum by lia. reflexivity.
  - rewrite <- seq_shift, map_map. apply map_ext_in.
    intros j Hj. apply in_seq in Hj.
    rewrite !decode_int_sum by lia.
    replace (4 * S j)%nat with (S (S (S (S (4 * j))))) by lia.
    cbn [nth Nat.add]. reflexivity.
Qed.

Lemma group_round_trip b0 b1 b2 b3 :
  b0 <> x00 \/ (b0 = x00 /\ b1 = x00 /\ b2 = x00 /\ b3 = x00) ->
  zpad (encode_int (decode_int [b0; b1; b2; b3] 0 3)) 4 = [b0; b1; b2; b3].
Proof.
  intros [Hb0|(-> & -> & -> & ->)]; [|reflexivity].
  rewrite decode_int_sum by lia. cbn [nth Nat.add].
  pose proof (byte_to_Z_range b0) as H0. pose proof (byte_to_Z_range b1) as H1.
  pose proof (byte_to_Z_range b2) as H2. pose proof (byte_to_Z_range b3) as H3.
  assert (Hnz : byte_to_Z b0 <> 0) by (intros H; apply Hb0, byte_to_Z_zero, H).
  set (B := byte_to_Z b0 * 2 ^ 24 + byte_to_Z b1 * 2 ^ 16
            + byte_to_Z b2 * 2 ^ 8 + byte_to_Z b3).
  assert (HB : 2 ^ 24 <= B < 2 ^ 32) by (unfold B; lia).
  assert (Hu : to_uint32 (to_int32 B) = B).
  { rewrite to_uint32_to_int32. unfold to_uint32. apply Z.mod_small. lia. }
  rewrite encode_int_bytes;
    [|apply to_int32_range
     |intros Hw; rewrite Hw in Hu; unfold to_uint32 in Hu;
      rewrite Z.mod_0_l in Hu by lia; lia].
  rewrite Hu. destruct (Z.leb_spec (2 ^ 24) B); [|lia].
  unfold zpad. cbn [length Nat.sub replicate app].
  assert (Hbyte : forall z b, z mod 256 = byte_to_Z b -> byte_of_Z z = b).
  { intros z b Hz. rewrite <- (byte_of_to_Z b). apply byte_of_Z_mod.
    rewrite Hz. symmetry. apply Z.mod_small, byte_to_Z_range. }
  unfold B in *. change (2 ^ 32) with 4294967296 in *.
  change (2 ^ 24) with 16777216 in *. change (2 ^ 16) with 65536 in *.
  change (2 ^ 8) with 256 in *.
  repeat (apply f_equal2; [apply Hbyte; Z.div_mod_to_equations; lia|]).
  reflexivity.
Qed.

Lemma group_changed b1 b2 b3 :
  ~ (b1 = x00 /\ b2 = x00 /\ b3 = x00) ->
  exists b rest,
    zpad (encode_int (decode_int [x00; b1; b2; b3] 0 3)) 4 = b :: rest
    /\ b <> x00.
Proof.
  intros Hne.
  rewrite decode_int_sum by lia. cbn [nth Nat.add].
  change (byte_to_Z x00) with 0.
  pose proof (byte_to_Z_range b1) as H1. pose proof (byte_to_Z_range b2) as H2.
  pose proof (byte_to_Z_range b3) as H3.
  assert (Hnz : byte_to_Z b1 <> 0 \/ byte_to_Z b2 <> 0 \/ byte_to_Z b3 <> 0).
  { destruct (Z.eq_dec (byte_to_Z b1) 0) as [E1|]; [|left; assumption].
    destruct (Z.eq_dec (byte_to_Z b2) 0) as [E2|]; [|right; left; assumption].
    destruct (Z.eq_dec (byte_to_Z b3) 0) as [E3|]; [|right; right; assumption].
    exfalso. apply Hne. repeat split; apply byte_to_Z_zero; assumption. }
  revert H1 H2 H3 Hnz.
  generalize (byte_to_Z b1), (byte_to_Z b2), (byte_to_Z b3).
  intros z1 z2 z3 H1 H2 H3 Hnz.
  set (B := 0 * 2 ^ 24 + z1 * 2 ^ 16 + z2 * 2 ^ 8 + z3).
  assert (HB : 0 < B < 2 ^ 24) by (unfold B; lia).
  assert (Hw : to_int32 B = B) by (apply to_int32_small; lia).
  assert (Hu : to_uint32 B = B) by (unfold to_uint32; apply Z.mod_small; lia).
  rewrite Hw, encode_int_bytes by lia. rewrite Hu.
  assert (Hbyte : forall z, 0 < z < 256 -> byte_of_Z z <> x00).
  { intros z Hz H. apply (byte_of_Z_inj z 0) in H; lia. }
  clearbody B.
  change (2 ^ 24) with 16777216 in *. change (2 ^ 16) with 65536.
  change (2 ^ 8) with 256.
  destruct (Z.leb_spec 16777216 B); [lia|].
  destruct (Z.leb_spec 65536 B); [|destruct (Z.leb_spec 256 B)];
    unfold zpad; cbn [length Nat.sub replicate app];
    eexists; eexists; (split; [reflexivity|]);
    apply Hbyte; Z.div_mod_to_equations; lia.
Qed.

Lemma serialize_deserialize_groups m : forall data : list byte,
  length data = (4 * m)%nat ->
  (forall j, (j < m)%nat ->
     nth (4 * j) data x00 <> x00
     \/ (nth (4 * j) data x00 = x00 /\ nth (4 * j + 1) data x00 = x00
         /\ nth (4 * j + 2) data x00 = x00 /\ nth (4 * j + 3) data x00 = x00)) ->
  serialize (deserialize (4 * m) data) = data.
Proof.
  induction m as [|m IH]; intros data Hlen Hgroups.
  - destruct data; [reflexivity|discriminate].
  - destruct data as [|b0 [|b1 [|b2 [|b3 d]]]]; try (simpl in Hlen; lia).
    rewrite deserialize_cons4. unfold serialize. cbn [flat_map].
    fold (serialize (deserialize (4 * m) d)).
    rewrite group_round_trip by (exact (Hgroups 0%nat ltac:(lia))).
    rewrite IH; [reflexivity|simpl in Hlen; lia|].
    intros j Hj. specialize (Hgroups (S j) ltac:(lia)).
    replace (4 * S j)%nat with (S (S (S (S (4 * j))))) in Hgroups by lia.
    cbn [nth Nat.add] in Hgroups. exact Hgroups.
Qed.

(** X4: a byte string of whole words survives [deserialize] followed
    by [serialize], the path every digest takes before it is hashed
    again, when each group of four bytes starts with a non-zero byte
    or is zero throughout; a group that starts with a zero byte and is
    not zero throughout comes back changed. *)
Theorem bytes_survive_deserialize_serialize :
  (forall (m : nat) (data : list byte),
     length data = (4 * m)%nat ->
     (forall j, (j < m)%nat ->
        nth (4 * j) data x00 <> x00
        \/ (nth (4 * j) data x00 = x00 /\ nth (4 * j + 1) data x00 = x00
            /\ nth (4 * j + 2) data x00 = x00
            /\ nth (4 * j + 3) data x00 = x00)) ->
     serialize (deserialize (4 * m) data) = data)
  /\ (forall b1 b2 b3,
        ~ (b1 = x00 /\ b2 = x00 /\ b3 = x00) ->
        serialize (deserialize 4 [x00; b1; b2; b3]) <> [x00; b1; b2; b3]).
Proof.
  split; [exact serialize_deserialize_groups|].
  intros b1 b2 b3 Hne Heq.
  change 4%nat with (4 * 1)%nat in Heq. rewrite deserialize_cons4 in Heq.
  change (deserialize (4 * 0) []) with (@nil Z) in Heq.
  unfold serialize in Heq. cbn [flat_map] in Heq. rewrite app_nil_r in Heq.
  destruct (group_changed b1 b2 b3 Hne) as (b & rest & Hz & Hb).
  rewrite Hz in Heq. injection Heq as Hb0 _. contradiction.
Qed.

(** *** The FNV mixing function *)

(** The bitwise "exclusive or" of two 32-bit values is a 32-bit value. *)
Lemma lxor_uint32 a b :
  0 <= a < 2 ^ 32 -> 0 <= b < 2 ^ 32 -> 0 <= Z.lxor a b < 2 ^ 32.
Proof.
  intros Ha Hb. split; [apply Z.lxor_nonneg; lia|].
  destruct (Z.eq_dec (Z.lxor a b) 0) as [->|Hne]; [lia|].
  assert (0 <= Z.lxor a b) by (apply Z.lxor_nonneg; lia).
  apply Z.log2_lt_pow2; [lia|].
  pose proof (Z.log2_lxor a b ltac:(lia) ltac:(lia)).
  assert (Z.log2 a < 32).
  { destruct (Z.eq_dec a 0) as [->|]; [reflexivity|].
    apply Z.log2_lt_pow2; lia. }
  assert (Z.log2 b < 32).
  { destruct (Z.eq_dec b 0) as [->|]; [reflexivity|].
    apply Z.log2_lt_pow2; lia. }
  lia.
Qed.

(** X5: [fnv] returns a 32-bit value, its final reduction modulo
    [FNV_MODULUS] changes nothing, and only the low 32 bits of the
    arguments count, so a signed word and its unsigned pattern give the
    same result. *)
Theorem fnv_is_32_bit (v1 v2 : Z) :
  0 <= fnv v1 v2 < 2 ^ 32
  /\ fnv v1 v2 = Z.lxor (to_uint32 (to_uint32 v1 * FNV_PRIME)) (to_uint32 v2)
  /\ fnv (to_uint32 v1) (to_uint32 v2) = fnv v1 v2
  /\ fnv (to_int32 v1) (to_int32 v2) = fnv v1 v2.
Proof.
  assert (Hx : 0 <= Z.lxor (to_uint32 (to_uint32 v1 * FNV_PRIME)) (to_uint32 v2)
               < 2 ^ 32)
    by (apply lxor_uint32; apply to_uint32_range).
  assert (Hfnv : fnv v1 v2
                 = Z.lxor (to_uint32 (to_uint32 v1 * FNV_PRIME)) (to_uint32 v2)).
  { unfold fnv, FNV_MODULUS. cbv zeta. apply Z.mod_small. exact Hx. }
  assert (Hi : forall z, to_uint32 (to_int32 z) = to_uint32 z).
  { intros z. unfold to_uint32, to_int32.
    change (2 ^ 32) with 4294967296. change (2 ^ 31) with 2147483648.
    Z.div_mod_to_equations. lia. }
  assert (Hu : forall z, to_uint32 (to_uint32 z) = to_uint32 z).
  { intros z. unfold to_uint32. apply Z.mod_mod. lia. }
  split; [rewrite Hfnv; exact Hx|].
  split; [exact Hfnv|].
  split; unfold fnv; cbv zeta; rewrite ?Hi, ?Hu; reflexivity.
Qed.

(** ** The primality test and the two size functions, further *)

(** X6: from 2 on [is_prime] answers "true" exactly for the primes;
    0 and 1, which are not prime, are accepted as well, the loop
    having no divisor to try. *)
Theorem is_prime_decides_primality (x : Z) :
  (2 <= x -> (is_prime x = true <-> Z.prime x))
  /\ (0 <= x < 2 -> is_prime x = true /\ ~ Z.prime x).
Proof.
  split.
  - intros Hx. split; [apply is_prime_true_prime; assumption|].
    intros Hp. destruct (is_prime x) eqn:E; [reflexivity|].
    exfalso. exact (is_prime_false_not_prime x E Hp).
  - intros Hx. split.
    + destruct (is_prime x) eqn:E; [reflexivity|].
      apply is_prime_false_ge in E. lia.
    + intros [H1 _]. lia.
Qed.

Lemma largest_prime_size_shape (unit start size : Z) :
  0 < unit -> start mod (2 * unit) = unit ->
  largest_prime_size unit start size ->
  size mod unit = 0 /\ (size / unit) mod 2 = 1 /\ 3 * unit <= size <= start.
Proof.
  intros Hunit Hmod ([Hp _] & k & Hk & -> & _).
  pose proof (Z.div_mod start (2 * unit) ltac:(lia)) as Hdm.
  rewrite Hmod in Hdm. set (q := start / (2 * unit)) in *.
  assert (Heq : start - k * (2 * unit) = (2 * (q - k) + 1) * unit) by lia.
  rewrite Heq in Hp |- *. rewrite Z.div_mul in Hp |- * by lia.
  rewrite Z.mod_mul by lia.
  split; [reflexivity|]. split.
  - replace (2 * (q - k) + 1) with (1 + (q - k) * 2) by lia.
    rewrite Z.mod_add by lia. reflexivity.
  - rewrite <- Heq. split; [|nia].
    rewrite Heq. assert (3 <= 2 * (q - k) + 1) by lia. nia.
Qed.

Lemma get_cache_size_shape block_number :
  let start := to_uint64 (to_uint64 (CACHE_BYTES_INIT
                 + to_uint64 (CACHE_BYTES_GROWTH * (block_number / EPOCH_LENGTH)))
               - HASH_BYTES) in
  let cs := get_cache_size block_number in
  cs mod HASH_BYTES = 0 /\ (cs / HASH_BYTES) mod 2 = 1
  /\ 3 * HASH_BYTES <= cs <= start /\ start < 2 ^ 64.
Proof.
  intros start cs.
  destruct (cache_start_shape (block_number / EPOCH_LENGTH)) as (Hcr & Hcm & _).
  destruct (largest_prime_size_shape HASH_BYTES _ _ ltac:(reflexivity) Hcm
              (get_cache_size_prime block_number)) as (Hc1 & Hc2 & Hc3).
  split; [exact Hc1|]. split; [exact Hc2|]. split; [exact Hc3|].
  apply Hcr.
Qed.

Lemma get_full_size_shape block_number :
  let start := to_uint64 (to_uint64 (DATASET_BYTES_INIT
                 + to_uint64 (DATASET_BYTES_GROWTH * (block_number / EPOCH_LENGTH)))
               - MIX_BYTES) in
  let fs := get_full_size block_number in
  fs mod MIX_BYTES = 0 /\ (fs / MIX_BYTES) mod 2 = 1
  /\ 3 * MIX_BYTES <= fs <= start /\ start < 2 ^ 64.
Proof.
  intros start fs.
  destruct (full_start_shape (block_number / EPOCH_LENGTH)) as (Hfr & Hfm & _).
  destruct (largest_prime_size_shape MIX_BYTES _ _ ltac:(reflexivity) Hfm
              (get_full_size_prime block_number)) as (Hf1 & Hf2 & Hf3).
  split; [exact Hf1|]. split; [exact Hf2|]. split; [exact Hf3|].
  apply Hfr.
Qed.

(** X7: both sizes are whole numbers of items.  The cache size is an
    odd multiple, at least threefold, of [HASH_BYTES]; the dataset size
    is an odd multiple, at least threefold, of [MIX_BYTES], so the
    dataset has an even number of [HASH_BYTES] items; both fit the
    64-bit type. *)
Theorem sizes_are_odd_multiples (block_number : Z) :
  let cs := get_cache_size block_number in
  let fs := get_full_size block_number in
  cs mod HASH_BYTES = 0 /\ (cs / HASH_BYTES) mod 2 = 1
  /\ 3 * HASH_BYTES <= cs < 2 ^ 64
  /\ fs mod MIX_BYTES = 0 /\ (fs / MIX_BYTES) mod 2 = 1
  /\ 3 * MIX_BYTES <= fs < 2 ^ 64
  /\ fs mod HASH_BYTES = 0 /\ fs / HASH_BYTES = 2 * (fs / MIX_BYTES).
Proof.
  intros cs fs.
  destruct (get_cache_size_shape block_number) as (Hc1 & Hc2 & Hc3 & Hc4).
  destruct (get_full_size_shape block_number) as (Hf1 & Hf2 & Hf3 & Hf4).
  fold cs in Hc1, Hc2, Hc3. fold fs in Hf1, Hf2, Hf3.
  split; [exact Hc1|]. split; [exact Hc2|]. split; [lia|].
  split; [exact Hf1|]. split; [exact Hf2|]. split; [lia|].
  revert Hf1. unfold MIX_BYTES, HASH_BYTES. clear.
  generalize fs. intros z Hz. Z.div_mod_to_equations. lia.
Qed.

Lemma largest_prime_size_monotone (unit s1 s2 r1 r2 : Z) :
  0 < unit -> s1 <= s2 -> (s2 - s1) mod (2 * unit) = 0 ->
  largest_prime_size unit s1 r1 -> largest_prime_size unit s2 r2 ->
  r1 <= r2.
Proof.
  intros Hunit Hle Hmod (Hp1 & k1 & Hk1 & -> & _) (_ & k2 & Hk2 & -> & Hsmaller).
  apply Z.mod_divide in Hmod; [|lia]. destruct Hmod as [m Hm].
  assert (Hm0 : 0 <= m) by nia.
  destruct (Z_le_gt_dec (s1 - k1 * (2 * unit)) (s2 - k2 * (2 * unit)))
    as [|Hgt]; [assumption|].
  exfalso. apply (Hsmaller (k1 + m)); [nia|].
  replace (s2 - (k1 + m) * (2 * unit)) with (s1 - k1 * (2 * unit)) by lia.
  exact Hp1.
Qed.

(** X8: as long as the 64-bit sums do not wrap around, neither size
    ever shrinks when the block number grows. *)
Theorem sizes_grow_with_block_number (bn1 bn2 : Z) :
  0 <= bn1 <= bn2 ->
  DATASET_BYTES_INIT + DATASET_BYTES_GROWTH * (bn2 / EPOCH_LENGTH) <= 2 ^ 64 ->
  get_cache_size bn1 <= get_cache_size bn2
  /\ get_full_size bn1 <= get_full_size bn2.
Proof.
  intros Hbn Hwrap.
  assert (He1 : 0 <= bn1 / EPOCH_LENGTH)
    by (apply Z.div_pos; unfold EPOCH_LENGTH; lia).
  assert (He : bn1 / EPOCH_LENGTH <= bn2 / EPOCH_LENGTH)
    by (apply Z.div_le_mono; unfold EPOCH_LENGTH; lia).
  set (e1 := bn1 / EPOCH_LENGTH) in *. set (e2 := bn2 / EPOCH_LENGTH) in *.
  unfold DATASET_BYTES_INIT, DATASET_BYTES_GROWTH in Hwrap.
  pose proof (get_cache_size_prime bn1) as Hc1.
  pose proof (get_cache_size_prime bn2) as Hc2.
  pose proof (get_full_size_prime bn1) as Hf1.
  pose proof (get_full_size_prime bn2) as Hf2.
  cbv zeta in Hc1, Hc2, Hf1, Hf2. fold e1 in Hc1, Hf1. fold e2 in Hc2, Hf2.
  rewrite no_wrap_start in Hc1, Hc2, Hf1, Hf2
    by (unfold CACHE_BYTES_INIT, CACHE_BYTES_GROWTH, DATASET_BYTES_INIT,
          DATASET_BYTES_GROWTH, HASH_BYTES, MIX_BYTES; lia).
  split.
  - refine (largest_prime_size_monotone HASH_BYTES _ _ _ _ _ _ _ Hc1 Hc2);
      unfold CACHE_BYTES_INIT, CACHE_BYTES_GROWTH, HASH_BYTES;
      [reflexivity|lia|Z.div_mod_to_equations; lia].
  - refine (largest_prime_size_monotone MIX_BYTES _ _ _ _ _ _ _ Hf1 Hf2);
      unfold DATASET_BYTES_INIT, DATASET_BYTES_GROWTH, MIX_BYTES;
      [reflexivity|lia|Z.div_mod_to_equations; lia].
Qed.

(** ** Seed hash, cache and DAG construction, further *)

Lemma Z_iter_add_1 {A : Type} (n : Z) (f : A -> A) (x : A) :
  0 <= n -> Z.iter (n + 1) f x = f (Z.iter n f x).
Proof.
  intros Hn. rewrite !iter_nat_of_Z by lia.
  replace (Z.abs_nat (n + 1)) with (S (Z.abs_nat n)) by lia.
  reflexivity.
Qed.

(** X9: the seed hash is a per-epoch chain: it is the same for all
    blocks of an epoch, the seed of the next epoch is the serialized
    [sha3_256] of the seed of this one, and from epoch 1 on it has
    exactly 32 bytes. *)
Theorem get_seedhash_chain (block_number : Z) :
  0 <= block_number ->
  get_seedhash (block_number + EPOCH_LENGTH)
  = serialize (sha3_256_str (get_seedhash block_number))
  /\ length (get_seedhash (block_number + EPOCH_LENGTH)) = 32%nat
  /\ (forall block_number',
        block_number' / EPOCH_LENGTH = block_number / EPOCH_LENGTH ->
        get_seedhash block_number' = get_seedhash block_number).
Proof.
  intros Hbn.
  assert (Hstep : get_seedhash (block_number + EPOCH_LENGTH)
                  = serialize (sha3_256_str (get_seedhash block_number))).
  { unfold get_seedhash.
    replace ((block_number + EPOCH_LENGTH) / EPOCH_LENGTH)
      with (block_number / EPOCH_LENGTH + 1).
    - apply (Z_iter_add_1 (block_number / EPOCH_LENGTH)
               (fun s => serialize (sha3_256_str s))).
      apply Z.div_pos; unfold EPOCH_LENGTH; lia.
    - unfold EPOCH_LENGTH. Z.div_mod_to_equations. lia. }
  split; [exact Hstep|]. split.
  - rewrite Hstep, serialize_length. unfold sha3_256_str.
    rewrite deserialize_length. reflexivity.
  - intros bn' He. unfold get_seedhash. rewrite He. reflexivity.
Qed.

(** A loop that returns has kept every invariant its body keeps. *)
Lemma for_loop_invariant {S : Type} (P : nat -> S -> Prop)
    (body : nat -> S -> outcome S) count i s s' :
  for_loop count i body s = Return s' ->
  P i s ->
  (forall k t t', P k t -> body k t = Return t' -> P (Datatypes.S k) t') ->
  P (i + count)%nat s'.
Proof.
  intros Hloop Hinit Hbody. revert i s Hloop Hinit.
  induction count as [|count IH]; intros i s Hloop Hinit.
  - cbn [for_loop] in Hloop. injection Hloop as <-.
    rewrite Nat.add_0_r. exact Hinit.
  - rewrite for_loop_S in Hloop.
    destruct (body i s) as [t|e] eqn:E; [|discriminate].
    rewrite bind_Return in Hloop.
    replace (i + Datatypes.S count)%nat with (Datatypes.S i + count)%nat by lia.
    apply (IH (Datatypes.S i) t Hloop). exact (Hbody i s t Hinit E).
Qed.

Lemma sha3_512_str_length data : length (sha3_512_str data) = 16%nat.
Proof. unfold sha3_512_str. apply deserialize_length. Qed.

Lemma mkcache_step_items n i j count data :
  items_ok count data -> items_ok count (mkcache_step n i j data).
Proof.
  intros [Hlen Hall]. rewrite mkcache_step_unfold. cbv zeta.
  set (v := Z.to_nat _). set (ui := Z.to_nat _).
  split; [rewrite !length_insert; exact Hlen|].
  apply Forall_insert; [|apply sha3_512_length].
  destruct (Nat.lt_ge_cases ui (length data)) as [Hlt|Hge].
  - apply Forall_insert; [exact Hall|].
    rewrite length_imap.
    destruct (lookup_lt_is_Some_2 data ui Hlt) as [item Hitem].
    rewrite (list_lookup_total_correct _ _ _ Hitem).
    exact (proj1 (Forall_lookup _ _) Hall ui item Hitem).
  - rewrite list_insert_ge by assumption. exact Hall.
Qed.

Lemma mkcache_items size seed callback data :
  mkcache size seed callback = Return data ->
  items_ok (Nat.max 1 (Z.to_nat (size / HASH_BYTES))) data.
Proof.
  set (n := Z.to_nat (size / HASH_BYTES)).
  intros H. unfold mkcache in H. fold n in H.
  destruct (for_loop (n - 1) 1 (mkcache_seed n callback) [sha3_512_str seed])
    as [seeded|e] eqn:Eseed; [|discriminate].
  rewrite bind_Return in H.
  destruct (for_loop (Z.to_nat CACHE_ROUNDS) 0
              (fun i st => for_loop n 0 (mkcache_round n callback i) st)
              (seeded, 0)) as [[rounds c]|e] eqn:Erounds; [|discriminate].
  rewrite bind_Return in H. injection H as <-. cbn [fst].
  assert (Hseeded : items_ok (1 + (n - 1)) seeded).
  { apply (for_loop_invariant (fun k data => items_ok k data) _ _ _ _ _ Eseed).
    - split; [reflexivity|]. constructor; [apply sha3_512_str_length|constructor].
    - intros k t t' [Hlen Hall] Hbody. unfold mkcache_seed in Hbody.
      destruct (_ && _); [discriminate|]. injection Hbody as <-.
      split; [rewrite length_app; cbn [length]; lia|].
      apply Forall_app. split; [exact Hall|].
      constructor; [apply sha3_512_length|constructor]. }
  replace (1 + (n - 1))%nat with (Nat.max 1 n) in Hseeded by lia.
  change (items_ok (Nat.max 1 n) (fst (rounds, c))).
  apply (for_loop_invariant (fun _ st => items_ok (Nat.max 1 n) (fst st))
           _ _ _ _ _ Erounds); [exact Hseeded|].
  intros i t t' Ht Hinner.
  apply (for_loop_invariant (fun _ st => items_ok (Nat.max 1 n) (fst st))
           _ _ _ _ _ Hinner); [exact Ht|].
  intros j [d c1] [d' c1'] Hd Hround. cbn [fst] in Hd |- *.
  rewrite mkcache_round_unfold in Hround.
  destruct (negb _); [discriminate|]. injection Hround as <- _.
  apply mkcache_step_items. exact Hd.
Qed.

(** X10: on a size of at least three items, [n] being the number of
    [HASH_BYTES] in it, a cache that [mkcache] returns has [n] items,
    each of 16 words; and [mkcache] returns whenever the callback
    continues at the steps 1 .. n - 1 of the seeding phase and at the
    steps 0 .. 3 n - 1 of the generation phase, the only steps at which
    it is asked. *)
Theorem mkcache_builds_all_items
    (size : Z) (seed : list byte) (callback : progress_callback_type) :
  let n := Z.to_nat (size / HASH_BYTES) in
  (3 <= n)%nat ->
  (forall data,
     mkcache size seed callback = Return data ->
     length data = n
     /\ Forall (fun item => length item = 16%nat) data)
  /\ ((forall step, 1 <= step < Z.of_nat n ->
         callback step (Z.of_nat n) cache_seeding = true) ->
      (forall step, 0 <= step < Z.of_nat n * CACHE_ROUNDS ->
         callback step (Z.of_nat n * CACHE_ROUNDS) cache_generation = true) ->
      exists data, mkcache size seed callback = Return data).
Proof.
  intros n Hn. split.
  - intros data H.
    destruct (mkcache_items size seed callback data H) as [Hlen Hall].
    fold n in Hlen. split; [lia|exact Hall].
  - destruct (mkcache_outcome callback size seed) as [_ Hgo]. exact Hgo.
Qed.

Lemma calc_dataset_item_length cache i :
  length (calc_dataset_item cache i) = 16%nat.
Proof. unfold calc_dataset_item. apply sha3_512_length. Qed.

(** X11: when the callback does not stop it, [generate] returns the
    items [calc_dataset_item cache 0 .. n - 1] in this order, [n] being
    the number of [HASH_BYTES] in the size, each of 16 words.  The
    cache is taken non-empty, as [calc_dataset_item] divides by its
    length. *)
Theorem generate_computes_every_item
    (size : Z) (cache : list (list Z)) (callback : progress_callback_type) :
  let n := Z.to_nat (size / HASH_BYTES) in
  cache <> [] ->
  (forall step, 0 <= step < Z.of_nat n ->
     callback step (Z.of_nat n) dag_generation = true) ->
  exists data,
    generate size cache callback = Return data
    /\ data = map (fun k => calc_dataset_item cache (Z.of_nat k)) (seq 0 n)
    /\ length data = n
    /\ Forall (fun item => length item = 16%nat) data.
Proof.
  intros n _ Hall.
  destruct (generate_outcome callback size cache) as [_ Hgo].
  destruct (Hgo Hall) as [data Hdata].
  exists data. split; [exact Hdata|].
  apply generate_data in Hdata. fold n in Hdata.
  split; [exact Hdata|]. subst data. split.
  - rewrite length_map, length_seq. reflexivity.
  - apply Forall_map, Forall_forall. intros k _.
    apply calc_dataset_item_length.
Qed.

(** X12: for every epoch below 2^39, when the callback never stops
    it, [dag_new] returns a handle for the epoch of the block number,
    with the two sizes of that epoch, a cache of
    [cache_size / HASH_BYTES] items and a DAG of
    [dag_size / HASH_BYTES] items of 16 words each. *)
Theorem dag_new_builds_well_formed_handle
    (block_number : Z) (callback : progress_callback_type) :
  0 <= block_number / EPOCH_LENGTH < 2 ^ 39 ->
  (forall step max phase, callback step max phase = true) ->
  exists d,
    dag_new block_number callback = Return d
    /\ dag_epoch d = block_number / EPOCH_LENGTH
    /\ cache_epoch (dag_cache_of d) = block_number / EPOCH_LENGTH
    /\ dag_size d = get_full_size block_number
    /\ cache_size (dag_cache_of d) = get_cache_size block_number
    /\ well_formed d.
Proof.
  intros He Hall.
  destruct (mkcache_outcome callback (get_cache_size block_number)
              (get_seedhash block_number)) as [_ Hgo].
  destruct Hgo as [cdata Hcdata]; [intros; apply Hall|intros; apply Hall|].
  destruct (generate_outcome callback (get_full_size block_number) cdata)
    as [_ Hgo2].
  destruct Hgo2 as [ddata Hddata]; [intros; apply Hall|].
  eexists. split.
  { unfold dag_new, cache_new. rewrite Hcdata, !bind_Return.
    cbn [cache_data]. rewrite Hddata, bind_Return. reflexivity. }
  cbn [dag_epoch dag_size dag_cache_of cache_epoch cache_size].
  do 4 (split; [reflexivity|]).
  pose proof (generate_data _ _ _ _ Hddata) as Hd.
  destruct (mkcache_items _ _ _ _ Hcdata) as [Hclen Hcall].
  destruct (get_cache_size_shape block_number) as (Hc1 & _ & Hc3 & _).
  destruct (get_full_size_shape block_number) as (Hf1 & _ & Hf3 & _).
  cbv zeta in Hc1, Hc3, Hf1, Hf3.
  rewrite no_wrap_start in Hc3, Hf3
    by (unfold CACHE_BYTES_INIT, CACHE_BYTES_GROWTH, DATASET_BYTES_INIT,
          DATASET_BYTES_GROWTH, HASH_BYTES, MIX_BYTES; lia).
  revert He Hc1 Hc3 Hf1 Hf3 Hclen Hd.
  unfold CACHE_BYTES_INIT, CACHE_BYTES_GROWTH, DATASET_BYTES_INIT,
    DATASET_BYTES_GROWTH, HASH_BYTES, MIX_BYTES.
  generalize (get_cache_size block_number), (get_full_size block_number),
    (block_number / EPOCH_LENGTH).
  intros cs fs e He Hc1 Hc3 Hf1 Hf3 Hclen Hd.
  split; cbn [dag_epoch dag_size dag_cache_of dag_data cache_size cache_data].
  - lia.
  - exact Hcall.
  - subst ddata. apply Forall_map, Forall_forall. intros k _.
    apply calc_dataset_item_length.
  - rewrite Hclen. unfold HASH_BYTES. Z.div_mod_to_equations. lia.
  - subst ddata. rewrite length_map, length_seq.
    unfold HASH_BYTES. Z.div_mod_to_equations. lia.
  - lia.
Qed.

Lemma for_loop_agree {S : Type} (body1 body2 : nat -> S -> outcome S) :
  (forall i s s1 s2,
     body1 i s = Return s1 -> body2 i s = Return s2 -> s1 = s2) ->
  forall count i s r1 r2,
    for_loop count i body1 s = Return r1 ->
    for_loop count i body2 s = Return r2 ->
    r1 = r2.
Proof.
  intros Hbody. induction count as [|count IH]; intros i s r1 r2 H1 H2.
  - cbn [for_loop] in H1, H2. congruence.
  - rewrite for_loop_S in H1, H2.
    destruct (body1 i s) as [s1|e1] eqn:E1; [|discriminate].
    destruct (body2 i s) as [s2|e2] eqn:E2; [|discriminate].
    rewrite bind_Return in H1, H2.
    rewrite (Hbody i s s1 s2 E1 E2) in H1.
    exact (IH (Datatypes.S i) s2 r1 r2 H1 H2).
Qed.

Lemma mkcache_same_result size seed callback1 callback2 data1 data2 :
  mkcache size seed callback1 = Return data1 ->
  mkcache size seed callback2 = Return data2 ->
  data1 = data2.
Proof.
  set (n := Z.to_nat (size / HASH_BYTES)).
  unfold mkcache. fold n. intros H1 H2.
  destruct (for_loop (n - 1) 1 (mkcache_seed n callback1) [sha3_512_str seed])
    as [seeded1|e] eqn:Es1; [|discriminate].
  destruct (for_loop (n - 1) 1 (mkcache_seed n callback2) [sha3_512_str seed])
    as [seeded2|e] eqn:Es2; [|discriminate].
  rewrite bind_Return in H1, H2.
  assert (seeded1 = seeded2) as <-.
  { apply (for_loop_agree (mkcache_seed n callback1) (mkcache_seed n callback2))
      with (count := (n - 1)%nat) (i := 1%nat) (s := [sha3_512_str seed]);
      [|assumption|assumption].
    intros i s s1 s2. unfold mkcache_seed.
    destruct (_ && _); [discriminate|]. destruct (_ && _); [discriminate|].
    congruence. }
  destruct (for_loop (Z.to_nat CACHE_ROUNDS) 0
              (fun i st => for_loop n 0 (mkcache_round n callback1 i) st)
              (seeded1, 0)) as [st1|e] eqn:Er1; [|discriminate].
  destruct (for_loop (Z.to_nat CACHE_ROUNDS) 0
              (fun i st => for_loop n 0 (mkcache_round n callback2 i) st)
              (seeded1, 0)) as [st2|e] eqn:Er2; [|discriminate].
  rewrite bind_Return in H1, H2.
  assert (st1 = st2) as <-; [|congruence].
  apply (for_loop_agree
           (fun i st => for_loop n 0 (mkcache_round n callback1 i) st)
           (fun i st => for_loop n 0 (mkcache_round n callback2 i) st))
    with (count := Z.to_nat CACHE_ROUNDS) (i := 0%nat) (s := (seeded1, 0));
    [|assumption|assumption].
  intros i s s1 s2.
  apply for_loop_agree.
  intros j [d c] t1 t2. rewrite !mkcache_round_unfold.
  destruct (negb _); [discriminate|]. destruct (negb _); [discriminate|].
  congruence.
Qed.

(** X13: the callback can stop a construction but cannot change what
    is built: two runs of [mkcache], of [generate] or of [dag_new] on
    the same arguments that both return, under any two callbacks,
    return the same data. *)
Theorem callback_does_not_change_the_result
    (callback1 callback2 : progress_callback_type) :
  (forall size seed data1 data2,
     mkcache size seed callback1 = Return data1 ->
     mkcache size seed callback2 = Return data2 ->
     data1 = data2)
  /\ (forall size cache data1 data2,
        generate size cache callback1 = Return data1 ->
        generate size cache callback2 = Return data2 ->
        data1 = data2)
  /\ (forall block_number d1 d2,
        dag_new block_number callback1 = Return d1 ->
        dag_new block_number callback2 = Return d2 ->
        d1 = d2).
Proof.
  split; [|split].
  - intros size seed data1 data2. apply mkcache_same_result.
  - intros size cache data1 data2 H1 H2.
    apply generate_data in H1, H2. congruence.
  - intros block_number d1 d2. unfold dag_new, cache_new. intros H1 H2.
    destruct (mkcache (get_cache_size block_number) (get_seedhash block_number)
                callback1) as [c1|e] eqn:Ec1; [|discriminate].
    destruct (mkcache (get_cache_size block_number) (get_seedhash block_number)
                callback2) as [c2|e] eqn:Ec2; [|discriminate].
    rewrite (mkcache_same_result _ _ _ _ _ _ Ec1 Ec2) in *.
    rewrite !bind_Return in H1, H2. cbn [cache_data] in H1, H2.
    destruct (generate (get_full_size block_number) c2 callback1)
      as [g1|e] eqn:Eg1; [|discriminate].
    destruct (generate (get_full_size block_number) c2 callback2)
      as [g2|e] eqn:Eg2; [|discriminate].
    apply generate_data in Eg1, Eg2.
    rewrite bind_Return in H1, H2. congruence.
Qed.

(** ** The registry, called by one thread after the other *)

Lemma get_dag_hit block_number callback st p :
  dag_cache st !! (block_number / EPOCH_LENGTH) = Some p ->
  get_dag block_number callback st = (Return p, st).
Proof.
  intros Hsome. unfold get_dag, run. cbn [fold_left].
  assert (H1 : schedule_step ([Requested block_number callback], st) 0
               = ([Returned block_number p], st)).
  { unfold schedule_step. cbn [fst snd lookup list_lookup thread_step].
    rewrite Hsome. reflexivity. }
  rewrite H1. reflexivity.
Qed.

Lemma get_dag_miss block_number callback st d :
  dag_cache st !! (block_number / EPOCH_LENGTH) = None ->
  dag_new block_number callback = Return d ->
  get_dag block_number callback st
  = (Return (length (objects st)),
     {| objects := objects st ++ [d];
        dag_cache := <[block_number / EPOCH_LENGTH := length (objects st)]>
                       (dag_cache st) |}).
Proof.
  intros Hnone Hnew. unfold get_dag, run. cbn [fold_left].
  assert (H1 : schedule_step ([Requested block_number callback], st) 0
               = ([Constructing block_number callback], st)).
  { unfold schedule_step. cbn [fst snd lookup list_lookup thread_step].
    rewrite Hnone. reflexivity. }
  rewrite H1.
  assert (H2 : schedule_step ([Constructing block_number callback], st) 0
               = ([Constructed block_number (length (objects st))],
                  {| objects := objects st ++ [d]; dag_cache := dag_cache st |})).
  { unfold schedule_step. cbn [fst snd lookup list_lookup thread_step].
    rewrite Hnew. reflexivity. }
  rewrite H2.
  unfold schedule_step. cbn [fst snd lookup list_lookup thread_step].
  unfold map_insert. cbn [dag_cache objects]. rewrite Hnone. reflexivity.
Qed.

(** X14: a call of [get_dag] for an epoch that is registered returns
    the registered handle, whatever the callback, and leaves the
    process as it is; a call that returns a handle has registered it
    and kept every object and every other entry, so that any later
    call for a block of the same epoch returns that same handle
    without constructing anything. *)
Theorem get_dag_returns_registered_handle
    (block_number : Z) (callback : progress_callback_type) (st : process) :
  (forall p,
     dag_cache st !! (block_number / EPOCH_LENGTH) = Some p ->
     get_dag block_number callback st = (Return p, st))
  /\ (forall p st',
        get_dag block_number callback st = (Return p, st') ->
        dag_cache st' !! (block_number / EPOCH_LENGTH) = Some p
        /\ (exists new, objects st' = objects st ++ new)
        /\ (forall e q, dag_cache st !! e = Some q -> dag_cache st' !! e = Some q)
        /\ (forall block_number' callback',
              block_number' / EPOCH_LENGTH = block_number / EPOCH_LENGTH ->
              get_dag block_number' callback' st' = (Return p, st'))).
Proof.
  split; [intros p; apply get_dag_hit|].
  intros p st' Hget.
  assert (Hreg : dag_cache st' !! (block_number / EPOCH_LENGTH) = Some p
                 /\ (exists new, objects st' = objects st ++ new)
                 /\ (forall e q, dag_cache st !! e = Some q ->
                                 dag_cache st' !! e = Some q)).
  { destruct (dag_cache st !! (block_number / EPOCH_LENGTH)) as [q|] eqn:E.
    - rewrite (get_dag_hit _ _ _ _ E) in Hget. injection Hget as <- <-.
      split; [exact E|]. split; [exists []; rewrite app_nil_r; reflexivity|].
      intros e q' H; exact H.
    - destruct (dag_new block_number callback) as [d|e] eqn:Enew.
      + rewrite (get_dag_miss _ _ _ _ E Enew) in Hget.
        injection Hget as <- <-. cbn [dag_cache objects].
        split; [apply lookup_insert_eq|].
        split; [exists [d]; reflexivity|].
        intros e q H. rewrite lookup_insert_ne; [exact H|].
        intros <-. rewrite E in H. discriminate.
      + rewrite (get_dag_throws _ _ _ _ E Enew) in Hget. discriminate. }
  destruct Hreg as (Hp & Hobjs & Hkeep).
  split; [exact Hp|]. split; [exact Hobjs|]. split; [exact Hkeep|].
  intros bn' cb' He. apply get_dag_hit. rewrite He. exact Hp.
Qed.

Lemma dag_new_epoch block_number callback d :
  dag_new block_number callback = Return d ->
  dag_epoch d = block_number / EPOCH_LENGTH.
Proof.
  unfold dag_new. intros H.
  destruct (cache_new block_number (get_seedhash block_number) callback)
    as [cache|e]; [|discriminate].
  rewrite bind_Return in H.
  destruct (generate (get_full_size block_number) (cache_data cache) callback)
    as [data|e]; [|discriminate].
  rewrite bind_Return in H. injection H as <-. reflexivity.
Qed.

(** X15: when every registered handle is a DAG of the epoch it is
    registered for, a call of [get_dag] that returns keeps it so and
    returns a handle to a DAG of the epoch of the requested block; and
    when the epoch was not registered before, that DAG is the one
    [dag_new] has built for the block number, under a handle that no
    epoch had before. *)
Theorem get_dag_handle_is_of_epoch
    (block_number : Z) (callback : progress_callback_type)
    (st st' : process) (p : nat) :
  registry_epochs st ->
  get_dag block_number callback st = (Return p, st') ->
  registry_epochs st'
  /\ exists d,
       objects st' !! p = Some d
       /\ dag_epoch d = block_number / EPOCH_LENGTH
       /\ (dag_cache st !! (block_number / EPOCH_LENGTH) = None ->
           dag_new block_number callback = Return d
           /\ forall e q, dag_cache st !! e = Some q -> q <> p).
Proof.
  intros Hinv Hget.
  destruct (dag_cache st !! (block_number / EPOCH_LENGTH)) as [q|] eqn:E.
  - rewrite (get_dag_hit _ _ _ _ E) in Hget. injection Hget as <- <-.
    split; [exact Hinv|].
    destruct (Hinv _ _ E) as (d & Hd & He).
    exists d. split; [exact Hd|]. split; [exact He|]. discriminate.
  - destruct (dag_new block_number callback) as [d|e] eqn:Enew.
    + rewrite (get_dag_miss _ _ _ _ E Enew) in Hget.
      injection Hget as <- <-. cbn [dag_cache objects].
      assert (Hnew : (objects st ++ [d]) !! length (objects st) = Some d).
      { rewrite lookup_app_r by lia. rewrite Nat.sub_diag. reflexivity. }
      split.
      * intros e' p' Hlook. cbn [dag_cache objects] in Hlook |- *.
        destruct (Z.eq_dec (block_number / EPOCH_LENGTH) e') as [<-|Hne].
        -- rewrite lookup_insert_eq in Hlook. injection Hlook as <-.
           exists d. split; [exact Hnew|]. exact (dag_new_epoch _ _ _ Enew).
        -- rewrite lookup_insert_ne in Hlook by assumption.
           destruct (Hinv _ _ Hlook) as (d' & Hd' & He').
           exists d'. split; [|exact He'].
           apply lookup_app_l_Some. exact Hd'.
      * exists d. split; [exact Hnew|].
        split; [exact (dag_new_epoch _ _ _ Enew)|].
        intros _. split; [reflexivity|].
        intros e' q Hq Heq. destruct (Hinv _ _ Hq) as (d' & Hd' & _).
        apply lookup_lt_Some in Hd'. lia.
    + rewrite (get_dag_throws _ _ _ _ E Enew) in Hget. discriminate.
Qed.

(** ** The DAG file, further *)

Lemma save_items_written callback max items count fs :
  exists k,
    (k <= length items)%nat
    /\ snd (save_items callback max items count fs)
       = fs ++ flat_map (flat_map (le_bytes 4)) (take k items)
    /\ (forall count',
          fst (save_items callback max items count fs) = Return count' ->
          k = length items)
    /\ (forall e,
          fst (save_items callback max items count fs) = Throw e ->
          (1 <= k)%nat).
Proof.
  revert count fs. induction items as [|i rest IH]; intros count fs.
  - exists 0%nat. cbn [save_items fst snd take flat_map length].
    rewrite app_nil_r. split; [lia|]. split; [reflexivity|].
    split; [reflexivity|discriminate].
  - cbn [save_items]. cbv zeta.
    destruct (_ && _).
    + exists 1%nat. cbn [fst snd take flat_map length]. rewrite app_nil_r.
      split; [lia|]. split; [reflexivity|]. split; [discriminate|lia].
    + destruct (IH (count + 1) (fs ++ flat_map (le_bytes 4) i))
        as (k & Hk & Hsnd & Hret & Hthrow).
      exists (S k). cbn [take flat_map length].
      split; [lia|]. split; [rewrite Hsnd, <- app_assoc; reflexivity|].
      split; [intros c Hc; rewrite (Hret c Hc); reflexivity|lia].
Qed.

Lemma save_returns d callback :
  let max_count :=
    to_uint64 (cache_size (dag_cache_of d) + Z.of_nat (length (dag_data d))) in
  let items := (length (cache_data (dag_cache_of d)) + length (dag_data d))%nat in
  (forall step, 1 <= step <= Z.of_nat items ->
     callback step max_count dag_saving = true) ->
  fst (save d callback) = Return tt.
Proof.
  intros max_count items Hall. unfold save. fold max_count.
  destruct (save_items_spec callback max_count (cache_data (dag_cache_of d)) 0
              (save_header d)) as [_ Hg1].
  destruct (save_items callback max_count (cache_data (dag_cache_of d)) 0
              (save_header d)) as [[count|e] fs1] eqn:E1; cbn [fst] in Hg1.
  - assert (Hcount : Return count
                     = Return (0 + Z.of_nat (length (cache_data (dag_cache_of d)))))
      by (apply Hg1; intros step Hstep; apply Hall; unfold items; lia).
    injection Hcount as ->.
    destruct (save_items_spec callback max_count (dag_data d)
                (0 + Z.of_nat (length (cache_data (dag_cache_of d)))) fs1)
      as [_ Hg2].
    destruct (save_items callback max_count (dag_data d) _ fs1)
      as [[count'|e] fs2]; cbn [fst] in *; [reflexivity|].
    exfalso. assert (H : Throw e = Return
               (0 + Z.of_nat (length (cache_data (dag_cache_of d)))
                + Z.of_nat (length (dag_data d))))
      by (apply Hg2; intros step Hstep; apply Hall; unfold items; lia).
    discriminate.
  - exfalso. assert (H : Throw e = Return
               (0 + Z.of_nat (length (cache_data (dag_cache_of d)))))
      by (apply Hg1; intros step Hstep; apply Hall; unfold items; lia).
    discriminate.
Qed.

Lemma save_header_length d : length (save_header d) = 65%nat.
Proof.
  unfold save_header. rewrite !length_app, !le_bytes_length. reflexivity.
Qed.

(** X16: [save] returns when the callback continues at the steps
    1 .. number of cache and DAG items, at which it is asked with the
    cache size in bytes plus the number of DAG items as maximum.
    Whatever the callback answers, the file that [save] leaves is the
    65-byte header followed by the words, four bytes each, of the first
    [k] items of the cache followed by the DAG; [k] counts all items
    when [save] returns, and at least one item is in the file when
    [save] is cancelled. *)
Theorem save_writes_header_then_items
    (d : dag_t) (callback : progress_callback_type) :
  let items := cache_data (dag_cache_of d) ++ dag_data d in
  let max_count :=
    to_uint64 (cache_size (dag_cache_of d) + Z.of_nat (length (dag_data d))) in
  length (save_header d) = 65%nat
  /\ ((forall step, 1 <= step <= Z.of_nat (length items) ->
         callback step max_count dag_saving = true) ->
      fst (save d callback) = Return tt)
  /\ exists k,
       (k <= length items)%nat
       /\ snd (save d callback)
          = save_header d ++ flat_map (flat_map (le_bytes 4)) (take k items)
       /\ (fst (save d callback) = Return tt -> k = length items)
       /\ (forall e, fst (save d callback) = Throw e -> (1 <= k)%nat).
Proof.
  intros items max_count0. split; [apply save_header_length|].
  split.
  { intros Hall. apply save_returns. intros step Hstep. apply Hall.
    unfold items. rewrite length_app. lia. }
  clear max_count0.
  unfold save. subst items.
  set (max_count := to_uint64 _).
  destruct (save_items_written callback max_count (cache_data (dag_cache_of d))
              0 (save_header d)) as (k1 & Hk1 & Hsnd1 & Hret1 & Hthrow1).
  destruct (save_items callback max_count (cache_data (dag_cache_of d)) 0
              (save_header d)) as [[count|e] fs1] eqn:E1;
    cbn [fst snd] in Hsnd1, Hret1, Hthrow1.
  - specialize (Hret1 count eq_refl). subst k1.
    destruct (save_items_written callback max_count (dag_data d) count fs1)
      as (k2 & Hk2 & Hsnd2 & Hret2 & Hthrow2).
    exists (length (cache_data (dag_cache_of d)) + k2)%nat.
    assert (Hfile : snd (save_items callback max_count (dag_data d) count fs1)
                    = save_header d
                      ++ flat_map (flat_map (le_bytes 4))
                           (take (length (cache_data (dag_cache_of d)) + k2)
                              (cache_data (dag_cache_of d) ++ dag_data d))).
    { rewrite Hsnd2, Hsnd1, take_app_add, flat_map_app, firstn_all, <- app_assoc.
      reflexivity. }
    destruct (save_items callback max_count (dag_data d) count fs1)
      as [[count'|e] fs2] eqn:E2; cbn [fst snd] in *.
    + split; [rewrite length_app; lia|]. split; [exact Hfile|].
      split; [intros _; rewrite length_app, (Hret2 count' eq_refl); reflexivity|].
      discriminate.
    + split; [rewrite length_app; lia|]. split; [exact Hfile|].
      split; [discriminate|]. intros e' _. specialize (Hthrow2 e eq_refl). lia.
  - exists k1. split; [rewrite length_app; lia|].
    split.
    + rewrite Hsnd1. f_equal. f_equal.
      rewrite take_app_le by lia. reflexivity.
    + split; [discriminate|]. intros e' _. exact (Hthrow1 e eq_refl).
Qed.

Lemma field_at (o n : nat) (A F B : list byte) :
  length A = o -> length F = n -> take n (drop o (A ++ F ++ B)) = F.
Proof.
  intros <- <-. rewrite drop_app_length, take_app_length. reflexivity.
Qed.

Ltac header_field A :=
  match goal with
  | |- context [take ?n (drop ?o ?file)] =>
      replace file with (A) by (rewrite <- ?app_assoc; reflexivity);
      rewrite (field_at o n)
        by (rewrite ?length_app, ?le_bytes_length; reflexivity)
  end.

(** X17: the header that [save] writes, read back at its offsets,
    whether or not [save] is cancelled later: the magic string at 0,
    the three version numbers at 12, 16 and 20, the epoch at 24 and the
    four offsets at 32, 40, 48 and 56, all little-endian.  The first
    offset is [DAG_FILE_HEADER_SIZE] = 66, the second and the third are
    66 + cache size and the last one adds the DAG size (modulo 2^64). *)
Theorem save_header_layout (d : dag_t) (callback : progress_callback_type) :
  0 <= dag_epoch d < 2 ^ 64 ->
  let file := snd (save d callback) in
  take 11 file = DAG_MAGIC_BYTES
  /\ from_le (take 4 (drop 12 file)) = MAJOR_VERSION
  /\ from_le (take 4 (drop 16 file)) = REVISION
  /\ from_le (take 4 (drop 20 file)) = MINOR_VERSION
  /\ from_le (take 8 (drop 24 file)) = dag_epoch d
  /\ from_le (take 8 (drop 32 file)) = 66
  /\ from_le (take 8 (drop 40 file))
     = to_uint64 (66 + cache_size (dag_cache_of d))
  /\ from_le (take 8 (drop 48 file))
     = to_uint64 (66 + cache_size (dag_cache_of d))
  /\ from_le (take 8 (drop 56 file))
     = to_uint64 (to_uint64 (66 + cache_size (dag_cache_of d)) + dag_size d).
Proof.
  intros Hepoch file.
  assert (Hfile : exists rest, file = save_header d ++ rest).
  { subst file. unfold save.
    set (max_count := to_uint64 _).
    destruct (save_items_written callback max_count
                (cache_data (dag_cache_of d)) 0 (save_header d))
      as (k1 & _ & Hsnd1 & _).
    destruct (save_items callback max_count (cache_data (dag_cache_of d)) 0
                (save_header d)) as [[count|e] fs1] eqn:E1; cbn [snd] in Hsnd1.
    - destruct (save_items_written callback max_count (dag_data d) count fs1)
        as (k2 & _ & Hsnd2 & _).
      destruct (save_items callback max_count (dag_data d) count fs1)
        as [[count'|e] fs2]; cbn [snd] in *;
        rewrite Hsnd2, Hsnd1, <- app_assoc; eexists; reflexivity.
    - cbn [snd]. rewrite Hsnd1. eexists; reflexivity. }
  destruct Hfile as [rest Hfile]. subst file. rewrite Hfile. clear Hfile.
  unfold save_header. cbv zeta.
  set (e := dag_epoch d) in *.
  set (cb := DAG_FILE_HEADER_SIZE).
  set (ce := to_uint64 (cb + cache_size (dag_cache_of d))).
  set (de := to_uint64 (ce + dag_size d)).
  set (m := DAG_MAGIC_BYTES).
  set (z := le_bytes 1 0).
  set (v1 := le_bytes 4 MAJOR_VERSION). set (v2 := le_bytes 4 REVISION).
  set (v3 := le_bytes 4 MINOR_VERSION).
  set (fe := le_bytes 8 e). set (f1 := le_bytes 8 cb).
  set (f2 := le_bytes 8 ce). set (f3 := le_bytes 8 de).
  assert (H64 : forall x, to_uint64 x mod 2 ^ (8 * Z.of_nat 8) = to_uint64 x)
    by (intros x; unfold to_uint64; apply Z.mod_mod; lia).
  split.
  { rewrite <- !app_assoc. apply (take_app_length' m). reflexivity. }
  split.
  { header_field ((m ++ z) ++ v1 ++ (v2 ++ v3 ++ fe ++ f1 ++ f2 ++ f2 ++ f3 ++ z ++ rest)).
    subst v1. rewrite from_le_le_bytes. reflexivity. }
  split.
  { header_field ((m ++ z ++ v1) ++ v2 ++ (v3 ++ fe ++ f1 ++ f2 ++ f2 ++ f3 ++ z ++ rest)).
    subst v2. rewrite from_le_le_bytes. reflexivity. }
  split.
  { header_field ((m ++ z ++ v1 ++ v2) ++ v3 ++ (fe ++ f1 ++ f2 ++ f2 ++ f3 ++ z ++ rest)).
    subst v3. rewrite from_le_le_bytes. reflexivity. }
  split.
  { header_field ((m ++ z ++ v1 ++ v2 ++ v3) ++ fe ++ (f1 ++ f2 ++ f2 ++ f3 ++ z ++ rest)).
    subst fe. rewrite from_le_le_bytes. apply Z.mod_small. exact Hepoch. }
  split.
  { header_field ((m ++ z ++ v1 ++ v2 ++ v3 ++ fe) ++ f1 ++ (f2 ++ f2 ++ f3 ++ z ++ rest)).
    subst f1. rewrite from_le_le_bytes. reflexivity. }
  split.
  { header_field ((m ++ z ++ v1 ++ v2 ++ v3 ++ fe ++ f1) ++ f2 ++ (f2 ++ f3 ++ z ++ rest)).
    subst f2. rewrite from_le_le_bytes. apply H64. }
  split.
  { header_field ((m ++ z ++ v1 ++ v2 ++ v3 ++ fe ++ f1 ++ f2) ++ f2 ++ (f3 ++ z ++ rest)).
    subst f2. rewrite from_le_le_bytes. apply H64. }
  header_field ((m ++ z ++ v1 ++ v2 ++ v3 ++ fe ++ f1 ++ f2 ++ f2) ++ f3 ++ (z ++ rest)).
  subst f3. rewrite from_le_le_bytes. apply H64.
Qed.

(** ** What [load] accepts *)

Lemma magic_string (magic : list byte) :
  length magic = 11%nat ->
  string_of_cstr (magic ++ [x00]) = DAG_MAGIC_BYTES ->
  magic = DAG_MAGIC_BYTES.
Proof.
  intros Hlen H.
  do 11 (destruct magic as [|? magic]; [discriminate Hlen|]).
  destruct magic; [|discriminate Hlen].
  cbn [app string_of_cstr] in H. unfold DAG_MAGIC_BYTES in *.
  repeat match type of H with
  | (if Byte.eqb ?c x00 then _ else _) = _ =>
      destruct (Byte.eqb c x00); [discriminate H|];
      first [injection H as -> H | injection H as ->]
  end.
  reflexivity.
Qed.

(** X18: the header check of [load] throws nothing but its four
    messages, rejects every file shorter than 1090516865 bytes (the
    empty file too) as corrupt, and when it accepts a file, the file
    starts with the magic string and carries the major version and the
    revision of the library, the sizes are those of the epoch read at
    offset 24, and the items are read from offset 65 on. *)
Theorem load_validate_outcomes (file : list byte) :
  (Z.of_nat (length file) < 1090516865 ->
   load_validate file = Throw (HashException "DAG is corrupt"))
  /\ match load_validate file with
     | Throw e =>
         e = HashException "DAG is corrupt"
         \/ e = HashException "Not a DAG file"
         \/ e = HashException "DAG version is invalid"
         \/ e = HashException "DAG cache is corrupt"
     | Return (epoch, cache_size, size, fs) =>
         1090516865 <= Z.of_nat (length file)
         /\ take 11 file = DAG_MAGIC_BYTES
         /\ from_le (take 4 (drop 12 file)) = MAJOR_VERSION
         /\ from_le (take 4 (drop 16 file)) = REVISION
         /\ epoch = from_le (take 8 (drop 24 file))
         /\ cache_size
            = get_cache_size (to_uint64 (to_uint64 (epoch * EPOCH_LENGTH) + 1))
         /\ size
            = get_full_size (to_uint64 (to_uint64 (epoch * EPOCH_LENGTH) + 1))
         /\ fs = drop 65 file
     end.
Proof.
  unfold load_validate. cbv zeta. unfold read. cbv beta iota.
  rewrite !drop_drop. cbn [Nat.add].
  destruct (Z.ltb_spec (Z.of_nat (length file)) 1090516865) as [Hlt|Hge].
  - split; [reflexivity|]. left. reflexivity.
  - split; [lia|].
    case_bool_decide as Hmagic; cbn [negb]; [|right; left; reflexivity].
    apply magic_string in Hmagic; [|rewrite length_take; lia].
    destruct (Z.eqb_spec (from_le (take 4 (drop 12 file))) MAJOR_VERSION)
      as [Hmajor|]; cbn [negb orb]; [|right; right; left; reflexivity].
    destruct (Z.eqb_spec (from_le (take 4 (drop 16 file))) REVISION)
      as [Hrev|]; cbn [negb]; [|right; right; left; reflexivity].
    destruct (_ || _ || _); [right; right; right; reflexivity|].
    destruct (_ || _ || _); [left; reflexivity|].
    repeat (split; [first [assumption | reflexivity]|]). reflexivity.
Qed.

(** ** Hashimoto, further *)

Lemma hashimoto_value_eq header nonce full_size lookup :
  value (hashimoto header nonce full_size lookup)
  = memcpy (replicate 32 x00)
      (object_bytes (sha3_256 (sha3_512 (header_seed header nonce)))) 8.
Proof.
  unfold hashimoto.
  pose proof (hashimoto_mix_seed header nonce full_size lookup) as Hs.
  destruct (hashimoto_mix header nonce full_size lookup) as [s [mix l]].
  cbn [fst] in Hs. subst s. cbn [value]. rewrite sha3_256_length.
  reflexivity.
Qed.

Lemma hashimoto_mixhash_eq header nonce full_size lookup :
  mixhash (hashimoto header nonce full_size lookup)
  = memcpy (replicate 32 x00)
      (object_bytes
         (compress_mix (fst (snd (hashimoto_mix header nonce full_size lookup)))))
      8.
Proof.
  unfold hashimoto.
  pose proof (hashimoto_mix_length header nonce full_size lookup) as Hlen.
  destruct (hashimoto_mix header nonce full_size lookup) as [s [mix l]].
  cbn [fst snd mixhash] in *.
  replace (length (compress_mix mix)) with 8%nat; [reflexivity|].
  unfold compress_mix. rewrite length_map, length_seq, Hlen. reflexivity.
Qed.

(** X19: the [value] that [hashimoto] returns does not depend on the
    dataset: for one header and one nonce, any two sizes (of at least
    two items, so that the page index is defined) and any two lookup
    functions give the same [value].  Both fields of the result have
    32 bytes. *)
Theorem hashimoto_value_ignores_dataset
    (header : list Z) (nonce full_size1 full_size2 : Z)
    (lookup1 lookup2 : Z -> list Z) :
  2 <= full_size1 / HASH_BYTES -> 2 <= full_size2 / HASH_BYTES ->
  value (hashimoto header nonce full_size1 lookup1)
  = value (hashimoto header nonce full_size2 lookup2)
  /\ length (value (hashimoto header nonce full_size1 lookup1)) = 32%nat
  /\ length (mixhash (hashimoto header nonce full_size1 lookup1)) = 32%nat.
Proof.
  intros _ _. split; [|split].
  - rewrite !hashimoto_value_eq. reflexivity.
  - rewrite hashimoto_value_eq, memcpy_h256.
    rewrite length_app, length_take, length_replicate, object_bytes_length.
    rewrite sha3_256_length. reflexivity.
  - rewrite hashimoto_mixhash_eq, memcpy_h256.
    rewrite length_app, length_take, length_replicate, object_bytes_length.
    replace (length (compress_mix _)) with 8%nat; [reflexivity|].
    unfold compress_mix.
    rewrite length_map, length_seq, hashimoto_mix_length. reflexivity.
Qed.

Lemma nonce_byte_range nonce k : 0 <= nonce_byte nonce k < 256.
Proof.
  unfold nonce_byte. change 255 with (Z.ones 8).
  rewrite Z.land_ones by lia. apply Z.mod_pos_bound. lia.
Qed.

Lemma nonce_bytes_recompose nonce :
  0 <= nonce < 2 ^ 64 ->
  nonce = nonce_byte nonce 0 + nonce_byte nonce 1 * 2 ^ 8
          + nonce_byte nonce 2 * 2 ^ 16 + nonce_byte nonce 3 * 2 ^ 24
          + nonce_byte nonce 4 * 2 ^ 32 + nonce_byte nonce 5 * 2 ^ 40
          + nonce_byte nonce 6 * 2 ^ 48 + nonce_byte nonce 7 * 2 ^ 56.
Proof.
  intros Hn. unfold nonce_byte. change 255 with (Z.ones 8).
  rewrite !Z.land_ones, !Z.shiftr_div_pow2 by lia.
  change (2 ^ (8 * 0)) with 1. change (2 ^ (8 * 1)) with (2 ^ 8).
  change (2 ^ (8 * 2)) with (2 ^ 16). change (2 ^ (8 * 3)) with (2 ^ 24).
  change (2 ^ (8 * 4)) with (2 ^ 32). change (2 ^ (8 * 5)) with (2 ^ 40).
  change (2 ^ (8 * 6)) with (2 ^ 48). change (2 ^ (8 * 7)) with (2 ^ 56).
  rewrite Z.div_1_r.
  Z.div_mod_to_equations. lia.
Qed.

Lemma zpad_encode_byte b :
  0 <= b < 256 -> zpad (encode_int b) 4 = [byte_of_Z b; x00; x00; x00].
Proof.
  intros Hb. destruct (Z.eq_dec b 0) as [->|Hb0]; [reflexivity|].
  rewrite (encode_int_bytes b) by lia.
  assert (Hu : to_uint32 b = b) by (unfold to_uint32; apply Z.mod_small; lia).
  rewrite Hu.
  destruct (Z.leb_spec (2 ^ 24) b); [lia|].
  destruct (Z.leb_spec (2 ^ 16) b); [lia|].
  destruct (Z.leb_spec (2 ^ 8) b); [lia|]. reflexivity.
Qed.

(** X20: the bytes that [hashimoto] hashes into its seed determine
    the nonce: for one header, two different 64-bit nonces never give
    the same serialized [header_seed]. *)
Theorem header_seed_keeps_nonce (header : list Z) (nonce1 nonce2 : Z) :
  0 <= nonce1 < 2 ^ 64 -> 0 <= nonce2 < 2 ^ 64 ->
  nonce1 <> nonce2 ->
  serialize (header_seed header nonce1) <> serialize (header_seed header nonce2).
Proof.
  intros H1 H2 Hne Heq. apply Hne.
  rewrite !header_seed_unfold in Heq. unfold serialize in Heq.
  rewrite !flat_map_app in Heq. apply app_inv_head in Heq.
  cbn [map flat_map] in Heq.
  rewrite !zpad_encode_byte in Heq by apply nonce_byte_range.
  cbn [app] in Heq.
  injection Heq as E7 E6 E5 E4 E3 E2 E1 E0.
  apply byte_of_Z_inj in E0, E1, E2, E3, E4, E5, E6, E7;
    try apply nonce_byte_range.
  rewrite (nonce_bytes_recompose nonce1 H1), (nonce_bytes_recompose nonce2 H2).
  rewrite E0, E1, E2, E3, E4, E5, E6, E7. reflexivity.
Qed.

(** ** Cancellation, operation by operation *)

Lemma dag_new_returns block_number callback :
  (forall step max phase, callback step max phase = true) ->
  exists d, dag_new block_number callback = Return d.
Proof.
  intros Hall.
  destruct (mkcache_outcome callback (get_cache_size block_number)
              (get_seedhash block_number)) as [_ Hgo].
  destruct Hgo as [cdata Hcdata]; [intros; apply Hall|intros; apply Hall|].
  destruct (generate_outcome callback (get_full_size block_number) cdata)
    as [_ Hgo2].
  destruct Hgo2 as [ddata Hddata]; [intros; apply Hall|].
  eexists. unfold dag_new, cache_new. rewrite Hcdata, !bind_Return.
  cbn [cache_data]. rewrite Hddata, bind_Return. reflexivity.
Qed.

(** The file that a cancelled or a completed [save] leaves. *)
Lemma save_written d callback :
  exists k,
    (k <= length (cache_data (dag_cache_of d) ++ dag_data d))%nat
    /\ snd (save d callback)
       = save_header d
         ++ flat_map (flat_map (le_bytes 4))
              (take k (cache_data (dag_cache_of d) ++ dag_data d))
    /\ (forall e, fst (save d callback) = Throw e -> (1 <= k)%nat).
Proof.
  unfold save.
  set (max_count := to_uint64 _).
  destruct (save_items_written callback max_count (cache_data (dag_cache_of d))
              0 (save_header d)) as (k1 & Hk1 & Hsnd1 & Hret1 & Hthrow1).
  destruct (save_items callback max_count (cache_data (dag_cache_of d)) 0
              (save_header d)) as [[count|e] fs1] eqn:E1;
    cbn [fst snd] in Hsnd1, Hret1, Hthrow1.
  - specialize (Hret1 count eq_refl). subst k1.
    destruct (save_items_written callback max_count (dag_data d) count fs1)
      as (k2 & Hk2 & Hsnd2 & Hret2 & Hthrow2).
    exists (length (cache_data (dag_cache_of d)) + k2)%nat.
    assert (Hfile : snd (save_items callback max_count (dag_data d) count fs1)
                    = save_header d
                      ++ flat_map (flat_map (le_bytes 4))
                           (take (length (cache_data (dag_cache_of d)) + k2)
                              (cache_data (dag_cache_of d) ++ dag_data d))).
    { rewrite Hsnd2, Hsnd1, take_app_add, flat_map_app, firstn_all, <- app_assoc.
      reflexivity. }
    destruct (save_items callback max_count (dag_data d) count fs1)
      as [[count'|e] fs2] eqn:E2; cbn [fst snd] in *.
    + split; [rewrite length_app; lia|]. split; [exact Hfile|]. discriminate.
    + split; [rewrite length_app; lia|]. split; [exact Hfile|].
      intros e' _. specialize (Hthrow2 e eq_refl). lia.
  - exists k1. split; [rewrite length_app; lia|].
    split.
    + rewrite Hsnd1. f_equal. f_equal.
      rewrite take_app_le by lia. reflexivity.
    + intros e' _. exact (Hthrow1 e eq_refl).
Qed.

(** C9: when the callback answers "stop" at a step at which an
    operation asks it, the operation throws [hash_exception], the one
    exception class of the library, with the cancellation message of
    its phase: [mkcache] on a cache of at least three items, in the
    seeding and in the generation phase; [generate] on a non-empty
    cache; and [save], which leaves the header and the items written
    so far, at least one, in the file.  A call of [get_dag] for an
    epoch that is not registered, whose callback answers "stop" at a
    step of the cache or of the DAG construction, throws the
    cancellation exception of that construction and leaves the process
    as it was: no object is added and no handle is registered. *)
Theorem observer_stop_cancels (callback : progress_callback_type) :
  (forall size seed,
     let n := Z.of_nat (Z.to_nat (size / HASH_BYTES)) in
     3 <= n ->
     stops callback cache_seeding n 1 n
     \/ stops callback cache_generation (n * CACHE_ROUNDS) 0 (n * CACHE_ROUNDS) ->
     mkcache size seed callback
     = Throw (HashException "Cache creation cancelled."))
  /\ (forall size cache,
        let n := Z.of_nat (Z.to_nat (size / HASH_BYTES)) in
        cache <> [] ->
        stops callback dag_generation n 0 n ->
        generate size cache callback
        = Throw (HashException "DAG creation cancelled."))
  /\ (forall this,
        let max_count :=
          to_uint64 (cache_size (dag_cache_of this)
                     + Z.of_nat (length (dag_data this))) in
        let items := cache_data (dag_cache_of this) ++ dag_data this in
        stops callback dag_saving max_count 1 (1 + Z.of_nat (length items)) ->
        fst (save this callback) = Throw (HashException "DAG save cancelled.")
        /\ exists k,
             (1 <= k <= length items)%nat
             /\ snd (save this callback)
                = save_header this
                  ++ flat_map (flat_map (le_bytes 4)) (take k items))
  /\ (forall block_number st,
        let nc := Z.of_nat (Z.to_nat (get_cache_size block_number / HASH_BYTES)) in
        let nd := Z.of_nat (Z.to_nat (get_full_size block_number / HASH_BYTES)) in
        dag_cache st !! (block_number / EPOCH_LENGTH) = None ->
        (stops callback cache_seeding nc 1 nc
         \/ stops callback cache_generation (nc * CACHE_ROUNDS)
              0 (nc * CACHE_ROUNDS) ->
         get_dag block_number callback st
         = (Throw (HashException "Cache creation cancelled."), st))
        /\ ((forall step, 1 <= step < nc ->
               callback step nc cache_seeding = true) ->
            (forall step, 0 <= step < nc * CACHE_ROUNDS ->
               callback step (nc * CACHE_ROUNDS) cache_generation = true) ->
            stops callback dag_generation nd 0 nd ->
            get_dag block_number callback st
            = (Throw (HashException "DAG creation cancelled."), st))
        /\ (stops callback cache_seeding nc 1 nc
            \/ stops callback cache_generation (nc * CACHE_ROUNDS)
                 0 (nc * CACHE_ROUNDS)
            \/ stops callback dag_generation nd 0 nd ->
            exists e,
              (e = HashException "Cache creation cancelled."
               \/ e = HashException "DAG creation cancelled.")
              /\ get_dag block_number callback st = (Throw e, st))).
Proof.
  split; [|split; [|split]].
  - intros size seed n _. apply mkcache_outcome.
  - intros size cache n _. apply generate_outcome.
  - intros this max_count items Hstop.
    assert (Hthrow : fst (save this callback)
                     = Throw (HashException "DAG save cancelled.")).
    { apply save_cancel. unfold items in Hstop. rewrite length_app in Hstop.
      rewrite Nat2Z.inj_add. rewrite Nat2Z.inj_add in Hstop. exact Hstop. }
    split; [exact Hthrow|].
    destruct (save_written this callback) as (k & Hk & Hfile & Hone).
    exists k. split; [|exact Hfile].
    split; [exact (Hone _ Hthrow)|exact Hk].
  - intros block_number st nc nd Hnone.
    destruct (dag_new_cancel callback block_number) as [Hcache Hdag].
    fold nc nd in Hcache, Hdag.
    assert (H1 : stops callback cache_seeding nc 1 nc
                 \/ stops callback cache_generation (nc * CACHE_ROUNDS)
                      0 (nc * CACHE_ROUNDS) ->
                 get_dag block_number callback st
                 = (Throw (HashException "Cache creation cancelled."), st))
      by (intros Hs; apply get_dag_throws; [exact Hnone|exact (Hcache Hs)]).
    assert (H2 : (forall step, 1 <= step < nc ->
                    callback step nc cache_seeding = true) ->
                 (forall step, 0 <= step < nc * CACHE_ROUNDS ->
                    callback step (nc * CACHE_ROUNDS) cache_generation = true) ->
                 stops callback dag_generation nd 0 nd ->
                 get_dag block_number callback st
                 = (Throw (HashException "DAG creation cancelled."), st))
      by (intros Ha Hb Hs; apply get_dag_throws;
          [exact Hnone|exact (Hdag Ha Hb Hs)]).
    split; [exact H1|]. split; [exact H2|].
    intros Hs.
    destruct (stops_dec callback cache_seeding nc 1
                (Z.to_nat (get_cache_size block_number / HASH_BYTES) - 1))
      as [(step & Hstep & Hcb)|Hall1].
    { exists (HashException "Cache creation cancelled.").
      split; [left; reflexivity|]. apply H1. left.
      exists step. split; [unfold nc; lia|exact Hcb]. }
    destruct (stops_dec callback cache_generation (nc * CACHE_ROUNDS) 0
                (Z.to_nat (get_cache_size block_number / HASH_BYTES) * 3))
      as [(step & Hstep & Hcb)|Hall2].
    { exists (HashException "Cache creation cancelled.").
      split; [left; reflexivity|]. apply H1. right.
      exists step. split; [unfold nc, CACHE_ROUNDS; lia|exact Hcb]. }
    destruct Hs as [(step & Hstep & Hcb)|[(step & Hstep & Hcb)|Hs]].
    + rewrite Hall1 in Hcb by (unfold nc in Hstep; lia). discriminate.
    + rewrite Hall2 in Hcb by (unfold nc, CACHE_ROUNDS in Hstep; lia).
      discriminate.
    + exists (HashException "DAG creation cancelled.").
      split; [right; reflexivity|]. apply H2; [| |exact Hs].
      * intros step Hstep. apply Hall1. unfold nc in Hstep. lia.
      * intros step Hstep. apply Hall2. unfold nc, CACHE_ROUNDS in Hstep. lia.
Qed.

End Properties.

(** ** The properties on concrete inputs, under the toy primitives *)

#[local] Existing Instance toy_keccak.

Lemma hashimoto_lookups_in_bounds_witness :
  Forall (fun x => 0 <= x < 4)
    (hashimoto_lookups small_header 258 256
       (calc_dataset_item (cache_data small_cache))).
Proof.
  exact (proj1 (proj2 (hashimoto_lookups_in_bounds small_header 258 256
                         (calc_dataset_item (cache_data small_cache))
                         ltac:(vm_compute; discriminate)))).
Defined.

Lemma hashimoto_light_full_agree_witness :
  hashimoto_full 256 small_dag small_header 258
  = hashimoto_light 256 small_cache small_header 258.
Proof.
  apply (hashimoto_light_full_agree 256 small_cache small_dag
           always_continue small_header 258).
  - vm_compute. discriminate.
  - vm_compute. reflexivity.
Defined.

Lemma mkcache_step_stores_at_round_index_witness :
  mkcache_step 3 0 1 three_items !! 1%nat = three_items !! 1%nat
  /\ mkcache_step 3 0 1 three_items !! 0%nat
     = Some (sha3_512
               (imap (fun count k => Z.lxor k ((three_items !!! 2%nat) !!! count))
                     (three_items !!! 0%nat))).
Proof.
  pose proof (mkcache_step_stores_at_round_index 0 1 three_items
                ltac:(simpl; lia) ltac:(simpl; lia)) as H.
  cbv zeta in H. split; [apply H|apply (proj1 (proj2 H))].
Defined.

Lemma sizes_are_largest_prime_sizes_witness :
  Z.prime (get_cache_size 0 / HASH_BYTES)
  /\ largest_prime_size MIX_BYTES
       (DATASET_BYTES_INIT + DATASET_BYTES_GROWTH * (0 / EPOCH_LENGTH) - MIX_BYTES)
       (get_full_size 0).
Proof.
  pose proof (sizes_are_largest_prime_sizes 0 ltac:(lia)) as H.
  cbv zeta in H. destruct H as (Hcache & _ & _ & Hfull & _).
  split; [exact Hcache|].
  apply Hfull. vm_compute. discriminate.
Defined.

(** The first block of the first epoch at which the 64-bit sum
    [CACHE_BYTES_INIT + CACHE_BYTES_GROWTH * e] wraps around:
    [e = 2^47 - 127].  The loop starts from [2^17 - 64] and stops at
    [64 * 2039], although [64 * 2053] is of the required form too. *)
Lemma cache_size_not_largest_after_wrap :
  0 <= 4222124650656030000 < 2 ^ 64
  /\ get_cache_size 4222124650656030000 = 130496
  /\ ~ largest_prime_size HASH_BYTES
         (CACHE_BYTES_INIT
          + CACHE_BYTES_GROWTH * (4222124650656030000 / EPOCH_LENGTH)
          - HASH_BYTES)
         (get_cache_size 4222124650656030000).
Proof.
  assert (Hsize : get_cache_size 4222124650656030000 = 130496).
  { unfold get_cache_size.
    change (to_uint64 _) with 131008.
    repeat size_loop_step get_cache_size_loop_eq.
    reflexivity. }
  split; [lia|]. split; [exact Hsize|].
  rewrite Hsize. intros [_ (k & Hk & Heq & Hsmaller)].
  change (CACHE_BYTES_INIT
          + CACHE_BYTES_GROWTH * (4222124650656030000 / EPOCH_LENGTH)
          - HASH_BYTES) with (2 ^ 64 + 131008) in *.
  change (2 * HASH_BYTES) with 128 in *.
  apply (Hsmaller (k - 7)); [lia|].
  replace (2 ^ 64 + 131008 - (k - 7) * 128) with 131392 by lia.
  apply is_prime_true_prime; [vm_compute; discriminate|reflexivity].
Defined.

Lemma registry_one_handle_per_epoch_witness :
  let sys := run [0; 1; 0; 1; 0]%nat
               (requested [(5, always_continue); (29999, always_continue)],
                empty_process) in
  exists p impl,
    fst sys !! 0%nat = Some (Returned 5 p)
    /\ fst sys !! 1%nat = Some (Constructed 29999 impl)
    /\ dag_cache (snd sys) !! (29999 / EPOCH_LENGTH) = Some p
    /\ p <> impl
    /\ schedule_step sys 1 = (<[1%nat := Returned 29999 p]> (fst sys), snd sys).
Proof.
  intros sys.
  destruct (dag_new_returns 5 always_continue) as [d1 Hd1]; [reflexivity|].
  destruct (dag_new_returns 29999 always_continue) as [d2 Hd2]; [reflexivity|].
  assert (Hsys : sys = ([Returned 5 0%nat; Constructed 29999 1%nat],
                        {| objects := [d1; d2];
                           dag_cache := <[0 := 0%nat]> ∅ |})).
  { unfold sys. cbn [requested map fst snd].
    set (ac := always_continue).
    assert (E1 : schedule_step
                   ([Requested 5 ac; Requested 29999 ac], empty_process) 0
                 = ([Constructing 5 ac; Requested 29999 ac], empty_process))
      by (apply (schedule_step_requested_miss
                   [Requested 5 ac; Requested 29999 ac] empty_process
                   0%nat 5 ac); reflexivity).
    assert (E2 : schedule_step
                   ([Constructing 5 ac; Requested 29999 ac], empty_process) 1
                 = ([Constructing 5 ac; Constructing 29999 ac], empty_process))
      by (apply (schedule_step_requested_miss
                   [Constructing 5 ac; Requested 29999 ac] empty_process
                   1%nat 29999 ac); reflexivity).
    assert (E3 : schedule_step
                   ([Constructing 5 ac; Constructing 29999 ac], empty_process) 0
                 = ([Constructed 5 0%nat; Constructing 29999 ac],
                    {| objects := [d1]; dag_cache := ∅ |}))
      by (apply (schedule_step_constructing
                   [Constructing 5 ac; Constructing 29999 ac] empty_process
                   0%nat 5 ac d1);
          [reflexivity|exact Hd1]).
    assert (E4 : schedule_step
                   ([Constructed 5 0%nat; Constructing 29999 ac],
                    {| objects := [d1]; dag_cache := ∅ |}) 1
                 = ([Constructed 5 0%nat; Constructed 29999 1%nat],
                    {| objects := [d1; d2]; dag_cache := ∅ |}))
      by (apply (schedule_step_constructing
                   [Constructed 5 0%nat; Constructing 29999 ac]
                   {| objects := [d1]; dag_cache := ∅ |} 1%nat 29999 ac d2);
          [reflexivity|exact Hd2]).
    assert (E5 : schedule_step
                   ([Constructed 5 0%nat; Constructed 29999 1%nat],
                    {| objects := [d1; d2]; dag_cache := ∅ |}) 0
                 = ([Returned 5 0%nat; Constructed 29999 1%nat],
                    {| objects := [d1; d2]; dag_cache := <[0 := 0%nat]> ∅ |}))
      by (apply (schedule_step_constructed_miss
                   [Constructed 5 0%nat; Constructed 29999 1%nat]
                   {| objects := [d1; d2]; dag_cache := ∅ |} 0%nat 5 0%nat);
          reflexivity).
    rewrite run_cons. etransitivity; [exact (f_equal (run _) E1)|].
    rewrite run_cons. etransitivity; [exact (f_equal (run _) E2)|].
    rewrite run_cons. etransitivity; [exact (f_equal (run _) E3)|].
    rewrite run_cons. etransitivity; [exact (f_equal (run _) E4)|].
    rewrite run_cons. etransitivity; [exact (f_equal (run _) E5)|].
    apply run_nil. }
  assert (Hok : registry_ok empty_process).
  { intros e p H. cbn in H. rewrite lookup_empty in H. discriminate. }
  pose proof (registry_one_handle_per_epoch
                [(5, always_continue); (29999, always_continue)] empty_process
                [0; 1; 0; 1; 0]%nat Hok) as H.
  cbv zeta in H. fold sys in H. destruct H as (_ & _ & _ & Hrace & _).
  assert (H0 : fst sys !! 0%nat = Some (Returned 5 0%nat))
    by (rewrite Hsys; reflexivity).
  assert (H1 : fst sys !! 1%nat = Some (Constructed 29999 1%nat))
    by (rewrite Hsys; reflexivity).
  assert (Hp : dag_cache (snd sys) !! (29999 / EPOCH_LENGTH) = Some 0%nat)
    by (rewrite Hsys; reflexivity).
  exists 0%nat, 1%nat.
  split; [exact H0|]. split; [exact H1|]. split; [exact Hp|].
  exact (Hrace 1%nat 29999 1%nat 0%nat H1 Hp).
Defined.

Lemma observer_stop_cancels_witness :
  mkcache 192 [] always_stop
  = Throw (HashException "Cache creation cancelled.")
  /\ generate 256 (cache_data small_cache) always_stop
     = Throw (HashException "DAG creation cancelled.")
  /\ (fst (save small_dag always_stop)
      = Throw (HashException "DAG save cancelled.")
      /\ exists k,
           (1 <= k <= length (cache_data (dag_cache_of small_dag)
                              ++ dag_data small_dag))%nat
           /\ snd (save small_dag always_stop)
              = save_header small_dag
                ++ flat_map (flat_map (le_bytes 4))
                     (take k (cache_data (dag_cache_of small_dag)
                              ++ dag_data small_dag)))
  /\ get_dag 0 always_stop empty_process
     = (Throw (HashException "Cache creation cancelled."), empty_process).
Proof.
  destruct (observer_stop_cancels always_stop)
    as (Hmkcache & Hgenerate & Hsave & Hget).
  split; [|split; [|split]].
  - apply Hmkcache; [vm_compute; discriminate|]. left. exists 1.
    split; [vm_compute; split; [discriminate|reflexivity]|reflexivity].
  - apply Hgenerate; [discriminate|]. exists 0.
    split; [vm_compute; split; [discriminate|reflexivity]|reflexivity].
  - apply Hsave. exists 1.
    split; [vm_compute; split; [discriminate|reflexivity]|reflexivity].
  - apply (proj1 (Hget 0 empty_process eq_refl)). left. exists 1.
    split; [|reflexivity]. rewrite get_cache_size_epoch0.
    vm_compute. split; [discriminate|reflexivity].
Defined.

(** A cancelled [save] leaves what it has written: the header and the
    first item of the cache, 129 bytes. *)
Lemma cancelled_save_keeps_partial_file :
  fst (save small_dag always_stop)
  = Throw (HashException "DAG save cancelled.")
  /\ snd (save small_dag always_stop)
     = save_header small_dag ++ flat_map (le_bytes 4) (map Z.of_nat (seq 1 16))
  /\ length (snd (save small_dag always_stop)) = 129%nat
  /\ snd (save small_dag always_stop) <> [].
Proof.
  split; [vm_compute; reflexivity|].
  split; [vm_compute; reflexivity|].
  split; [vm_compute; reflexivity|].
  vm_compute. discriminate.
Qed.

Lemma small_dag_well_formed : well_formed small_dag.
Proof.
  split; cbn [small_dag small_cache dag_epoch dag_size dag_cache_of dag_data
              cache_size cache_data].
  - lia.
  - repeat constructor.
  - unfold small_dag_data. repeat constructor.
  - reflexivity.
  - reflexivity.
  - vm_compute. reflexivity.
Qed.

Lemma load_does_not_restore_saved_dag_witness :
  exists e,
    load small_dag (snd (save small_dag always_continue)) always_continue
    = Throw e.
Proof.
  destruct load_does_not_restore_saved_dag as (_ & Hload & _).
  apply Hload.
  - exact small_dag_well_formed.
  - vm_compute. reflexivity.
Defined.

(** Under the toy primitives the returned [value] differs from the
    digest of the serialized [s] followed by the serialized [cmix], and
    the seed of epoch 1 differs from the digest of 32 zero bytes. *)
Example hashimoto_value_not_digest_of_seed_and_mix :
  value (hashimoto_full 256 small_dag small_header 258)
  <> H256
       (serialize (sha3_512 (header_seed small_header 258))
        ++ serialize
             (compress_mix
                (fst (snd (hashimoto_mix small_header 258 256
                             (fun x => dag_data small_dag !!! Z.to_nat x)))))).
Proof. vm_compute. discriminate. Qed.

Example get_seedhash_epoch1_not_digest_of_zero_seed :
  get_seedhash EPOCH_LENGTH <> H256 (replicate 32 x00).
Proof. vm_compute. discriminate. Qed.

Lemma deserialize_reads_big_endian_words_witness :
  exists w,
    deserialize 32 ([x12; x34; x56; x78] ++ replicate 28 x00) !! 0%nat = Some w
    /\ w = to_int32 (byte_to_Z x12 * 2 ^ 24 + byte_to_Z x34 * 2 ^ 16
                     + byte_to_Z x56 * 2 ^ 8 + byte_to_Z x78)
    /\ - 2 ^ 31 <= w < 2 ^ 31.
Proof.
  apply (deserialize_reads_big_endian_words 32
           ([x12; x34; x56; x78] ++ replicate 28 x00) 0).
  vm_compute. lia.
Defined.

Lemma serialize_word_format_witness :
  serialize [0x1234] = [x12; x34; x00; x00].
Proof.
  apply (serialize_word_format 0x1234). lia.
Defined.

Lemma words_survive_serialize_deserialize_witness :
  deserialize (4 * length [0; -1; 0x12345678]) (serialize [0; -1; 0x12345678])
  = [0; -1; 0x12345678]
  /\ deserialize 4 (serialize [0x41]) <> [0x41].
Proof.
  destruct words_survive_serialize_deserialize as [Hback Hchanged].
  split.
  - apply Hback.
    repeat (apply Forall_cons; split;
            [split; [lia|first [left; reflexivity
                                | right; vm_compute; discriminate]]|]).
    apply Forall_nil_2.
  - apply Hchanged; [lia|]. vm_compute. split; reflexivity.
Defined.

Lemma bytes_survive_deserialize_serialize_witness :
  serialize (deserialize (4 * 2) [x12; x00; x00; x34; x00; x00; x00; x00])
  = [x12; x00; x00; x34; x00; x00; x00; x00]
  /\ serialize (deserialize 4 [x00; x01; x00; x00]) <> [x00; x01; x00; x00].
Proof.
  destruct bytes_survive_deserialize_serialize as [Hback Hchanged].
  split.
  - apply Hback; [reflexivity|].
    intros j Hj.
    destruct j as [|[|j]]; [left; discriminate| |lia].
    right. repeat split; reflexivity.
  - apply Hchanged. intros (H & _). discriminate H.
Defined.

Lemma is_prime_decides_primality_witness :
  (is_prime 7 = true <-> Z.prime 7) /\ is_prime 1 = true /\ ~ Z.prime 1.
Proof.
  split.
  - apply (proj1 (is_prime_decides_primality 7)). lia.
  - apply (proj2 (is_prime_decides_primality 1)). lia.
Defined.

Lemma sizes_grow_with_block_number_witness :
  get_cache_size 29999 <= get_cache_size 30000
  /\ get_full_size 29999 <= get_full_size 30000.
Proof.
  apply (sizes_grow_with_block_number 29999 30000).
  - lia.
  - vm_compute. discriminate.
Defined.

Lemma get_seedhash_chain_witness :
  get_seedhash (0 + EPOCH_LENGTH) = serialize (sha3_256_str (get_seedhash 0))
  /\ length (get_seedhash (0 + EPOCH_LENGTH)) = 32%nat
  /\ (forall block_number',
        block_number' / EPOCH_LENGTH = 0 / EPOCH_LENGTH ->
        get_seedhash block_number' = get_seedhash 0).
Proof.
  apply (get_seedhash_chain 0). lia.
Defined.

Lemma mkcache_builds_all_items_witness :
  exists data,
    mkcache 192 [] always_continue = Return data
    /\ length data = 3%nat
    /\ Forall (fun item => length item = 16%nat) data.
Proof.
  assert (Hrun : {data | mkcache 192 [] always_continue = Return data})
    by (eexists; vm_compute; reflexivity).
  destruct Hrun as [data Hdata].
  exists data. split; [exact Hdata|].
  refine (proj1 (mkcache_builds_all_items 192 [] always_continue _) data Hdata).
  vm_compute. lia.
Defined.

Lemma generate_computes_every_item_witness :
  exists data,
    generate 256 (cache_data small_cache) always_continue = Return data
    /\ data = map (fun k => calc_dataset_item (cache_data small_cache) (Z.of_nat k))
                (seq 0 4)
    /\ length data = 4%nat
    /\ Forall (fun item => length item = 16%nat) data.
Proof.
  apply (generate_computes_every_item 256 (cache_data small_cache)
           always_continue).
  - discriminate.
  - reflexivity.
Defined.

Lemma dag_new_builds_well_formed_handle_witness :
  exists d,
    dag_new 0 always_continue = Return d
    /\ dag_epoch d = 0 / EPOCH_LENGTH
    /\ cache_epoch (dag_cache_of d) = 0 / EPOCH_LENGTH
    /\ dag_size d = get_full_size 0
    /\ cache_size (dag_cache_of d) = get_cache_size 0
    /\ well_formed d.
Proof.
  apply (dag_new_builds_well_formed_handle 0 always_continue).
  - vm_compute. split; [discriminate|reflexivity].
  - reflexivity.
Defined.

Lemma callback_does_not_change_the_result_witness :
  exists data,
    mkcache 192 [] always_continue = Return data
    /\ mkcache 192 [] (fun step _ _ => 0 <=? step) = Return data.
Proof.
  assert (Hrun1 : {data | mkcache 192 [] always_continue = Return data})
    by (eexists; vm_compute; reflexivity).
  assert (Hrun2 : {data | mkcache 192 [] (fun step _ _ => 0 <=? step)
                          = Return data})
    by (eexists; vm_compute; reflexivity).
  destruct Hrun1 as [data1 Hdata1]. destruct Hrun2 as [data2 Hdata2].
  exists data1. split; [exact Hdata1|].
  rewrite (proj1 (callback_does_not_change_the_result always_continue
                    (fun step _ _ => 0 <=? step))
             192 [] data1 data2 Hdata1 Hdata2).
  exact Hdata2.
Defined.

Lemma get_dag_returns_registered_handle_witness :
  get_dag 5 always_stop registered = (Return 0%nat, registered)
  /\ forall callback',
       get_dag 29999 callback' registered = (Return 0%nat, registered).
Proof.
  destruct (get_dag_returns_registered_handle 5 always_stop registered)
    as [Hhit Hagain].
  assert (H : get_dag 5 always_stop registered = (Return 0%nat, registered))
    by (apply Hhit; vm_compute; reflexivity).
  split; [exact H|].
  intros callback'.
  apply (proj2 (proj2 (proj2 (Hagain 0%nat registered H)))).
  vm_compute. reflexivity.
Defined.

Lemma get_dag_handle_is_of_epoch_witness :
  registry_epochs registered
  /\ exists d,
       objects registered !! 0%nat = Some d /\ dag_epoch d = 5 / EPOCH_LENGTH.
Proof.
  assert (Hinv : registry_epochs registered).
  { intros e p H. cbn in H. apply lookup_singleton_Some in H as [<- <-].
    exists small_dag. split; reflexivity. }
  destruct (get_dag_handle_is_of_epoch 5 always_stop registered registered
              0%nat Hinv) as (Hinv' & d & Hd & He & _).
  - vm_compute. reflexivity.
  - split; [exact Hinv'|]. exists d. split; [exact Hd|exact He].
Defined.

Lemma save_writes_header_then_items_witness :
  exists k,
    snd (save small_dag always_continue)
    = save_header small_dag
      ++ flat_map (flat_map (le_bytes 4))
           (take k (cache_data (dag_cache_of small_dag) ++ dag_data small_dag))
    /\ k = 6%nat.
Proof.
  destruct (save_writes_header_then_items small_dag always_continue)
    as (_ & Hreturns & k & _ & Hfile & Hall & _).
  exists k. split; [exact Hfile|].
  apply Hall. apply Hreturns. reflexivity.
Defined.

Lemma save_header_layout_witness :
  from_le (take 8 (drop 24 (snd (save small_dag always_continue)))) = 0
  /\ from_le (take 8 (drop 32 (snd (save small_dag always_continue)))) = 66
  /\ from_le (take 8 (drop 56 (snd (save small_dag always_continue)))) = 450.
Proof.
  destruct (save_header_layout small_dag always_continue)
    as (_ & _ & _ & _ & Hepoch & Hbegin & _ & _ & Hend).
  - vm_compute. split; [discriminate|reflexivity].
  - split; [exact Hepoch|]. split; [exact Hbegin|exact Hend].
Defined.

Lemma load_validate_outcomes_witness :
  load_validate [] = Throw (HashException "DAG is corrupt").
Proof.
  apply (proj1 (load_validate_outcomes [])). vm_compute. reflexivity.
Defined.

Lemma hashimoto_value_ignores_dataset_witness :
  value (hashimoto small_header 258 256
           (calc_dataset_item (cache_data small_cache)))
  = value (hashimoto small_header 258 128 (fun _ => []))
  /\ length (value (hashimoto small_header 258 256
                      (calc_dataset_item (cache_data small_cache)))) = 32%nat
  /\ length (mixhash (hashimoto small_header 258 256
                        (calc_dataset_item (cache_data small_cache)))) = 32%nat.
Proof.
  apply (hashimoto_value_ignores_dataset small_header 258 256 128
           (calc_dataset_item (cache_data small_cache)) (fun _ => []));
    vm_compute; discriminate.
Defined.

Lemma header_seed_keeps_nonce_witness :
  serialize (header_seed small_header 1) <> serialize (header_seed small_header 2).
Proof.
  apply (header_seed_keeps_nonce small_header 1 2); lia.
Defined.
